(** * Mouse Movement Simulator: a shallow embedding of [main.py] and [config.py]

    The development follows the source top-down:
    - [F64]: IEEE-754 binary64 arithmetic (CPython's [float]), built on the
      executable specification of the Standard Library ([SpecFloat]);
    - [Py]: the Python operations the program uses on numbers (true division,
      [int()], [float ** int], [math.sqrt], [max]) together with the exceptions
      they raise;
    - a small state-and-exception monad over an explicit platform: cursor
      reads and writes, screen size, the random generator, sleeping, Ctrl-C;
    - the functions of [main.py], one definition each, under the names of the
      source;
    - the properties of the boundary calculator, the position sampler, the two
      trajectory generators, the movement type selector and the runner. *)

From Stdlib Require Import ZArith List Bool Lia String SpecFloat.
Import ListNotations.
Open Scope Z_scope.

(** ** Binary64 *)

Module F64.

Definition prec : Z := 53.
Definition emax : Z := 1024.

Definition add : spec_float -> spec_float -> spec_float := SFadd prec emax.
Definition sub : spec_float -> spec_float -> spec_float := SFsub prec emax.
Definition mul : spec_float -> spec_float -> spec_float := SFmul prec emax.
Definition div : spec_float -> spec_float -> spec_float := SFdiv prec emax.
Definition sqrt : spec_float -> spec_float := SFsqrt prec emax.
Definition opp : spec_float -> spec_float := SFopp.
Definition abs : spec_float -> spec_float := SFabs.
Definition ltb : spec_float -> spec_float -> bool := SFltb.
Definition leb : spec_float -> spec_float -> bool := SFleb.
Definition eqb : spec_float -> spec_float -> bool := SFeqb.

(** Nearest binary64 to the integer [z] (ties to even). *)
Definition of_Z (z : Z) : spec_float := binary_normalize prec emax z 0 false.

(** Nearest binary64 to [m * 2^e]. *)
Definition scaled (m e : Z) : spec_float := binary_normalize prec emax m e false.

(** Nearest binary64 to the rational [a / b], for [b <> 0]: the quotient of
    the two integers is rounded once. *)
Definition ratio (a b : Z) : spec_float :=
  match a with
  | 0 => S754_zero (b <? 0)
  | _ =>
    let '(mz, ez, lz) := SFdiv_core_binary prec emax (Z.abs a) 0 (Z.abs b) 0 in
    binary_round_aux prec emax (xorb (a <? 0) (b <? 0)) mz ez lz
  end.

Definition zero : spec_float := S754_zero false.
Definition one : spec_float := Eval vm_compute in of_Z 1.
Definition three : spec_float := Eval vm_compute in of_Z 3.

Definition is_zero (x : spec_float) : bool :=
  match x with S754_zero _ => true | _ => false end.

Definition is_nan (x : spec_float) : bool :=
  match x with S754_nan => true | _ => false end.

Definition is_finite (x : spec_float) : bool :=
  match x with S754_zero _ | S754_finite _ _ _ => true | _ => false end.

Definition sign (x : spec_float) : bool :=
  match x with
  | S754_zero s | S754_infinity s | S754_finite s _ _ => s
  | S754_nan => false
  end.

(** Integer part of a finite value, rounded toward zero. *)
Definition trunc (x : spec_float) : option Z :=
  match x with
  | S754_zero _ => Some 0
  | S754_finite s m e =>
    Some (cond_Zopp s (match e with
                       | Zneg p => Zpos m / 2 ^ Zpos p
                       | _ => Zpos m * 2 ^ e
                       end))
  | _ => None
  end.

End F64.

(** ** Python numbers and exceptions *)

Inductive exn : Type :=
| KeyboardInterrupt
| ValueError (msg : string)
| ZeroDivisionError
| OverflowError
| OSError.

(** Result of running a piece of the program: a value, a raised exception,
    or [Pending] when the iteration bound given to an unbounded loop of the
    model is used up (the program is still running). *)
Inductive res (A : Type) : Type :=
| Ok (a : A)
| Raise (e : exn)
| Pending.

Arguments Ok {A} a.
Arguments Raise {A} e.
Arguments Pending {A}.

Module Py.

(** [float(n)] as done implicitly when an [int] meets a [float]. *)
Definition float_of_int (n : Z) : res spec_float :=
  let x := F64.of_Z n in
  if F64.is_finite x then Ok x else Raise OverflowError.

(** [a / b] on two [int]s. *)
Definition int_truediv (a b : Z) : res spec_float :=
  if b =? 0 then Raise ZeroDivisionError
  else let q := F64.ratio a b in
       if F64.is_finite q then Ok q else Raise OverflowError.

(** [x / y] on two [float]s. *)
Definition float_truediv (x y : spec_float) : res spec_float :=
  if F64.is_zero y then Raise ZeroDivisionError else Ok (F64.div x y).

(** [int(x)]. *)
Definition int_of_float (x : spec_float) : res Z :=
  match F64.trunc x with
  | Some z => Ok z
  | None =>
    if F64.is_nan x
    then Raise (ValueError "cannot convert float NaN to integer")
    else Raise OverflowError
  end.

(** [max(a, b)]: the first argument unless the second is greater. *)
Definition max (a b : spec_float) : spec_float :=
  if F64.ltb a b then b else a.

(** [x >= n] for a [float] and an [int]. *)
Definition float_ge_int (x : spec_float) (n : Z) : bool :=
  F64.leb (F64.of_Z n) x.

(** The delay of [time.sleep(secs)] in nanoseconds, as CPython computes it
    on a [float]: [secs * 1e9] in binary64. *)
Definition nanoseconds (secs : spec_float) : spec_float :=
  F64.mul secs (F64.of_Z (10 ^ 9)).

(** [x], as a real number, lies in [[-2^63, 2^63)]: the test CPython makes
    before it stores a number of nanoseconds in a signed 64-bit integer.
    Infinities and NaN do not pass. *)
Definition fits_int64 (x : spec_float) : bool :=
  match x with
  | S754_zero _ => true
  | S754_finite s m e =>
    (e <=? 63) &&
    (if s then Z.pos m <=? 2 ^ (63 - e) else Z.pos m <? 2 ^ (63 - e))
  | _ => false
  end.

(** [math.sqrt(n)] on a non-negative [int]. *)
Definition math_sqrt (n : Z) : res spec_float :=
  match float_of_int n with
  | Ok x => if F64.sign x then Raise (ValueError "math domain error")
            else Ok (F64.sqrt x)
  | Raise e => Raise e
  | Pending => Pending
  end.

(** [x ** n] for a [float] and a positive [int] literal.  CPython settles
    NaN, infinite, zero and unit bases itself and calls the C library's
    [pow] on the remaining ones, with the sign of a negative base put back
    on an odd power; an overflowing result raises. *)
Definition float_pow (libm_pow : spec_float -> spec_float -> spec_float)
  (x : spec_float) (n : Z) : res spec_float :=
  match x with
  | S754_nan => Ok S754_nan
  | S754_infinity s => Ok (S754_infinity (s && Z.odd n))
  | S754_zero s => Ok (S754_zero (s && Z.odd n))
  | S754_finite s m e =>
    let neg := s && Z.odd n in
    if F64.eqb (F64.abs x) F64.one
    then Ok (if neg then F64.opp F64.one else F64.one)
    else
      let r := libm_pow (F64.abs x) (F64.of_Z n) in
      if F64.is_finite r then Ok (if neg then F64.opp r else r)
      else Raise OverflowError
  end.

End Py.

(** ** Configuration ([config.py]) *)

Record config : Type := {
  USE_LINEAR_MOVEMENT : bool;
  USE_BEZIER_MOVEMENT : bool;
  WAIT_TIME_RANGE : Z * Z;
  MOVEMENT_DURATION_RANGE : spec_float * spec_float;
  LINEAR_STEP_INTERVAL_RANGE : spec_float * spec_float;
  LINEAR_STEPS_RANGE : Z * Z;
  BEZIER_STEP_INTERVAL_RANGE : spec_float * spec_float;
  BEZIER_CURVATURE_RANGE : spec_float * spec_float;
  SCREEN_MARGIN : list Z;
  ENABLE_SCREEN_SAFE_ZONE : bool;
  ENABLE_JITTER : bool;
  JITTER_INTENSITY : Z;
  RANDOMIZE_MOVEMENT_TYPES : bool;
  MAX_CONSECUTIVE_SAME_TYPE : Z;
  ENABLE_SMALL_MOVEMENTS : bool;
  SMALL_MOVEMENT_CHANCE : spec_float;
  SMALL_MOVEMENT_RANGE : Z * Z
}.

(** A decimal literal [a/b] of the source, e.g. [0.005] is [dec 5 1000]. *)
Definition dec (a b : Z) : spec_float := F64.ratio a b.

(** The values shipped in [config.py].  [VERBOSE_LOGGING] and
    [PRINT_MOVEMENT_DETAILS] only select what is printed; printing is not
    part of the model. *)
Definition default_config : config := {|
  USE_LINEAR_MOVEMENT := true;
  USE_BEZIER_MOVEMENT := true;
  WAIT_TIME_RANGE := (10, 60);
  MOVEMENT_DURATION_RANGE := (F64.of_Z 1, F64.of_Z 3);
  LINEAR_STEP_INTERVAL_RANGE := (dec 5 1000, dec 2 100);
  LINEAR_STEPS_RANGE := (30, 80);
  BEZIER_STEP_INTERVAL_RANGE := (dec 1 100, dec 3 100);
  BEZIER_CURVATURE_RANGE := (dec 2 10, dec 4 10);
  SCREEN_MARGIN := [50];
  ENABLE_SCREEN_SAFE_ZONE := true;
  ENABLE_JITTER := true;
  JITTER_INTENSITY := 1;
  RANDOMIZE_MOVEMENT_TYPES := true;
  MAX_CONSECUTIVE_SAME_TYPE := 3;
  ENABLE_SMALL_MOVEMENTS := true;
  SMALL_MOVEMENT_CHANCE := dec 2 10;
  SMALL_MOVEMENT_RANGE := (50, 200)
|}.

(** ** The platform and the effects of the program *)

(** What the program observes of its surroundings.  Every platform call,
    every draw of the random generator and every sleep is one tick; the
    platform answers by tick.
    - [deps_ok]: the outcome of [check_dependencies()];
    - [screen]: what [MouseController.get_screen_dimensions] returns;
    - [cursor t]: what [get_cursor_pos] returns when called at tick [t]
      (the user may move the pointer at any time);
    - [entropy t]: the raw number the random generator yields at tick [t];
    - [fault t]: whether a platform call made at tick [t] fails;
    - [interrupt_at]: the tick from which Ctrl-C is pending, if ever;
    - [libm_pow]: the C library's [pow]. *)
Record platform : Type := {
  deps_ok : bool;
  screen : Z * Z;
  cursor : nat -> Z * Z;
  entropy : nat -> Z;
  fault : nat -> bool;
  interrupt_at : option nat;
  libm_pow : spec_float -> spec_float -> spec_float
}.

Inductive movement_type : Type := linear | bezier.

(** Observable actions.  [Dispatch] marks the call of a trajectory
    generator by the runner; it is a marker of the model, not a platform
    call. *)
Inductive event : Type :=
| SetCursor (x y : Z)
| Sleep (d : spec_float)
| Dispatch (t : movement_type).

Record world : Type := { ticks : nat; log : list event }.

Definition M (A : Type) : Type := world -> res A * world.

Definition ret {A} (a : A) : M A := fun w => (Ok a, w).

Definition raise {A} (e : exn) : M A := fun w => (Raise e, w).

Definition pending {A} : M A := fun w => (Pending, w).

Definition bind {A B} (m : M A) (k : A -> M B) : M B :=
  fun w =>
    match m w with
    | (Ok a, w') => k a w'
    | (Raise e, w') => (Raise e, w')
    | (Pending, w') => (Pending, w')
    end.

Definition lift {A} (r : res A) : M A := fun w => (r, w).

Definition emit (e : event) : M unit :=
  fun w => (Ok tt, {| ticks := ticks w; log := log w ++ [e] |}).

Declare Scope monad_scope.
Delimit Scope monad_scope with monad.
Notation "x <- m ;; k" := (bind m (fun x => k))
  (at level 61, m at next level, right associativity) : monad_scope.
Notation "' p <- m ;; k" := (bind m (fun x => match x with p => k end))
  (at level 61, p pattern, m at next level, right associativity) : monad_scope.
Notation "m ;;; k" := (bind m (fun _ => k))
  (at level 61, right associativity) : monad_scope.
Open Scope monad_scope.

(** [for x in xs: body(x)]. *)
Fixpoint for_each {A} (xs : list A) (body : A -> M unit) : M unit :=
  match xs with
  | [] => ret tt
  | x :: xs' => body x ;;; for_each xs' body
  end.

(** [range(a, b)]. *)
Definition range (a b : Z) : list Z :=
  map (fun k => a + Z.of_nat k) (seq 0 (Z.to_nat (b - a))).

(** Sequencing of computations that only compute or raise. *)
Definition rbind {A B} (r : res A) (k : A -> res B) : res B :=
  match r with
  | Ok a => k a
  | Raise e => Raise e
  | Pending => Pending
  end.

Notation "'let?' x ':=' r 'in' k" := (rbind r (fun x => k))
  (at level 10, x name, r at level 100, k at level 200) : monad_scope.
Notation "'let?' ' p ':=' r 'in' k" := (rbind r (fun x => match x with p => k end))
  (at level 10, p pattern, r at level 100, k at level 200) : monad_scope.

Section Program.

Variable P : platform.
Variable cfg : config.

Definition interrupted (t : nat) : bool :=
  match interrupt_at P with
  | Some k => (k <=? t)%nat
  | None => false
  end.

(** One tick: Ctrl-C pending at this tick raises [KeyboardInterrupt];
    otherwise the call yields [f t] and the clock advances. *)
Definition tick {A} (f : nat -> res A) : M A :=
  fun w =>
    if interrupted (ticks w) then (Raise KeyboardInterrupt, w)
    else (f (ticks w), {| ticks := S (ticks w); log := log w |}).

Definition platform_call {A} (f : nat -> A) : M A :=
  tick (fun t => if fault P t then Raise OSError else Ok (f t)).

(** *** [MouseController] *)

Definition MouseController : M unit := platform_call (fun _ => tt).

Definition get_cursor_pos : M (Z * Z) := platform_call (cursor P).

Definition set_cursor_pos (x y : Z) : M unit :=
  platform_call (fun _ => tt) ;;; emit (SetCursor x y).

Definition controller_get_screen_dimensions : M (Z * Z) :=
  platform_call (fun _ => screen P).

(** *** [time] and [random] *)

(** [time.sleep(d)] on a [float].  CPython turns the delay into a whole
    number of nanoseconds held in a signed 64-bit integer and refuses, in
    this order: NaN ([ValueError]); a delay whose nanoseconds do not fit,
    which is any delay from about 9.22e9 seconds on and either infinity
    ([OverflowError]); a negative delay ([ValueError]).  Rounding the
    nanoseconds to a whole number changes neither test: a binary64 of
    magnitude [2^53] or more is whole, and a negative one rounds away from
    zero. *)
Definition sleep (d : spec_float) : M unit :=
  if F64.is_nan d
  then raise (ValueError "Invalid value NaN (not a number)")
  else if negb (Py.fits_int64 (Py.nanoseconds d))
  then raise OverflowError
  else if F64.ltb (Py.nanoseconds d) F64.zero
  then raise (ValueError "sleep length must be non-negative")
  else tick (fun _ => Ok tt) ;;; emit (Sleep d).

(** [time.sleep(n)] on an [int]: the nanoseconds [n * 10^9] are computed on
    64-bit integers, so exactly the [n] with [|n| <= 9223372036] fit. *)
Definition sleep_int (n : Z) : M unit :=
  if (n <? - 9223372036) || (9223372036 <? n)
  then raise OverflowError
  else if n <? 0 then raise (ValueError "sleep length must be non-negative")
  else tick (fun _ => Ok tt) ;;; emit (Sleep (F64.of_Z n)).

(** [random.random()]: a multiple of [2^-53] in [[0, 1)]. *)
Definition random : M spec_float :=
  tick (fun t => Ok (F64.scaled (entropy P t mod 2 ^ 53) (-53))).

(** [random.randint(a, b)]: an integer of [[a, b]]. *)
Definition randint (a b : Z) : M Z :=
  if b <? a then raise (ValueError "empty range for randrange()")
  else tick (fun t => Ok (a + entropy P t mod (b - a + 1))).

(** [random.uniform(a, b)] is [a + (b - a) * random()]. *)
Definition uniform (a b : spec_float) : M spec_float :=
  r <- random ;;
  ret (F64.add a (F64.mul (F64.sub b a) r)).

(** [random.choice(seq)]. *)
Definition choice {A} (xs : list A) : M A :=
  match xs with
  | [] => raise (ValueError "Cannot choose from an empty sequence")
  | x :: _ =>
    tick (fun t => Ok (nth (Z.to_nat (entropy P t mod Z.of_nat (List.length xs))) xs x))
  end.

(** *** [get_screen_dimensions] and [get_screen_bounds] *)

Definition get_screen_dimensions : M (Z * Z) :=
  MouseController ;;; controller_get_screen_dimensions.

(** The margin configuration as [(left, top, right, bottom)]. *)
Definition parse_margin (margin : list Z) : res (Z * Z * Z * Z) :=
  match margin with
  | [m] => Ok (m, m, m, m)
  | [h; v] => Ok (h, v, h, v)
  | [l; t; r; b] => Ok (l, t, r, b)
  | _ => Raise (ValueError "SCREEN_MARGIN must have 1, 2, or 4 values")
  end.

(** [get_screen_bounds] after the screen size has been read. *)
Definition screen_bounds (screen_width screen_height : Z) : res (Z * Z * Z * Z) :=
  if negb (ENABLE_SCREEN_SAFE_ZONE cfg) then Ok (0, 0, screen_width, screen_height)
  else
    let? '(m_left, m_top, m_right, m_bottom) := parse_margin (SCREEN_MARGIN cfg) in
    let min_x := m_left in
    let min_y := m_top in
    let max_x := screen_width - m_right in
    let max_y := screen_height - m_bottom in
    if (max_x <=? min_x) || (max_y <=? min_y)
    then Raise (ValueError "Screen margins are too large for the screen dimensions")
    else Ok (min_x, min_y, max_x, max_y).

Definition get_screen_bounds : M (Z * Z * Z * Z) :=
  MouseController ;;;
  '(screen_width, screen_height) <- controller_get_screen_dimensions ;;
  lift (screen_bounds screen_width screen_height).

(** *** [get_next_position] and [get_small_movement_position] *)

Definition get_next_position (max_x max_y min_x min_y : Z) : M (Z * Z) :=
  if max_x <=? min_x then raise (ValueError "min_x must be less than max_x")
  else if max_y <=? min_y then raise (ValueError "min_y must be less than max_y")
  else
    x <- randint min_x max_x ;;
    y <- randint min_y max_y ;;
    ret (x, y).

(** The [while True] of [get_small_movement_position], run for at most [n]
    rounds. *)
Fixpoint small_movement_loop (n : nat) (current_x current_y min_x min_y max_x max_y : Z)
  : M (Z * Z) :=
  match n with
  | O => pending
  | S n' =>
    '(target_x, target_y) <- get_next_position max_x max_y min_x min_y ;;
    distance <- lift (Py.math_sqrt ((target_x - current_x) ^ 2 + (target_y - current_y) ^ 2)) ;;
    if Py.float_ge_int distance (fst (SMALL_MOVEMENT_RANGE cfg))
    then ret (target_x, target_y)
    else small_movement_loop n' current_x current_y min_x min_y max_x max_y
  end.

Definition get_small_movement_position (n : nat) (current_x current_y : Z) : M (Z * Z) :=
  MouseController ;;;
  '(screen_width, screen_height) <- controller_get_screen_dimensions ;;
  let min_x := Z.max 0 (current_x - snd (SMALL_MOVEMENT_RANGE cfg)) in
  let max_x := Z.min screen_width (current_x + snd (SMALL_MOVEMENT_RANGE cfg)) in
  let min_y := Z.max 0 (current_y - snd (SMALL_MOVEMENT_RANGE cfg)) in
  let max_y := Z.min screen_height (current_y + snd (SMALL_MOVEMENT_RANGE cfg)) in
  small_movement_loop n current_x current_y min_x min_y max_x max_y.

(** *** Jitter *)

(** The offsets added to a point: two draws in [[-J, J]], or none. *)
Definition jitter : M (Z * Z) :=
  if ENABLE_JITTER cfg then
    jitter_x <- randint (- JITTER_INTENSITY cfg) (JITTER_INTENSITY cfg) ;;
    jitter_y <- randint (- JITTER_INTENSITY cfg) (JITTER_INTENSITY cfg) ;;
    ret (jitter_x, jitter_y)
  else ret (0, 0).

(** *** [linear_mouse_move] *)

(** [int(start + increment * step)]. *)
Definition linear_coord (start : Z) (increment : spec_float) (step : Z) : res Z :=
  let? s := Py.float_of_int step in
  let? a := Py.float_of_int start in
  Py.int_of_float (F64.add a (F64.mul increment s)).

Definition linear_step (start_x start_y : Z) (x_increment y_increment step_interval : spec_float)
  (step : Z) : M unit :=
  current_x <- lift (linear_coord start_x x_increment step) ;;
  current_y <- lift (linear_coord start_y y_increment step) ;;
  '(jitter_x, jitter_y) <- jitter ;;
  set_cursor_pos (current_x + jitter_x) (current_y + jitter_y) ;;;
  sleep step_interval.

Definition linear_mouse_move (target_x target_y : Z) : M unit :=
  MouseController ;;;
  '(start_x, start_y) <- get_cursor_pos ;;
  step_interval <- uniform (fst (LINEAR_STEP_INTERVAL_RANGE cfg)) (snd (LINEAR_STEP_INTERVAL_RANGE cfg)) ;;
  steps <- randint (fst (LINEAR_STEPS_RANGE cfg)) (snd (LINEAR_STEPS_RANGE cfg)) ;;
  x_increment <- lift (Py.int_truediv (target_x - start_x) steps) ;;
  y_increment <- lift (Py.int_truediv (target_y - start_y) steps) ;;
  for_each (range 1 (steps + 1))
    (linear_step start_x start_y x_increment y_increment step_interval).

(** *** [human_like_mouse_move] *)

(** [start + d * c + random.uniform(-offset_range, offset_range)], for
    [c] one of the literals [0.3] and [0.7]. *)
Definition control_point (start d : Z) (c offset_range : spec_float) : M spec_float :=
  base <- lift (let? fd := Py.float_of_int d in
                let? fs := Py.float_of_int start in
                Ok (F64.add fs (F64.mul fd c))) ;;
  u <- uniform (F64.opp offset_range) offset_range ;;
  ret (F64.add base u).

(** One coordinate of the cubic Bezier point at parameter [t]:
    [(1-t)**3 * start + 3*(1-t)**2*t * ctrl1 + 3*(1-t)*t**2 * ctrl2 + t**3 * target]. *)
Definition bezier_coord (t : spec_float) (start : Z) (ctrl1 ctrl2 : spec_float) (target : Z)
  : res spec_float :=
  let u := F64.sub F64.one t in
  let? u3 := Py.float_pow (libm_pow P) u 3 in
  let? fs := Py.float_of_int start in
  let? u2 := Py.float_pow (libm_pow P) u 2 in
  let? t2 := Py.float_pow (libm_pow P) t 2 in
  let? t3 := Py.float_pow (libm_pow P) t 3 in
  let? ft := Py.float_of_int target in
  Ok (F64.add
        (F64.add
           (F64.add (F64.mul u3 fs)
                    (F64.mul (F64.mul (F64.mul F64.three u2) t) ctrl1))
           (F64.mul (F64.mul (F64.mul F64.three u) t2) ctrl2))
        (F64.mul t3 ft)).

(** [current += jitter] on a [float]; nothing is added when jitter is off. *)
Definition add_jitter (current : spec_float) (j : Z) : res spec_float :=
  if ENABLE_JITTER cfg then
    let? fj := Py.float_of_int j in Ok (F64.add current fj)
  else Ok current.

Definition bezier_step (start_x start_y : Z) (ctrl1_x ctrl1_y ctrl2_x ctrl2_y : spec_float)
  (target_x target_y : Z) (step_interval : spec_float) (steps i : Z) : M unit :=
  t <- lift (Py.int_truediv i steps) ;;
  current_x <- lift (bezier_coord t start_x ctrl1_x ctrl2_x target_x) ;;
  current_y <- lift (bezier_coord t start_y ctrl1_y ctrl2_y target_y) ;;
  '(jitter_x, jitter_y) <- jitter ;;
  current_x <- lift (add_jitter current_x jitter_x) ;;
  current_y <- lift (add_jitter current_y jitter_y) ;;
  px <- lift (Py.int_of_float current_x) ;;
  py <- lift (Py.int_of_float current_y) ;;
  set_cursor_pos px py ;;;
  variable_interval_jitter <- uniform (F64.opp (dec 5 1000)) (dec 5 1000) ;;
  sleep (Py.max (dec 1 1000) (F64.add step_interval variable_interval_jitter)).

Definition human_like_mouse_move (target_x target_y : Z) : M unit :=
  MouseController ;;;
  '(start_x, start_y) <- get_cursor_pos ;;
  let dx := target_x - start_x in
  let dy := target_y - start_y in
  distance <- lift (Py.math_sqrt (dx ^ 2 + dy ^ 2)) ;;
  movement_duration <- uniform (fst (MOVEMENT_DURATION_RANGE cfg)) (snd (MOVEMENT_DURATION_RANGE cfg)) ;;
  step_interval <- uniform (fst (BEZIER_STEP_INTERVAL_RANGE cfg)) (snd (BEZIER_STEP_INTERVAL_RANGE cfg)) ;;
  curvature_factor <- uniform (fst (BEZIER_CURVATURE_RANGE cfg)) (snd (BEZIER_CURVATURE_RANGE cfg)) ;;
  let offset_range := F64.mul distance curvature_factor in
  ctrl1_x <- control_point start_x dx (dec 3 10) offset_range ;;
  ctrl1_y <- control_point start_y dy (dec 3 10) offset_range ;;
  ctrl2_x <- control_point start_x dx (dec 7 10) offset_range ;;
  ctrl2_y <- control_point start_y dy (dec 7 10) offset_range ;;
  steps <- lift (let? q := Py.float_truediv movement_duration step_interval in
                 Py.int_of_float q) ;;
  for_each (range 0 (steps + 1))
    (bezier_step start_x start_y ctrl1_x ctrl1_y ctrl2_x ctrl2_y
                 target_x target_y step_interval steps).

(** *** [choose_movement_type] *)

(** The dictionary [{'linear': _, 'bezier': _}]. *)
Record counts : Type := { n_linear : Z; n_bezier : Z }.

Definition count (c : counts) (t : movement_type) : Z :=
  match t with linear => n_linear c | bezier => n_bezier c end.

Definition set_count (c : counts) (t : movement_type) (v : Z) : counts :=
  match t with
  | linear => {| n_linear := v; n_bezier := n_bezier c |}
  | bezier => {| n_linear := n_linear c; n_bezier := v |}
  end.

Definition movement_type_eqb (a b : movement_type) : bool :=
  match a, b with
  | linear, linear | bezier, bezier => true
  | _, _ => false
  end.

(** ['bezier' if movement_type == 'linear' else 'linear']. *)
Definition other_type (t : movement_type) : movement_type :=
  if movement_type_eqb t linear then bezier else linear.

Definition enabled_types : list movement_type :=
  (if USE_LINEAR_MOVEMENT cfg then [linear] else []) ++
  (if USE_BEZIER_MOVEMENT cfg then [bezier] else []).

Definition choose_movement_type (cc : counts) : M movement_type :=
  match enabled_types with
  | [] => raise (ValueError "At least one movement type must be enabled in config")
  | [t] => ret t
  | _ =>
    if negb (RANDOMIZE_MOVEMENT_TYPES cfg)
    then ret (if count cc linear <=? count cc bezier then linear else bezier)
    else choice enabled_types
  end.

(** *** [main] *)

(** The variables of [main] that live across iterations. *)
Record runner_state : Type := {
  movement_count : Z;
  consecutive_count : counts;
  last_movement_type : option movement_type
}.

Definition initial_state : runner_state :=
  {| movement_count := 0;
     consecutive_count := {| n_linear := 0; n_bezier := 0 |};
     last_movement_type := None |}.

Definition same_as_last (t : movement_type) (last : option movement_type) : bool :=
  match last with
  | Some l => movement_type_eqb t l
  | None => false
  end.

(** "Update consecutive count" followed by "Ensure we don't exceed max
    consecutive same type": the movement type that will be executed, and
    the counters after both steps. *)
Definition update_consecutive_count (chosen : movement_type)
  (cc : counts) (last : option movement_type) : movement_type * counts :=
  let cc :=
    if same_as_last chosen last
    then set_count cc chosen (count cc chosen + 1)
    else set_count (set_count cc chosen 1) (other_type chosen) 0 in
  if MAX_CONSECUTIVE_SAME_TYPE cfg <? count cc chosen then
    let switched :=
      if movement_type_eqb chosen linear && USE_BEZIER_MOVEMENT cfg then bezier
      else if movement_type_eqb chosen bezier && USE_LINEAR_MOVEMENT cfg then linear
      else chosen in
    (switched, set_count (set_count cc switched 1) (other_type switched) 0)
  else (chosen, cc).

(** One pass through the body of [while True].  [n] bounds the rounds of
    the sampling loop of a small movement. *)
Definition iteration (n : nat) (bounds : Z * Z * Z * Z) (st : runner_state) : M runner_state :=
  let '(min_x, min_y, max_x, max_y) := bounds in
  '(current_x, current_y) <- get_cursor_pos ;;
  small <- (if ENABLE_SMALL_MOVEMENTS cfg
            then r <- random ;; ret (F64.ltb r (SMALL_MOVEMENT_CHANCE cfg))
            else ret false) ;;
  '(target_x, target_y) <- (if small : bool
                            then get_small_movement_position n current_x current_y
                            else get_next_position max_x max_y min_x min_y) ;;
  chosen <- choose_movement_type (consecutive_count st) ;;
  let '(executed, cc) :=
    update_consecutive_count chosen (consecutive_count st) (last_movement_type st) in
  emit (Dispatch executed) ;;;
  match executed with
  | linear => linear_mouse_move target_x target_y
  | bezier => human_like_mouse_move target_x target_y
  end ;;;
  wait_time <- randint (fst (WAIT_TIME_RANGE cfg)) (snd (WAIT_TIME_RANGE cfg)) ;;
  sleep_int wait_time ;;;
  ret {| movement_count := movement_count st + 1;
         consecutive_count := cc;
         last_movement_type := Some executed |}.

(** [while True], run for at most [fuel] iterations.  The loop has no
    exit: it never yields a value. *)
Fixpoint run_loop (n fuel : nat) (bounds : Z * Z * Z * Z) (st : runner_state) : M Empty_set :=
  match fuel with
  | O => pending
  | S fuel' => st' <- iteration n bounds st ;; run_loop n fuel' bounds st'
  end.

(** The body of the [try] statement of [main]. *)
Definition main_try (n : nat) : M Empty_set :=
  bounds <- get_screen_bounds ;;
  _ <- get_screen_dimensions ;;
  MouseController ;;;
  run_loop n n bounds initial_state.

Inductive status : Type :=
| Exited (code : Z)
| Running.

Definition boot : world := {| ticks := O; log := [] |}.

(** [main()] as the process sees it: [sys.exit(1)] when the dependency
    check fails; otherwise the [try] body runs, both handlers print and
    fall through, and the process ends with code 0.  [Running] is the
    answer when [n] iterations were not enough to see the process end. *)
Definition main (n : nat) : status * world :=
  if negb (deps_ok P) then (Exited 1, boot)
  else
    match main_try n boot with
    | (Raise KeyboardInterrupt, w) => (Exited 0, w)
    | (Raise _, w) => (Exited 0, w)
    | (Pending, w) => (Running, w)
    | (Ok v, _) => match v with end
    end.

End Program.

(** ** Vocabulary of the statements *)

(** The positions written to the cursor, in order. *)
Definition cursor_writes (l : list event) : list (Z * Z) :=
  flat_map (fun e => match e with SetCursor x y => [(x, y)] | _ => [] end) l.

(** The delays slept, in order. *)
Definition sleeps (l : list event) : list spec_float :=
  flat_map (fun e => match e with Sleep d => [d] | _ => [] end) l.

(** The trajectory generators called by the runner, in order. *)
Definition dispatched (l : list event) : list movement_type :=
  flat_map (fun e => match e with Dispatch t => [t] | _ => [] end) l.

(** The 1/2/4-value rule of [SCREEN_MARGIN]: one value for all four sides;
    two values, horizontal then vertical; four values, left, top, right,
    bottom. *)
Inductive margin_sides : list Z -> Z -> Z -> Z -> Z -> Prop :=
| sides_all m : margin_sides [m] m m m m
| sides_hv h v : margin_sides [h; v] h v h v
| sides_each l t r b : margin_sides [l; t; r; b] l t r b.

Definition with_margin (cfg : config) (margin : list Z) : config := {|
  USE_LINEAR_MOVEMENT := USE_LINEAR_MOVEMENT cfg;
  USE_BEZIER_MOVEMENT := USE_BEZIER_MOVEMENT cfg;
  WAIT_TIME_RANGE := WAIT_TIME_RANGE cfg;
  MOVEMENT_DURATION_RANGE := MOVEMENT_DURATION_RANGE cfg;
  LINEAR_STEP_INTERVAL_RANGE := LINEAR_STEP_INTERVAL_RANGE cfg;
  LINEAR_STEPS_RANGE := LINEAR_STEPS_RANGE cfg;
  BEZIER_STEP_INTERVAL_RANGE := BEZIER_STEP_INTERVAL_RANGE cfg;
  BEZIER_CURVATURE_RANGE := BEZIER_CURVATURE_RANGE cfg;
  SCREEN_MARGIN := margin;
  ENABLE_SCREEN_SAFE_ZONE := ENABLE_SCREEN_SAFE_ZONE cfg;
  ENABLE_JITTER := ENABLE_JITTER cfg;
  JITTER_INTENSITY := JITTER_INTENSITY cfg;
  RANDOMIZE_MOVEMENT_TYPES := RANDOMIZE_MOVEMENT_TYPES cfg;
  MAX_CONSECUTIVE_SAME_TYPE := MAX_CONSECUTIVE_SAME_TYPE cfg;
  ENABLE_SMALL_MOVEMENTS := ENABLE_SMALL_MOVEMENTS cfg;
  SMALL_MOVEMENT_CHANCE := SMALL_MOVEMENT_CHANCE cfg;
  SMALL_MOVEMENT_RANGE := SMALL_MOVEMENT_RANGE cfg
|}.

(** A [pow] by repeated multiplication, for running the model. *)
Definition pow_by_mul (x y : spec_float) : spec_float :=
  if F64.eqb y (F64.of_Z 2) then F64.mul x x else F64.mul (F64.mul x x) x.

(** A platform where nothing fails and nobody interrupts: an 800 x 600
    screen, the pointer resting at [at_], the random generator yielding
    [rnd t] at tick [t]. *)
Definition quiet_platform (at_ : Z * Z) (rnd : nat -> Z) : platform := {|
  deps_ok := true;
  screen := (800, 600);
  cursor := fun _ => at_;
  entropy := rnd;
  fault := fun _ => false;
  interrupt_at := None;
  libm_pow := pow_by_mul
|}.

(** The selector along a run of the loop: [chosen] lists what
    [choose_movement_type] returned at each iteration; the result lists, for
    each iteration, the movement type executed and the counters after the
    update. *)
Fixpoint selector_run (cfg : config) (chosen : list movement_type)
  (cc : counts) (last : option movement_type) : list (movement_type * counts) :=
  match chosen with
  | [] => []
  | c :: rest =>
    let '(executed, cc') := update_consecutive_count cfg c cc last in
    (executed, cc') :: selector_run cfg rest cc' (Some executed)
  end.

Definition no_counts : counts := {| n_linear := 0; n_bezier := 0 |}.

(** Number of leading elements of [l] equal to [t]. *)
Fixpoint leading (t : movement_type) (l : list movement_type) : nat :=
  match l with
  | x :: r => if movement_type_eqb x t then S (leading t r) else O
  | [] => O
  end.

(** Length of the longest block of equal consecutive elements. *)
Fixpoint longest_run (l : list movement_type) : nat :=
  match l with
  | [] => O
  | x :: r => Nat.max (S (leading x r)) (longest_run r)
  end.

(** What the counters say about the run so far: nothing before the first
    movement; afterwards the movement type executed last has a positive
    count and the other one has count zero. *)
Definition selector_inv (cc : counts) (last : option movement_type) : Prop :=
  match last with
  | None => cc = no_counts
  | Some l => 1 <= count cc l /\ count cc (other_type l) = 0
  end.

(** A computation that calls no trajectory generator of its own accord:
    it leaves the list of dispatched movement types as it found it. *)
Definition undispatching {A} (m : M A) : Prop :=
  forall w, dispatched (log (snd (m w))) = dispatched (log w).

(** The states in which the loop of [main] starts an iteration: the
    initial one, and those left by a completed iteration. *)
Inductive loop_reaches (P : platform) (cfg : config) (n : nat) (bounds : Z * Z * Z * Z)
  : runner_state -> world -> Prop :=
| reaches_start w : loop_reaches P cfg n bounds initial_state w
| reaches_next st w st' w' :
    loop_reaches P cfg n bounds st w ->
    iteration P cfg n bounds st w = (Ok st', w') ->
    loop_reaches P cfg n bounds st' w'.

Definition with_jitter (cfg : config) (enabled : bool) : config := {|
  USE_LINEAR_MOVEMENT := USE_LINEAR_MOVEMENT cfg;
  USE_BEZIER_MOVEMENT := USE_BEZIER_MOVEMENT cfg;
  WAIT_TIME_RANGE := WAIT_TIME_RANGE cfg;
  MOVEMENT_DURATION_RANGE := MOVEMENT_DURATION_RANGE cfg;
  LINEAR_STEP_INTERVAL_RANGE := LINEAR_STEP_INTERVAL_RANGE cfg;
  LINEAR_STEPS_RANGE := LINEAR_STEPS_RANGE cfg;
  BEZIER_STEP_INTERVAL_RANGE := BEZIER_STEP_INTERVAL_RANGE cfg;
  BEZIER_CURVATURE_RANGE := BEZIER_CURVATURE_RANGE cfg;
  SCREEN_MARGIN := SCREEN_MARGIN cfg;
  ENABLE_SCREEN_SAFE_ZONE := ENABLE_SCREEN_SAFE_ZONE cfg;
  ENABLE_JITTER := enabled;
  JITTER_INTENSITY := JITTER_INTENSITY cfg;
  RANDOMIZE_MOVEMENT_TYPES := RANDOMIZE_MOVEMENT_TYPES cfg;
  MAX_CONSECUTIVE_SAME_TYPE := MAX_CONSECUTIVE_SAME_TYPE cfg;
  ENABLE_SMALL_MOVEMENTS := ENABLE_SMALL_MOVEMENTS cfg;
  SMALL_MOVEMENT_CHANCE := SMALL_MOVEMENT_CHANCE cfg;
  SMALL_MOVEMENT_RANGE := SMALL_MOVEMENT_RANGE cfg
|}.

(** Whether a point lies in the rectangle [(min_x, min_y, max_x, max_y)]. *)
Definition in_rect (bounds : Z * Z * Z * Z) (p : Z * Z) : Prop :=
  let '(min_x, min_y, max_x, max_y) := bounds in
  min_x <= fst p <= max_x /\ min_y <= snd p <= max_y.

(** How a computation moves the clock when Ctrl-C is pending from tick
    [k]: the clock never runs backwards, never passes [max (now) k], and a
    computation cut short by the iteration bound [n] has used at least [n]
    ticks. *)
Definition paced (k n : nat) {A} (m : M A) : Prop :=
  forall w r w', m w = (r, w') ->
    (ticks w <= ticks w')%nat /\
    (ticks w' <= Nat.max (ticks w) k)%nat /\
    (r = Pending -> (n <= ticks w')%nat).

(** A platform whose calls fail from tick [t0] on (the helper program that
    moves the pointer has gone away, say); otherwise as [quiet_platform]. *)
Definition failing_platform (t0 : nat) (at_ : Z * Z) (rnd : nat -> Z) : platform := {|
  deps_ok := true;
  screen := (800, 600);
  cursor := fun _ => at_;
  entropy := rnd;
  fault := fun t => (t0 <=? t)%nat;
  interrupt_at := None;
  libm_pow := pow_by_mul
|}.

(** A platform on which Ctrl-C is pending from tick [k] on. *)
Definition interrupted_platform (k : nat) (at_ : Z * Z) (rnd : nat -> Z) : platform := {|
  deps_ok := true;
  screen := (800, 600);
  cursor := fun _ => at_;
  entropy := rnd;
  fault := fun _ => false;
  interrupt_at := Some k;
  libm_pow := pow_by_mul
|}.

(** [below k x]: [x] is finite and its magnitude is below [2^k]. *)
Definition below (k : Z) (x : spec_float) : Prop :=
  match x with
  | S754_zero _ => True
  | S754_finite _ m e => Zpos (digits2_pos m) + e <= k
  | _ => False
  end.

Abbreviation fexp64 := (fexp F64.prec F64.emax).
Abbreviation bra64 := (binary_round_aux F64.prec F64.emax).

(** The value [random.random()] yields at tick [t]. *)
Definition random_at (P : platform) (t : nat) : spec_float :=
  F64.scaled (entropy P t mod 2 ^ 53) (-53).

(** The value [random.uniform(a, b)] yields at tick [t]. *)
Definition uniform_at (P : platform) (range : spec_float * spec_float) (t : nat)
  : spec_float :=
  F64.add (fst range) (F64.mul (F64.sub (snd range) (fst range)) (random_at P t)).

(** The value of a control point of the curve drawn at tick [t]. *)
Definition control_at (P : platform) (start d : Z) (c offset_range : spec_float)
  (t : nat) : spec_float :=
  F64.add (F64.add (F64.of_Z start) (F64.mul (F64.of_Z d) c))
          (uniform_at P (F64.opp offset_range, offset_range) t).

(** The step count [int(movement_duration / step_interval)] that
    [human_like_mouse_move] derives when called in world [w]: the duration
    and the interval are its third and fourth ticks. *)
Definition derived_steps (P : platform) (cfg : config) (w : world) : res Z :=
  let? q := Py.float_truediv
              (uniform_at P (MOVEMENT_DURATION_RANGE cfg) (S (S (ticks w))))
              (uniform_at P (BEZIER_STEP_INTERVAL_RANGE cfg) (S (S (S (ticks w))))) in
  Py.int_of_float q.

(** The step interval that [human_like_mouse_move] draws when called in
    world [w]: its fourth tick. *)
Definition derived_interval (P : platform) (cfg : config) (w : world) : spec_float :=
  uniform_at P (BEZIER_STEP_INTERVAL_RANGE cfg) (S (S (S (ticks w)))).

(** The curvature factor that [human_like_mouse_move] draws when called in
    world [w]: its fifth tick. *)
Definition derived_curvature (P : platform) (cfg : config) (w : world) : spec_float :=
  uniform_at P (BEZIER_CURVATURE_RANGE cfg) (4 + ticks w).

(** What is assumed of the C library's [pow]: squares and cubes of values
    below 16 in magnitude are finite and below [2^32]. *)
Definition pow_sane (pw : spec_float -> spec_float -> spec_float) : Prop :=
  forall x n, n = 2 \/ n = 3 -> below 4 x -> below 32 (pw x (F64.of_Z n)).

(** A platform without faults and without Ctrl-C. *)
Definition undisturbed (P : platform) : Prop :=
  interrupt_at P = None /\ forall t, fault P t = false.

(** The point of the curve written at step [i] when jitter is off. *)
Definition bezier_point (P : platform) (start_x start_y : Z)
  (ctrl1_x ctrl1_y ctrl2_x ctrl2_y : spec_float) (target_x target_y : Z)
  (steps i : Z) : res (Z * Z) :=
  let? t := Py.int_truediv i steps in
  let? current_x := bezier_coord P t start_x ctrl1_x ctrl2_x target_x in
  let? current_y := bezier_coord P t start_y ctrl1_y ctrl2_y target_y in
  let? px := Py.int_of_float current_x in
  let? py := Py.int_of_float current_y in
  Ok (px, py).

(** A configuration whose curved movements last less than one step: the
    duration range is [(0.001, 0.002)], the other values are those of
    [config.py], and only the curved style is enabled. *)
Definition zero_step_config : config := {|
  USE_LINEAR_MOVEMENT := false;
  USE_BEZIER_MOVEMENT := true;
  WAIT_TIME_RANGE := (10, 60);
  MOVEMENT_DURATION_RANGE := (dec 1 1000, dec 2 1000);
  LINEAR_STEP_INTERVAL_RANGE := (dec 5 1000, dec 2 100);
  LINEAR_STEPS_RANGE := (30, 80);
  BEZIER_STEP_INTERVAL_RANGE := (dec 1 100, dec 3 100);
  BEZIER_CURVATURE_RANGE := (dec 2 10, dec 4 10);
  SCREEN_MARGIN := [50];
  ENABLE_SCREEN_SAFE_ZONE := true;
  ENABLE_JITTER := true;
  JITTER_INTENSITY := 1;
  RANDOMIZE_MOVEMENT_TYPES := true;
  MAX_CONSECUTIVE_SAME_TYPE := 3;
  ENABLE_SMALL_MOVEMENTS := true;
  SMALL_MOVEMENT_CHANCE := dec 2 10;
  SMALL_MOVEMENT_RANGE := (50, 200)
|}.

(** A configuration with jitter off and a curvature factor of 0. *)
Definition straight_config : config := {|
  USE_LINEAR_MOVEMENT := true;
  USE_BEZIER_MOVEMENT := true;
  WAIT_TIME_RANGE := (10, 60);
  MOVEMENT_DURATION_RANGE := (F64.of_Z 1, F64.of_Z 3);
  LINEAR_STEP_INTERVAL_RANGE := (dec 5 1000, dec 2 100);
  LINEAR_STEPS_RANGE := (30, 80);
  BEZIER_STEP_INTERVAL_RANGE := (dec 1 100, dec 3 100);
  BEZIER_CURVATURE_RANGE := (F64.zero, F64.zero);
  SCREEN_MARGIN := [50];
  ENABLE_SCREEN_SAFE_ZONE := true;
  ENABLE_JITTER := false;
  JITTER_INTENSITY := 1;
  RANDOMIZE_MOVEMENT_TYPES := true;
  MAX_CONSECUTIVE_SAME_TYPE := 3;
  ENABLE_SMALL_MOVEMENTS := true;
  SMALL_MOVEMENT_CHANCE := dec 2 10;
  SMALL_MOVEMENT_RANGE := (50, 200)
|}.

(** A configuration whose step intervals, 1e10 seconds, are more than
    [time.sleep] takes; jitter is off and the curvature factor is 0. *)
Definition overlong_config : config := {|
  USE_LINEAR_MOVEMENT := true;
  USE_BEZIER_MOVEMENT := true;
  WAIT_TIME_RANGE := (10, 60);
  MOVEMENT_DURATION_RANGE := (F64.of_Z (10 ^ 11), F64.of_Z (10 ^ 11));
  LINEAR_STEP_INTERVAL_RANGE := (F64.of_Z (10 ^ 10), F64.of_Z (10 ^ 10));
  LINEAR_STEPS_RANGE := (30, 80);
  BEZIER_STEP_INTERVAL_RANGE := (F64.of_Z (10 ^ 10), F64.of_Z (10 ^ 10));
  BEZIER_CURVATURE_RANGE := (F64.zero, F64.zero);
  SCREEN_MARGIN := [50];
  ENABLE_SCREEN_SAFE_ZONE := true;
  ENABLE_JITTER := false;
  JITTER_INTENSITY := 1;
  RANDOMIZE_MOVEMENT_TYPES := true;
  MAX_CONSECUTIVE_SAME_TYPE := 3;
  ENABLE_SMALL_MOVEMENTS := true;
  SMALL_MOVEMENT_CHANCE := dec 2 10;
  SMALL_MOVEMENT_RANGE := (50, 200)
|}.

(** Whether a movement style is switched on in the configuration. *)
Definition enabled (cfg : config) (t : movement_type) : bool :=
  match t with
  | linear => USE_LINEAR_MOVEMENT cfg
  | bezier => USE_BEZIER_MOVEMENT cfg
  end.

(** [k] movement styles in turn, starting with [t]. *)
Fixpoint alternating (k : nat) (t : movement_type) : list movement_type :=
  match k with
  | O => []
  | S k' => t :: alternating k' (other_type t)
  end.

(** The style that follows [last] when the styles take turns; the first
    one is linear. *)
Definition next_type (last : option movement_type) : movement_type :=
  match last with
  | None => linear
  | Some t => other_type t
  end.

(** The counters while the styles take turns: the style executed last has
    count 1, the other one 0. *)
Definition turn_inv (cc : counts) (last : option movement_type) : Prop :=
  match last with
  | None => cc = no_counts
  | Some t => count cc t = 1 /\ count cc (other_type t) = 0
  end.

(** A computation that only appends to the log, and only events that
    satisfy [Q]. *)
Definition logs (Q : event -> Prop) {A} (m : M A) : Prop :=
  forall w r w', m w = (r, w') -> exists evs, log w' = log w ++ evs /\ Forall Q evs.

(** What a trajectory generator may do when [lo] is the shortest pause it
    is allowed: write the pointer and sleep for at least [lo]. *)
Definition paused_at_least (lo : spec_float) (e : event) : Prop :=
  match e with
  | SetCursor _ _ => True
  | Sleep d => F64.leb lo d = true
  | Dispatch _ => False
  end.

(** The step count, drawn with [random.randint] from [LINEAR_STEPS_RANGE],
    that [linear_mouse_move] uses when called in world [w]: its fourth tick. *)
Definition linear_steps_at (P : platform) (cfg : config) (w : world) : Z :=
  fst (LINEAR_STEPS_RANGE cfg) +
  entropy P (3 + ticks w) mod (snd (LINEAR_STEPS_RANGE cfg) - fst (LINEAR_STEPS_RANGE cfg) + 1).

(** The step interval that [linear_mouse_move] draws when called in world
    [w]: its third tick. *)
Definition linear_interval_at (P : platform) (cfg : config) (w : world) : spec_float :=
  uniform_at P (LINEAR_STEP_INTERVAL_RANGE cfg) (2 + ticks w).

(** The largest offset the jitter adds to a coordinate. *)
Definition jitter_bound (cfg : config) : Z :=
  if ENABLE_JITTER cfg then JITTER_INTENSITY cfg else 0.

(** A delay [time.sleep] accepts: not NaN, with nanoseconds that fit in 64
    bits, and not negative. *)
Definition sleepable (d : spec_float) : bool :=
  negb (F64.is_nan d) && Py.fits_int64 (Py.nanoseconds d) &&
  negb (F64.ltb (Py.nanoseconds d) F64.zero).

(** [p] is the point of the straight path at step [i], up to the jitter. *)
Definition near_linear_point (cfg : config) (start_x start_y : Z)
  (x_increment y_increment : spec_float) (i : Z) (p : Z * Z) : Prop :=
  exists cx cy,
    linear_coord start_x x_increment i = Ok cx /\
    linear_coord start_y y_increment i = Ok cy /\
    Z.abs (fst p - cx) <= jitter_bound cfg /\
    Z.abs (snd p - cy) <= jitter_bound cfg.

(** The values of [config.py] with randomisation of the styles off. *)
Definition turns_config : config := {|
  USE_LINEAR_MOVEMENT := true;
  USE_BEZIER_MOVEMENT := true;
  WAIT_TIME_RANGE := (10, 60);
  MOVEMENT_DURATION_RANGE := (F64.of_Z 1, F64.of_Z 3);
  LINEAR_STEP_INTERVAL_RANGE := (dec 5 1000, dec 2 100);
  LINEAR_STEPS_RANGE := (30, 80);
  BEZIER_STEP_INTERVAL_RANGE := (dec 1 100, dec 3 100);
  BEZIER_CURVATURE_RANGE := (dec 2 10, dec 4 10);
  SCREEN_MARGIN := [50];
  ENABLE_SCREEN_SAFE_ZONE := true;
  ENABLE_JITTER := true;
  JITTER_INTENSITY := 1;
  RANDOMIZE_MOVEMENT_TYPES := false;
  MAX_CONSECUTIVE_SAME_TYPE := 3;
  ENABLE_SMALL_MOVEMENTS := true;
  SMALL_MOVEMENT_CHANCE := dec 2 10;
  SMALL_MOVEMENT_RANGE := (50, 200)
|}.

(** The values of [config.py] with a minimum small-movement distance of 300
    for a radius of 200. *)
Definition far_config : config := {|
  USE_LINEAR_MOVEMENT := true;
  USE_BEZIER_MOVEMENT := true;
  WAIT_TIME_RANGE := (10, 60);
  MOVEMENT_DURATION_RANGE := (F64.of_Z 1, F64.of_Z 3);
  LINEAR_STEP_INTERVAL_RANGE := (dec 5 1000, dec 2 100);
  LINEAR_STEPS_RANGE := (30, 80);
  BEZIER_STEP_INTERVAL_RANGE := (dec 1 100, dec 3 100);
  BEZIER_CURVATURE_RANGE := (dec 2 10, dec 4 10);
  SCREEN_MARGIN := [50];
  ENABLE_SCREEN_SAFE_ZONE := true;
  ENABLE_JITTER := true;
  JITTER_INTENSITY := 1;
  RANDOMIZE_MOVEMENT_TYPES := true;
  MAX_CONSECUTIVE_SAME_TYPE := 3;
  ENABLE_SMALL_MOVEMENTS := true;
  SMALL_MOVEMENT_CHANCE := dec 2 10;
  SMALL_MOVEMENT_RANGE := (300, 200)
|}.

(** The values of [config.py] with a step range of [(0, 0)] for linear
    movements. *)
Definition no_step_config : config := {|
  USE_LINEAR_MOVEMENT := true;
  USE_BEZIER_MOVEMENT := true;
  WAIT_TIME_RANGE := (10, 60);
  MOVEMENT_DURATION_RANGE := (F64.of_Z 1, F64.of_Z 3);
  LINEAR_STEP_INTERVAL_RANGE := (dec 5 1000, dec 2 100);
  LINEAR_STEPS_RANGE := (0, 0);
  BEZIER_STEP_INTERVAL_RANGE := (dec 1 100, dec 3 100);
  BEZIER_CURVATURE_RANGE := (dec 2 10, dec 4 10);
  SCREEN_MARGIN := [50];
  ENABLE_SCREEN_SAFE_ZONE := true;
  ENABLE_JITTER := true;
  JITTER_INTENSITY := 1;
  RANDOMIZE_MOVEMENT_TYPES := true;
  MAX_CONSECUTIVE_SAME_TYPE := 3;
  ENABLE_SMALL_MOVEMENTS := true;
  SMALL_MOVEMENT_CHANCE := dec 2 10;
  SMALL_MOVEMENT_RANGE := (50, 200)
|}.

(** [above k x]: [x] is finite, positive and at least [2^(k-1)]. *)
Definition above (k : Z) (x : spec_float) : Prop :=
  match x with
  | S754_finite false m e => k <= Zpos (digits2_pos m) + e
  | _ => False
  end.

(* ================================================================= *)
(** * Properties *)

(** ** Boundary calculator *)

Lemma parse_margin_sides margin l t r b :
  parse_margin margin = Ok (l, t, r, b) <-> margin_sides margin l t r b.
Proof.
  split.
  - destruct margin as [|a [|b' [|c [|d [|e tl]]]]]; cbn; intros H;
      try discriminate; inversion H; subst; constructor.
  - intros H; destruct H; reflexivity.
Qed.

Lemma parse_margin_error margin :
  (exists e, parse_margin margin = Raise e) <->
  (List.length margin <> 1 /\ List.length margin <> 2 /\ List.length margin <> 4)%nat.
Proof.
  destruct margin as [|a [|b' [|c [|d [|e tl]]]]]; cbn; split;
    solve [ intros [e0 H]; discriminate
          | intros (H1 & H2 & H4); congruence
          | intros _; repeat split; lia
          | intros _; eexists; reflexivity ].
Qed.

Lemma screen_bounds_enabled cfg w h l t r b :
  ENABLE_SCREEN_SAFE_ZONE cfg = true ->
  margin_sides (SCREEN_MARGIN cfg) l t r b ->
  screen_bounds cfg w h =
    if (w - r <=? l) || (h - b <=? t)
    then Raise (ValueError "Screen margins are too large for the screen dimensions")
    else Ok (l, t, w - r, h - b).
Proof.
  intros He Hm. apply parse_margin_sides in Hm.
  unfold screen_bounds. rewrite He, Hm. reflexivity.
Qed.

(** C4. With the safe zone enabled and margins that fit, the boundary
    calculator returns [(left, top, width - right, height - bottom)] for the
    sides given by the 1/2/4-value rule; with the safe zone disabled it
    returns [(0, 0, width, height)].  Margin [(50,)] at 1920 x 1080 gives
    [(50, 50, 1870, 1030)] and margin [(50, 100)] at 800 x 600 gives
    [(50, 100, 750, 500)]. *)
Theorem screen_bounds_correct cfg w h :
  (ENABLE_SCREEN_SAFE_ZONE cfg = false ->
     screen_bounds cfg w h = Ok (0, 0, w, h)) /\
  (forall l t r b,
     ENABLE_SCREEN_SAFE_ZONE cfg = true ->
     margin_sides (SCREEN_MARGIN cfg) l t r b ->
     l < w - r -> t < h - b ->
     screen_bounds cfg w h = Ok (l, t, w - r, h - b)) /\
  screen_bounds (with_margin default_config [50]) 1920 1080 = Ok (50, 50, 1870, 1030) /\
  screen_bounds (with_margin default_config [50; 100]) 800 600 = Ok (50, 100, 750, 500).
Proof.
  repeat split.
  - intros Hd. unfold screen_bounds. rewrite Hd. reflexivity.
  - intros l t r b He Hm Hx Hy.
    rewrite (screen_bounds_enabled cfg w h l t r b He Hm).
    destruct (w - r <=? l) eqn:E1; [apply Z.leb_le in E1; lia|].
    destruct (h - b <=? t) eqn:E2; [apply Z.leb_le in E2; lia|].
    reflexivity.
Qed.

Lemma screen_bounds_witness :
  (ENABLE_SCREEN_SAFE_ZONE default_config = true /\
   margin_sides (SCREEN_MARGIN default_config) 50 50 50 50 /\
   50 < 1920 - 50 /\ 50 < 1080 - 50) /\
  screen_bounds default_config 1920 1080 = Ok (50, 50, 1920 - 50, 1080 - 50).
Proof.
  assert (H : ENABLE_SCREEN_SAFE_ZONE default_config = true /\
              margin_sides (SCREEN_MARGIN default_config) 50 50 50 50 /\
              50 < 1920 - 50 /\ 50 < 1080 - 50)
    by (repeat split; try reflexivity; constructor).
  split; [exact H|].
  destruct H as (He & Hm & Hx & Hy).
  exact (proj1 (proj2 (screen_bounds_correct default_config 1920 1080))
               50 50 50 50 He Hm Hx Hy).
Defined.

Lemma parse_margin_total margin :
  (exists l t r b, parse_margin margin = Ok (l, t, r, b)) \/
  parse_margin margin = Raise (ValueError "SCREEN_MARGIN must have 1, 2, or 4 values").
Proof.
  destruct margin as [|a [|b' [|c [|d [|e tl]]]]]; cbn; eauto 6.
Qed.

(** When the boundary calculator raises, [main] ends without any event:
    the exception leaves the [try] body before the loop is entered. *)
Lemma main_bounds_error P cfg n e :
  screen_bounds cfg (fst (screen P)) (snd (screen P)) = Raise e ->
  exists code w, main P cfg n = (Exited code, w) /\ log w = [].
Proof.
  intros H. unfold main.
  destruct (deps_ok P); cbn [negb]; [|eauto].
  unfold main_try, get_screen_bounds, MouseController,
    controller_get_screen_dimensions, platform_call, tick, bind, lift.
  cbn [ticks log boot].
  destruct (interrupted P 0); [eauto|].
  destruct (fault P 0); [eauto|]. cbn [ticks log].
  destruct (interrupted P 1); [eauto|].
  destruct (fault P 1); [eauto|].
  destruct (screen P) as [sw sh]; cbn [fst snd] in H. rewrite H.
  destruct e; eauto.
Qed.

(** C5. With the safe zone enabled the boundary calculator raises exactly
    when the margin tuple has not 1, 2 or 4 values, or when the derived
    bounds violate [min_x < max_x] or [min_y < max_y] (margin [(900,)] on an
    800-pixel-wide screen); either failure ends [main] at startup, before
    any cursor movement. *)
Theorem screen_bounds_raises cfg w h :
  ENABLE_SCREEN_SAFE_ZONE cfg = true ->
  ((exists e, screen_bounds cfg w h = Raise e) <->
     ((List.length (SCREEN_MARGIN cfg) <> 1 /\
       List.length (SCREEN_MARGIN cfg) <> 2 /\
       List.length (SCREEN_MARGIN cfg) <> 4)%nat \/
      exists l t r b, margin_sides (SCREEN_MARGIN cfg) l t r b /\
                      ~ (l < w - r /\ t < h - b))) /\
  ((List.length (SCREEN_MARGIN cfg) <> 1 /\
    List.length (SCREEN_MARGIN cfg) <> 2 /\
    List.length (SCREEN_MARGIN cfg) <> 4)%nat ->
   screen_bounds cfg w h =
     Raise (ValueError "SCREEN_MARGIN must have 1, 2, or 4 values")) /\
  (forall l t r b,
     margin_sides (SCREEN_MARGIN cfg) l t r b -> ~ (l < w - r /\ t < h - b) ->
     screen_bounds cfg w h =
       Raise (ValueError "Screen margins are too large for the screen dimensions")) /\
  screen_bounds (with_margin cfg [900]) 800 h =
    Raise (ValueError "Screen margins are too large for the screen dimensions") /\
  (forall P n e,
     screen P = (w, h) -> screen_bounds cfg w h = Raise e ->
     exists code wd, main P cfg n = (Exited code, wd) /\ cursor_writes (log wd) = []).
Proof.
  intros He.
  assert (Hbad : forall l t r b,
     margin_sides (SCREEN_MARGIN cfg) l t r b -> ~ (l < w - r /\ t < h - b) ->
     screen_bounds cfg w h =
       Raise (ValueError "Screen margins are too large for the screen dimensions")).
  { intros l t r b Hm Hn. rewrite (screen_bounds_enabled cfg w h l t r b He Hm).
    destruct (w - r <=? l) eqn:E1; [reflexivity|].
    destruct (h - b <=? t) eqn:E2; [reflexivity|].
    apply Z.leb_gt in E1, E2. exfalso; apply Hn; lia. }
  assert (Harity : (List.length (SCREEN_MARGIN cfg) <> 1 /\
                    List.length (SCREEN_MARGIN cfg) <> 2 /\
                    List.length (SCREEN_MARGIN cfg) <> 4)%nat ->
     screen_bounds cfg w h =
       Raise (ValueError "SCREEN_MARGIN must have 1, 2, or 4 values")).
  { intros Hl. unfold screen_bounds. rewrite He. cbn [negb].
    destruct (parse_margin_total (SCREEN_MARGIN cfg)) as [(l & t & r & b & Hp)|Hp].
    - exfalso. apply parse_margin_sides in Hp.
      destruct Hp; cbn in Hl; lia.
    - rewrite Hp. reflexivity. }
  split; [|split; [exact Harity|split; [exact Hbad|split]]].
  - split.
    + intros [e Hr].
      destruct (parse_margin_total (SCREEN_MARGIN cfg)) as [(l & t & r & b & Hp)|Hp].
      * right. exists l, t, r, b. apply parse_margin_sides in Hp. split; [exact Hp|].
        intros [Hx Hy].
        rewrite (screen_bounds_enabled cfg w h l t r b He Hp) in Hr.
        destruct (w - r <=? l) eqn:E1; [apply Z.leb_le in E1; lia|].
        destruct (h - b <=? t) eqn:E2; [apply Z.leb_le in E2; lia|].
        discriminate.
      * left. apply parse_margin_error. eauto.
    + intros [Hl|(l & t & r & b & Hm & Hn)]; eauto.
  - unfold screen_bounds, with_margin; cbn. rewrite He; cbn.
    destruct (h - 900 <=? 900); reflexivity.
  - intros P n e HP Hr.
    destruct (main_bounds_error P cfg n e) as (code & wd & Hmain & Hlog).
    { rewrite HP. exact Hr. }
    exists code, wd. rewrite Hlog. auto.
Qed.

Lemma screen_bounds_raises_witness :
  ENABLE_SCREEN_SAFE_ZONE (with_margin default_config [900]) = true /\
  screen_bounds (with_margin default_config [900]) 800 600 =
    Raise (ValueError "Screen margins are too large for the screen dimensions").
Proof.
  split; [reflexivity|].
  exact (proj1 (proj2 (proj2 (proj2
    (screen_bounds_raises (with_margin default_config [900]) 800 600 eq_refl))))).
Defined.

(** ** Movement type selector *)

Lemma movement_type_eqb_eq a b : movement_type_eqb a b = true <-> a = b.
Proof. destruct a, b; cbn; split; congruence. Qed.

Lemma other_type_neq t : other_type t <> t.
Proof. destruct t; cbn; congruence. Qed.

Lemma count_set_same cc t v : count (set_count cc t v) t = v.
Proof. destruct t; reflexivity. Qed.

Lemma count_set_other cc t v : count (set_count cc t v) (other_type t) = count cc (other_type t).
Proof. destruct t; reflexivity. Qed.

Lemma count_set_set_other cc t v u :
  count (set_count (set_count cc t v) (other_type t) u) t = v /\
  count (set_count (set_count cc t v) (other_type t) u) (other_type t) = u.
Proof. destruct t; split; reflexivity. Qed.

(** One update keeps the invariant, whatever the configuration and
    whatever was chosen. *)
Lemma update_keeps_inv cfg chosen cc last executed cc' :
  selector_inv cc last ->
  update_consecutive_count cfg chosen cc last = (executed, cc') ->
  1 <= count cc' executed /\ count cc' (other_type executed) = 0.
Proof.
  unfold update_consecutive_count, selector_inv, same_as_last.
  intros Hinv Hup.
  destruct last as [l|].
  - destruct Hinv as [H1 H0].
    destruct chosen, l; cbn in *;
      repeat match type of Hup with
             | context [if ?b then _ else _] => destruct b eqn:?
             end; cbn in *;
      inversion Hup; subst; cbn; lia.
  - subst cc.
    destruct chosen; cbn in *;
      repeat match type of Hup with
             | context [if ?b then _ else _] => destruct b eqn:?
             end; cbn in *;
      inversion Hup; subst; cbn; lia.
Qed.

(** With both styles enabled and a cap of at least 1, one update keeps the
    count of the executed style within the cap; the executed style equals
    the previous one only when its count grew by one. *)
Lemma update_within_cap cfg chosen cc last executed cc' :
  USE_LINEAR_MOVEMENT cfg = true -> USE_BEZIER_MOVEMENT cfg = true ->
  1 <= MAX_CONSECUTIVE_SAME_TYPE cfg ->
  selector_inv cc last ->
  update_consecutive_count cfg chosen cc last = (executed, cc') ->
  count cc' executed <= MAX_CONSECUTIVE_SAME_TYPE cfg /\
  (last = Some executed -> count cc' executed = count cc executed + 1).
Proof.
  unfold update_consecutive_count, selector_inv, same_as_last.
  intros HL HB Hmax Hinv Hup. rewrite HL, HB in Hup.
  destruct last as [l|].
  - destruct Hinv as [H1 H0].
    destruct chosen, l; cbn in *;
      repeat match type of Hup with
             | context [if ?b then _ else _] => destruct b eqn:?
             end; cbn in *;
      inversion Hup; subst; cbn;
      repeat match goal with
             | H : (_ <? _) = true |- _ => apply Z.ltb_lt in H
             | H : (_ <? _) = false |- _ => apply Z.ltb_ge in H
             end;
      (split; [lia | intros; try congruence; try lia]).
  - subst cc.
    destruct chosen; cbn in *;
      repeat match type of Hup with
             | context [if ?b then _ else _] => destruct b eqn:?
             end; cbn in *;
      inversion Hup; subst; cbn;
      repeat match goal with
             | H : (_ <? _) = true |- _ => apply Z.ltb_lt in H
             | H : (_ <? _) = false |- _ => apply Z.ltb_ge in H
             end;
      (split; [lia | intros; congruence]).
Qed.

(** Every entry of a selector run satisfies the invariant. *)
Lemma selector_run_inv cfg chosen : forall cc last,
  selector_inv cc last ->
  Forall (fun '(executed, cc') =>
            1 <= count cc' executed /\ count cc' (other_type executed) = 0)
         (selector_run cfg chosen cc last).
Proof.
  induction chosen as [|c rest IH]; intros cc last Hinv; cbn; [constructor|].
  destruct (update_consecutive_count cfg c cc last) as [ex cc'] eqn:E.
  pose proof (update_keeps_inv cfg c cc last ex cc' Hinv E) as H.
  constructor; [exact H|]. apply IH. exact H.
Qed.

Lemma selector_run_cap cfg chosen : forall cc last,
  USE_LINEAR_MOVEMENT cfg = true -> USE_BEZIER_MOVEMENT cfg = true ->
  1 <= MAX_CONSECUTIVE_SAME_TYPE cfg ->
  selector_inv cc last ->
  (forall l, last = Some l -> count cc l <= MAX_CONSECUTIVE_SAME_TYPE cfg) ->
  Forall (fun '(executed, cc') => count cc' executed <= MAX_CONSECUTIVE_SAME_TYPE cfg)
         (selector_run cfg chosen cc last) /\
  Z.of_nat (longest_run (map fst (selector_run cfg chosen cc last)))
    <= MAX_CONSECUTIVE_SAME_TYPE cfg /\
  (forall l, last = Some l ->
     Z.of_nat (leading l (map fst (selector_run cfg chosen cc last))) + count cc l
       <= MAX_CONSECUTIVE_SAME_TYPE cfg).
Proof.
  induction chosen as [|c rest IH]; intros cc last HL HB Hmax Hinv Hcap; cbn.
  - repeat split; [constructor | lia | intros l Hl; cbn; now apply Hcap].
  - destruct (update_consecutive_count cfg c cc last) as [ex cc'] eqn:E.
    pose proof (update_keeps_inv cfg c cc last ex cc' Hinv E) as Hk.
    pose proof (update_within_cap cfg c cc last ex cc' HL HB Hmax Hinv E) as [Hc Hs].
    destruct (IH cc' (Some ex) HL HB Hmax Hk) as (IH1 & IH2 & IH3).
    { intros l Hl. inversion Hl; subst. exact Hc. }
    specialize (IH3 ex eq_refl).
    cbn [map fst longest_run leading].
    repeat split.
    + constructor; assumption.
    + lia.
    + intros l Hl. destruct (movement_type_eqb ex l) eqn:El.
      * apply movement_type_eqb_eq in El. subst l.
        rewrite (Hs Hl) in IH3. lia.
      * cbn. now apply Hcap.
Qed.

Lemma leading_repeat t k post : (k <= leading t (repeat t k ++ post))%nat.
Proof.
  induction k as [|k IH]; cbn; [lia|].
  replace (movement_type_eqb t t) with true
    by (symmetry; now apply movement_type_eqb_eq).
  lia.
Qed.

(** [longest_run] bounds every block of equal consecutive elements. *)
Lemma longest_run_block l : forall pre t k post,
  l = pre ++ repeat t k ++ post -> (k <= longest_run l)%nat.
Proof.
  intros pre. revert l.
  induction pre as [|x pre IH]; intros l t k post ->.
  - destruct k as [|k]; [lia|]. cbn [repeat app longest_run].
    pose proof (leading_repeat t k post). lia.
  - cbn [app longest_run]. specialize (IH _ t k post eq_refl). lia.
Qed.

(** *** The selector inside the runner *)

Lemma dispatched_app l1 l2 : dispatched (l1 ++ l2) = dispatched l1 ++ dispatched l2.
Proof. unfold dispatched. apply flat_map_app. Qed.

Lemma undispatching_ret {A} (a : A) : undispatching (ret a).
Proof. intros w. reflexivity. Qed.

Lemma undispatching_raise {A} e : undispatching (@raise A e).
Proof. intros w. reflexivity. Qed.

Lemma undispatching_pending {A} : undispatching (@pending A).
Proof. intros w. reflexivity. Qed.

Lemma undispatching_lift {A} (r : res A) : undispatching (lift r).
Proof. intros w. reflexivity. Qed.

Lemma undispatching_bind {A B} (m : M A) (k : A -> M B) :
  undispatching m -> (forall a, undispatching (k a)) -> undispatching (bind m k).
Proof.
  intros Hm Hk w. unfold bind. specialize (Hm w).
  destruct (m w) as [[a|e|] w1]; cbn in *; [|assumption|assumption].
  rewrite Hk. assumption.
Qed.

Lemma undispatching_tick P {A} (f : nat -> res A) : undispatching (tick P f).
Proof. intros w. unfold tick. destruct (interrupted P (ticks w)); reflexivity. Qed.

Lemma undispatching_set_cursor x y : undispatching (emit (SetCursor x y)).
Proof. intros w. cbn. rewrite dispatched_app. cbn. apply app_nil_r. Qed.

Lemma undispatching_emit_sleep d : undispatching (emit (Sleep d)).
Proof. intros w. cbn. rewrite dispatched_app. cbn. apply app_nil_r. Qed.

Lemma undispatching_for_each {A} (xs : list A) (body : A -> M unit) :
  (forall x, undispatching (body x)) -> undispatching (for_each xs body).
Proof.
  intros Hb. induction xs as [|x xs IH]; cbn.
  - apply undispatching_ret.
  - apply undispatching_bind; auto.
Qed.

Create HintDb undispatch.
#[local] Hint Resolve undispatching_ret undispatching_raise undispatching_pending
  undispatching_lift undispatching_tick undispatching_set_cursor
  undispatching_emit_sleep : undispatch.

(** Walks through a computation built from the primitives above. *)
Ltac undispatch :=
  repeat first
    [ progress auto with undispatch
    | apply undispatching_bind
    | apply undispatching_for_each
    | match goal with
      | |- undispatching (if ?b then _ else _) => destruct b
      | |- undispatching (match ?x with _ => _ end) => destruct x
      | |- forall _ : _ * _, _ => intros [? ?]
      | |- forall _, _ => intro
      end ].

Lemma undispatching_randint P a b : undispatching (randint P a b).
Proof. unfold randint. undispatch. Qed.

Lemma undispatching_uniform P a b : undispatching (uniform P a b).
Proof. unfold uniform, random. undispatch. Qed.

Lemma undispatching_sleep P d : undispatching (sleep P d).
Proof. unfold sleep. undispatch. Qed.

Lemma undispatching_sleep_int P n : undispatching (sleep_int P n).
Proof. unfold sleep_int. undispatch. Qed.

Lemma undispatching_platform_call P {A} (f : nat -> A) : undispatching (platform_call P f).
Proof. unfold platform_call. undispatch. Qed.

#[local] Hint Resolve undispatching_randint undispatching_uniform undispatching_sleep
  undispatching_sleep_int undispatching_platform_call : undispatch.

Lemma undispatching_get_next_position P max_x max_y min_x min_y :
  undispatching (get_next_position P max_x max_y min_x min_y).
Proof. unfold get_next_position. undispatch. Qed.

#[local] Hint Resolve undispatching_get_next_position : undispatch.

Lemma undispatching_small_movement_loop P cfg n cx cy a b c d :
  undispatching (small_movement_loop P cfg n cx cy a b c d).
Proof. induction n as [|n IH]; cbn [small_movement_loop]; undispatch. Qed.

#[local] Hint Resolve undispatching_small_movement_loop : undispatch.

Lemma undispatching_get_small_movement_position P cfg n cx cy :
  undispatching (get_small_movement_position P cfg n cx cy).
Proof.
  unfold get_small_movement_position, MouseController, controller_get_screen_dimensions.
  undispatch.
Qed.

Lemma undispatching_jitter P cfg : undispatching (jitter P cfg).
Proof. unfold jitter. undispatch. Qed.

#[local] Hint Resolve undispatching_get_small_movement_position undispatching_jitter
  : undispatch.

Lemma undispatching_linear_mouse_move P cfg tx ty :
  undispatching (linear_mouse_move P cfg tx ty).
Proof.
  unfold linear_mouse_move, linear_step, set_cursor_pos, MouseController, get_cursor_pos.
  undispatch.
Qed.

Lemma undispatching_human_like_mouse_move P cfg tx ty :
  undispatching (human_like_mouse_move P cfg tx ty).
Proof.
  unfold human_like_mouse_move, bezier_step, control_point, set_cursor_pos,
    MouseController, get_cursor_pos.
  undispatch.
Qed.

Lemma undispatching_choose_movement_type P cfg cc :
  undispatching (choose_movement_type P cfg cc).
Proof. unfold choose_movement_type, choice. undispatch. Qed.

#[local] Hint Resolve undispatching_linear_mouse_move undispatching_human_like_mouse_move
  undispatching_choose_movement_type : undispatch.

Lemma undispatching_run {A} (m : M A) w r w' :
  undispatching m -> m w = (r, w') -> dispatched (log w') = dispatched (log w).
Proof. intros H E. specialize (H w). rewrite E in H. exact H. Qed.

(** Runs the first computation of a sequence from world [w0]: names its
    result [r0], the world after it [w1], and records that the dispatched
    list did not change. *)
Ltac run_first w0 r0 w1 E D tac :=
  unfold bind at 1;
  match goal with
  | |- context [match ?m w0 with _ => _ end] =>
    let HU := fresh "HU" in
    assert (HU : undispatching m) by tac;
    destruct (m w0) as [r0 w1] eqn:E;
    pose proof (undispatching_run m _ _ _ HU E) as D; clear HU
  end.

(** One iteration either stops before a generator is called, or calls the
    one settled by [update_consecutive_count]; when it completes, the state
    carries the counters of that update. *)
Lemma iteration_dispatch P cfg n bounds st w r w' :
  iteration P cfg n bounds st w = (r, w') ->
  (dispatched (log w') = dispatched (log w) /\ forall st', r <> Ok st') \/
  exists chosen executed cc',
    update_consecutive_count cfg chosen (consecutive_count st) (last_movement_type st)
      = (executed, cc') /\
    dispatched (log w') = dispatched (log w) ++ [executed] /\
    forall st', r = Ok st' ->
      consecutive_count st' = cc' /\ last_movement_type st' = Some executed.
Proof.
  unfold iteration. destruct bounds as [[[min_x min_y] max_x] max_y].
  run_first w r1 w1 E1 D1 ltac:(unfold get_cursor_pos; undispatch).
  destruct r1 as [[cx cy]|e|];
    [|intros H; inversion H; subst; left; split; [assumption|congruence]..].
  run_first w1 r2 w2 E2 D2 ltac:(unfold random; undispatch).
  destruct r2 as [small|e|];
    [|intros H; inversion H; subst; left; split; [congruence|congruence]..].
  run_first w2 r3 w3 E3 D3 ltac:(undispatch).
  destruct r3 as [[tx ty]|e|];
    [|intros H; inversion H; subst; left; split; [congruence|congruence]..].
  run_first w3 r4 w4 E4 D4 ltac:(undispatch).
  destruct r4 as [chosen|e|];
    [|intros H; inversion H; subst; left; split; [congruence|congruence]..].
  destruct (update_consecutive_count cfg chosen (consecutive_count st) (last_movement_type st))
    as [executed cc'] eqn:EU.
  match goal with |- ?run = _ -> _ =>
    enough (Hrest : run = (r, w') ->
              dispatched (log w') = dispatched (log w) ++ [executed] /\
              forall st', r = Ok st' ->
                consecutive_count st' = cc' /\ last_movement_type st' = Some executed)
      by (intros H; right; exists chosen, executed, cc'; split; [exact EU|exact (Hrest H)])
  end.
  unfold bind at 1. cbn [emit].
  set (w5 := {| ticks := ticks w4; log := log w4 ++ [Dispatch executed] |}).
  assert (D5 : dispatched (log w5) = dispatched (log w) ++ [executed]).
  { subst w5. cbn [log]. rewrite dispatched_app. cbn. congruence. }
  clearbody w5.
  run_first w5 r6 w6 E6 D6 ltac:(undispatch).
  destruct r6 as [[]|e|];
    [|intros H; inversion H; subst; split; [congruence|congruence]..].
  run_first w6 r7 w7 E7 D7 ltac:(undispatch).
  destruct r7 as [wait|e|];
    [|intros H; inversion H; subst; split; [congruence|congruence]..].
  run_first w7 r8 w8 E8 D8 ltac:(undispatch).
  destruct r8 as [[]|e|];
    [|intros H; inversion H; subst; split; [congruence|congruence]..].
  cbn [ret]. intros H. inversion H; subst. split; [congruence|].
  intros st' Hst. inversion Hst; subst. cbn. auto.
Qed.

(** The generators called during any run of the loop are those of a
    selector run. *)
Lemma run_loop_dispatched P cfg n bounds : forall fuel st w,
  exists chosen,
    dispatched (log (snd (run_loop P cfg n fuel bounds st w))) =
    dispatched (log w) ++
    map fst (selector_run cfg chosen (consecutive_count st) (last_movement_type st)).
Proof.
  induction fuel as [|fuel IH]; intros st w; cbn [run_loop].
  - exists []. cbn. now rewrite app_nil_r.
  - unfold bind.
    destruct (iteration P cfg n bounds st w) as [r w1] eqn:E.
    destruct (iteration_dispatch _ _ _ _ _ _ _ _ E)
      as [[D Hr]|(chosen & ex & cc' & EU & D & Hst)].
    + destruct r as [st'|e|]; [now destruct (Hr st')|..];
        exists []; cbn; now rewrite app_nil_r.
    + destruct r as [st'|e|].
      * destruct (Hst st' eq_refl) as [Hc Hl].
        destruct (IH st' w1) as [rest IHr].
        exists (chosen :: rest). rewrite IHr, D, Hc, Hl. cbn [selector_run].
        rewrite EU. cbn [map fst]. now rewrite <- app_assoc.
      * exists [chosen]. cbn [selector_run snd]. rewrite EU, D. reflexivity.
      * exists [chosen]. cbn [selector_run snd]. rewrite EU, D. reflexivity.
Qed.

Lemma main_dispatched P cfg n :
  exists chosen,
    dispatched (log (snd (main P cfg n))) =
    map fst (selector_run cfg chosen no_counts None).
Proof.
  unfold main. destruct (deps_ok P); cbn [negb]; [|exists []; reflexivity].
  unfold main_try.
  run_first boot r1 w1 E1 D1
    ltac:(unfold get_screen_bounds, MouseController, controller_get_screen_dimensions;
          undispatch).
  destruct r1 as [bounds|e|];
    [|exists []; destruct e; exact D1|exists []; exact D1].
  run_first w1 r2 w2 E2 D2
    ltac:(unfold get_screen_dimensions, MouseController, controller_get_screen_dimensions;
          undispatch).
  destruct r2 as [dims|e|];
    [|exists []; destruct e; cbn in *; congruence|exists []; cbn in *; congruence].
  run_first w2 r3 w3 E3 D3 ltac:(unfold MouseController; undispatch).
  destruct r3 as [[]|e|];
    [|exists []; destruct e; cbn in *; congruence|exists []; cbn in *; congruence].
  destruct (run_loop_dispatched P cfg n bounds n initial_state w3) as [chosen H].
  exists chosen.
  destruct (run_loop P cfg n n bounds initial_state w3) as [[v|e|] w4] eqn:E4;
    [destruct v|..]; cbn [snd] in *.
  - destruct e; cbn [snd]; rewrite H; cbn in *; rewrite D3, D2, D1; reflexivity.
  - rewrite H; cbn in *; rewrite D3, D2, D1; reflexivity.
Qed.

Lemma loop_reaches_inv P cfg n bounds st w :
  loop_reaches P cfg n bounds st w ->
  selector_inv (consecutive_count st) (last_movement_type st).
Proof.
  induction 1 as [w|st w st' w' Hr IH Hit]; [reflexivity|].
  destruct (iteration_dispatch _ _ _ _ _ _ _ _ Hit)
    as [[_ Hno]|(chosen & ex & cc' & EU & _ & Hst)]; [now destruct (Hno st')|].
  destruct (Hst st' eq_refl) as [-> ->].
  exact (update_keeps_inv _ _ _ _ _ _ IH EU).
Qed.

Lemma loop_reaches_cap P cfg n bounds st w :
  USE_LINEAR_MOVEMENT cfg = true -> USE_BEZIER_MOVEMENT cfg = true ->
  1 <= MAX_CONSECUTIVE_SAME_TYPE cfg ->
  loop_reaches P cfg n bounds st w ->
  forall l, last_movement_type st = Some l ->
            count (consecutive_count st) l <= MAX_CONSECUTIVE_SAME_TYPE cfg.
Proof.
  intros HL HB Hmax. induction 1 as [w|st w st' w' Hr IH Hit]; [discriminate|].
  intros l Hl.
  destruct (iteration_dispatch _ _ _ _ _ _ _ _ Hit)
    as [[_ Hno]|(chosen & ex & cc' & EU & _ & Hst)]; [now destruct (Hno st')|].
  destruct (Hst st' eq_refl) as [Hc Hlast]. rewrite Hlast in Hl. inversion Hl; subst l.
  rewrite Hc.
  exact (proj1 (update_within_cap _ _ _ _ _ _ HL HB Hmax
                  (loop_reaches_inv _ _ _ _ _ _ Hr) EU)).
Qed.

(** C9. After every counter update (overflow correction included, one or
    two styles enabled) the counter of the movement type just executed is
    at least 1 and the counter of the other type is 0: along every selector
    run, and in every state left by an iteration of the loop of [main]. *)
Theorem counters_exclusive cfg :
  (forall chosen,
     Forall (fun '(executed, cc) =>
               1 <= count cc executed /\ count cc (other_type executed) = 0)
            (selector_run cfg chosen no_counts None)) /\
  (forall P n bounds st w st' w',
     loop_reaches P cfg n bounds st w ->
     iteration P cfg n bounds st w = (Ok st', w') ->
     exists executed,
       last_movement_type st' = Some executed /\
       1 <= count (consecutive_count st') executed /\
       count (consecutive_count st') (other_type executed) = 0).
Proof.
  split.
  - intros chosen. apply selector_run_inv. reflexivity.
  - intros P n bounds st w st' w' Hr Hit.
    pose proof (loop_reaches_inv _ _ _ _ _ _ (reaches_next _ _ _ _ _ _ _ _ Hr Hit)) as Hinv.
    destruct (iteration_dispatch _ _ _ _ _ _ _ _ Hit)
      as [[_ Hno]|(chosen & ex & cc' & EU & _ & Hst)]; [now destruct (Hno st')|].
    destruct (Hst st' eq_refl) as [Hc Hlast].
    exists ex. split; [exact Hlast|]. rewrite Hlast in Hinv. exact Hinv.
Qed.

(** C1. With both styles enabled and a cap [MAX_CONSECUTIVE_SAME_TYPE] of
    at least 1: after each counter update and overflow correction the
    counter of the executed style is at most the cap, and no style is
    executed more than cap times in a row, along every selector run and in
    every run of [main]. *)
Theorem max_consecutive_respected cfg :
  USE_LINEAR_MOVEMENT cfg = true -> USE_BEZIER_MOVEMENT cfg = true ->
  1 <= MAX_CONSECUTIVE_SAME_TYPE cfg ->
  (forall chosen,
     Forall (fun '(executed, cc) => count cc executed <= MAX_CONSECUTIVE_SAME_TYPE cfg)
            (selector_run cfg chosen no_counts None)) /\
  (forall chosen pre t k post,
     map fst (selector_run cfg chosen no_counts None) = pre ++ repeat t k ++ post ->
     Z.of_nat k <= MAX_CONSECUTIVE_SAME_TYPE cfg) /\
  (forall P n bounds st w l,
     loop_reaches P cfg n bounds st w ->
     last_movement_type st = Some l ->
     count (consecutive_count st) l <= MAX_CONSECUTIVE_SAME_TYPE cfg) /\
  (forall P n pre t k post,
     dispatched (log (snd (main P cfg n))) = pre ++ repeat t k ++ post ->
     Z.of_nat k <= MAX_CONSECUTIVE_SAME_TYPE cfg).
Proof.
  intros HL HB Hmax.
  assert (Hrun : forall chosen pre t k post,
     map fst (selector_run cfg chosen no_counts None) = pre ++ repeat t k ++ post ->
     Z.of_nat k <= MAX_CONSECUTIVE_SAME_TYPE cfg).
  { intros chosen pre t k post Heq.
    destruct (selector_run_cap cfg chosen no_counts None HL HB Hmax eq_refl)
      as (_ & Hlong & _); [discriminate|].
    pose proof (longest_run_block _ _ _ _ _ Heq). lia. }
  repeat split.
  - intros chosen.
    destruct (selector_run_cap cfg chosen no_counts None HL HB Hmax eq_refl)
      as (H & _ & _); [discriminate|exact H].
  - exact Hrun.
  - intros P n bounds st w l Hr Hl. exact (loop_reaches_cap _ _ _ _ _ _ HL HB Hmax Hr l Hl).
  - intros P n pre t k post Heq.
    destruct (main_dispatched P cfg n) as [chosen Hd].
    rewrite Hd in Heq. exact (Hrun _ _ _ _ _ Heq).
Qed.

Lemma max_consecutive_respected_witness :
  (USE_LINEAR_MOVEMENT default_config = true /\
   USE_BEZIER_MOVEMENT default_config = true /\
   1 <= MAX_CONSECUTIVE_SAME_TYPE default_config) /\
  Forall (fun '(executed, cc) => count cc executed <= 3)
         (selector_run default_config [linear; linear; linear; linear; linear; bezier]
                       no_counts None).
Proof.
  split; [repeat split; cbn; lia|].
  exact (proj1 (max_consecutive_respected default_config eq_refl eq_refl
                  ltac:(cbn; lia))
               [linear; linear; linear; linear; linear; bezier]).
Defined.

Lemma counters_exclusive_witness :
  exists st' w',
    iteration (quiet_platform (400, 300) (fun _ => 2 ^ 52)) default_config 1
              (50, 50, 750, 550) initial_state boot = (Ok st', w') /\
    exists executed,
      last_movement_type st' = Some executed /\
      1 <= count (consecutive_count st') executed /\
      count (consecutive_count st') (other_type executed) = 0.
Proof.
  eexists. eexists.
  match goal with
  | |- ?run = (Ok ?st, ?w) /\ _ =>
    let v := eval vm_compute in run in
    match v with
    | (Ok ?s, ?w1) =>
      unify st s; unify w w1;
      assert (E : run = (Ok s, w1)) by (vm_compute; reflexivity)
    end
  end.
  split; [exact E|].
  exact (proj2 (counters_exclusive default_config) _ _ _ _ _ _ _
               (reaches_start _ _ _ _ boot) E).
Defined.

(** ** Position sampler and safe zone *)

(** C10. With the safe zone enabled, a small movement can target a point
    outside the safe rectangle: on an 800 x 600 screen with margin 50 and
    the pointer at (10, 300), inside the left margin band, the sampling
    window is [0, 210] x [100, 500] and the draw (0, 100) is accepted. *)
Theorem small_movement_leaves_safe_zone :
  exists P cfg current_x current_y target bounds w',
    ENABLE_SCREEN_SAFE_ZONE cfg = true /\
    screen_bounds cfg (fst (screen P)) (snd (screen P)) = Ok bounds /\
    get_small_movement_position P cfg 1 current_x current_y boot = (Ok target, w') /\
    ~ in_rect bounds target.
Proof.
  exists (quiet_platform (10, 300) (fun _ => 0)), default_config, 10, 300,
    (0, 100), (50, 50, 750, 550).
  eexists. split; [reflexivity|]. split; [reflexivity|].
  split; [vm_compute; reflexivity|].
  cbn. lia.
Qed.

(** ** Linear generator *)

(** C2 (the code misses the claim).  Jitter disabled, pointer at
    (400, 300), target (50, 300), 77 steps drawn: the generator writes 77
    points, sleeps the same interval after each, and its last point is
    (49, 300), one pixel short of the target; [(50 - 400) / 77 * 77] is not
    [-350] in binary64 and [int()] rounds toward zero. *)
Theorem linear_mouse_move_misses_target :
  let P := quiet_platform (400, 300) (fun _ => 47) in
  let cfg := with_jitter default_config false in
  exists w',
    linear_mouse_move P cfg 50 300 boot = (Ok tt, w') /\
    List.length (cursor_writes (log w')) = 77%nat /\
    (exists d, sleeps (log w') = repeat d 77) /\
    last (cursor_writes (log w')) (0, 0) = (49, 300) /\
    last (cursor_writes (log w')) (0, 0) <> (50, 300).
Proof.
  cbv zeta. eexists. split; [vm_compute; reflexivity|].
  cbn [log]. split; [vm_compute; reflexivity|].
  split; [eexists; vm_compute; reflexivity|].
  split; [vm_compute; reflexivity|].
  vm_compute. discriminate.
Qed.

(** ** Runner: interrupts, errors and the exit code *)

(** *** Computations without effects never run out of fuel *)

Lemma rbind_not_pending {A B} (r : res A) (k : A -> res B) :
  r <> Pending -> (forall a, k a <> Pending) -> rbind r k <> Pending.
Proof. destruct r; cbn; intros H1 H2; [apply H2|discriminate|congruence]. Qed.

Lemma float_of_int_not_pending n : Py.float_of_int n <> Pending.
Proof. unfold Py.float_of_int. destruct (F64.is_finite _); discriminate. Qed.

Lemma int_truediv_not_pending a b : Py.int_truediv a b <> Pending.
Proof.
  unfold Py.int_truediv. destruct (b =? 0); [discriminate|].
  destruct (F64.is_finite _); discriminate.
Qed.

Lemma float_truediv_not_pending x y : Py.float_truediv x y <> Pending.
Proof. unfold Py.float_truediv. destruct (F64.is_zero y); discriminate. Qed.

Lemma int_of_float_not_pending x : Py.int_of_float x <> Pending.
Proof.
  unfold Py.int_of_float. destruct (F64.trunc x); [discriminate|].
  destruct (F64.is_nan x); discriminate.
Qed.

Lemma math_sqrt_not_pending n : Py.math_sqrt n <> Pending.
Proof.
  unfold Py.math_sqrt. pose proof (float_of_int_not_pending n).
  destruct (Py.float_of_int n); [|discriminate|congruence].
  destruct (F64.sign a); discriminate.
Qed.

Lemma float_pow_not_pending f x n : Py.float_pow f x n <> Pending.
Proof.
  unfold Py.float_pow. destruct x; try discriminate.
  destruct (F64.eqb _ _); [discriminate|].
  destruct (F64.is_finite _); discriminate.
Qed.

Lemma screen_bounds_not_pending cfg w h : screen_bounds cfg w h <> Pending.
Proof.
  unfold screen_bounds. destruct (negb _); [discriminate|].
  apply rbind_not_pending.
  - destruct (parse_margin_total (SCREEN_MARGIN cfg)) as [(l & t & r & b & ->)| ->];
      discriminate.
  - intros [[[l t] r] b]. destruct (_ || _); discriminate.
Qed.

Lemma linear_coord_not_pending start inc step : linear_coord start inc step <> Pending.
Proof.
  unfold linear_coord.
  repeat (apply rbind_not_pending; [apply float_of_int_not_pending|intros ?]).
  apply int_of_float_not_pending.
Qed.

Lemma bezier_coord_not_pending P t start c1 c2 target :
  bezier_coord P t start c1 c2 target <> Pending.
Proof.
  unfold bezier_coord.
  repeat (apply rbind_not_pending;
          [first [apply float_of_int_not_pending | apply float_pow_not_pending]|intros ?]).
  discriminate.
Qed.

Lemma add_jitter_not_pending cfg x j : add_jitter cfg x j <> Pending.
Proof.
  unfold add_jitter. destruct (ENABLE_JITTER cfg); [|discriminate].
  apply rbind_not_pending; [apply float_of_int_not_pending|discriminate].
Qed.

(** *** The clock *)

Lemma paced_ret k n {A} (a : A) : paced k n (ret a).
Proof. intros w r w' H. inversion H; subst. repeat split; try lia. discriminate. Qed.

Lemma paced_raise k n {A} e : paced k n (@raise A e).
Proof. intros w r w' H. inversion H; subst. repeat split; try lia. discriminate. Qed.

Lemma paced_lift k n {A} (r : res A) : r <> Pending -> paced k n (lift r).
Proof. intros Hr w r' w' H. inversion H; subst. repeat split; try lia. congruence. Qed.

Lemma paced_emit k n e : paced k n (emit e).
Proof. intros w r w' H. inversion H; subst. cbn. repeat split; try lia. discriminate. Qed.

Lemma paced_bind k n {A B} (m : M A) (f : A -> M B) :
  paced k n m -> (forall a, paced k n (f a)) -> paced k n (bind m f).
Proof.
  intros Hm Hf w r w' H. unfold bind in H.
  destruct (m w) as [[a|e|] w1] eqn:E; destruct (Hm _ _ _ E) as (H1 & H2 & H3).
  - destruct (Hf a _ _ _ H) as (G1 & G2 & G3). repeat split; try lia. exact G3.
  - inversion H; subst. repeat split; try lia. discriminate.
  - inversion H; subst. repeat split; try lia. auto.
Qed.

Lemma paced_tick P k n {A} (f : nat -> res A) :
  interrupt_at P = Some k -> (forall t, f t <> Pending) -> paced k n (tick P f).
Proof.
  intros Hk Hf w r w' H. unfold tick, interrupted in H. rewrite Hk in H.
  destruct (k <=? ticks w)%nat eqn:E; inversion H; subst; cbn.
  - repeat split; try lia. discriminate.
  - apply Nat.leb_gt in E. repeat split; try lia. intros Hp. now destruct (Hf (ticks w)).
Qed.

Lemma paced_for_each k n {A} (xs : list A) (body : A -> M unit) :
  (forall x, paced k n (body x)) -> paced k n (for_each xs body).
Proof.
  intros Hb. induction xs as [|x xs IH]; cbn.
  - apply paced_ret.
  - apply paced_bind; auto.
Qed.

Create HintDb pace.
#[local] Hint Resolve paced_ret paced_raise paced_emit
  float_of_int_not_pending int_truediv_not_pending float_truediv_not_pending
  int_of_float_not_pending math_sqrt_not_pending float_pow_not_pending
  screen_bounds_not_pending linear_coord_not_pending bezier_coord_not_pending
  add_jitter_not_pending rbind_not_pending : pace.

(** Walks through a computation built from ticks and pure steps. *)
Ltac pace Hk :=
  repeat first
    [ progress auto with pace
    | apply paced_bind
    | apply paced_for_each
    | apply paced_lift
    | apply (paced_tick _ _ _ _ Hk)
    | apply rbind_not_pending
    | match goal with
      | |- paced _ _ (if ?b then _ else _) => destruct b
      | |- paced _ _ (match ?x with _ => _ end) => destruct x
      | |- (if ?b then _ else _) <> Pending => destruct b
      | |- Ok _ <> Pending => discriminate
      | |- Raise _ <> Pending => discriminate
      | |- forall _ : _ * _, _ => intros [? ?]
      | |- forall _, _ => intro
      end ].

Section Paced.

Variables (P : platform) (cfg : config) (k n : nat).
Hypothesis Hk : interrupt_at P = Some k.

Lemma paced_platform_call {A} (f : nat -> A) : paced k n (platform_call P f).
Proof. unfold platform_call. pace Hk. Qed.

Lemma paced_randint a b : paced k n (randint P a b).
Proof. unfold randint. pace Hk. Qed.

Lemma paced_uniform a b : paced k n (uniform P a b).
Proof. unfold uniform, random. pace Hk. Qed.

Lemma paced_sleep d : paced k n (sleep P d).
Proof. unfold sleep. pace Hk. Qed.

Lemma paced_sleep_int z : paced k n (sleep_int P z).
Proof. unfold sleep_int. pace Hk. Qed.

Hint Resolve paced_platform_call paced_randint paced_uniform paced_sleep
  paced_sleep_int : pace.

Lemma paced_get_next_position max_x max_y min_x min_y :
  paced k n (get_next_position P max_x max_y min_x min_y).
Proof. unfold get_next_position. pace Hk. Qed.

Lemma paced_jitter : paced k n (jitter P cfg).
Proof. unfold jitter. pace Hk. Qed.

Lemma paced_choose_movement_type cc : paced k n (choose_movement_type P cfg cc).
Proof. unfold choose_movement_type, choice. pace Hk. Qed.

Hint Resolve paced_get_next_position paced_jitter paced_choose_movement_type : pace.

Lemma paced_linear_mouse_move tx ty : paced k n (linear_mouse_move P cfg tx ty).
Proof.
  unfold linear_mouse_move, linear_step, set_cursor_pos, MouseController, get_cursor_pos.
  pace Hk.
Qed.

Lemma paced_human_like_mouse_move tx ty : paced k n (human_like_mouse_move P cfg tx ty).
Proof.
  unfold human_like_mouse_move, bezier_step, control_point, set_cursor_pos,
    MouseController, get_cursor_pos.
  pace Hk.
Qed.

Lemma paced_get_screen_bounds : paced k n (get_screen_bounds P cfg).
Proof.
  unfold get_screen_bounds, MouseController, controller_get_screen_dimensions.
  pace Hk.
Qed.

Lemma paced_get_screen_dimensions : paced k n (get_screen_dimensions P).
Proof.
  unfold get_screen_dimensions, MouseController, controller_get_screen_dimensions.
  pace Hk.
Qed.

End Paced.

Lemma bind_ok_inv {A B} (m : M A) (f : A -> M B) w b w' :
  bind m f w = (Ok b, w') ->
  exists a w1, m w = (Ok a, w1) /\ f a w1 = (Ok b, w').
Proof.
  unfold bind. destruct (m w) as [[a|e|] w1]; intros H; try discriminate. eauto.
Qed.

Section PacedLoops.

Variables (P : platform) (cfg : config) (k n : nat).
Hypothesis Hk : interrupt_at P = Some k.

#[local] Hint Resolve paced_platform_call paced_randint paced_uniform paced_sleep
  paced_sleep_int paced_get_next_position paced_jitter paced_choose_movement_type
  paced_linear_mouse_move paced_human_like_mouse_move paced_get_screen_bounds
  paced_get_screen_dimensions : pace.

Lemma tick_ok_ticks {A} (f : nat -> res A) w a w' :
  tick P f w = (Ok a, w') -> ticks w' = S (ticks w).
Proof.
  unfold tick. destruct (interrupted P (ticks w)); intros H; inversion H; reflexivity.
Qed.

Lemma get_next_position_ok_ticks max_x max_y min_x min_y w p w' :
  get_next_position P max_x max_y min_x min_y w = (Ok p, w') ->
  (S (ticks w) <= ticks w')%nat.
Proof.
  unfold get_next_position.
  destruct (max_x <=? min_x); [discriminate|].
  destruct (max_y <=? min_y); [discriminate|].
  intros H. apply bind_ok_inv in H. destruct H as (x & w1 & H1 & H2).
  unfold randint in H1. destruct (max_x <? min_x); [discriminate|].
  apply tick_ok_ticks in H1.
  match type of H2 with ?f _ = _ =>
    assert (Hp : paced k n f) by pace Hk
  end.
  destruct (Hp _ _ _ H2) as (G & _). lia.
Qed.

(** A sampling loop cut short after [j] rounds has used at least [j]
    ticks. *)
Lemma small_movement_loop_ticks cx cy a b c d : forall j w r w',
  small_movement_loop P cfg j cx cy a b c d w = (r, w') ->
  (ticks w <= ticks w')%nat /\
  (ticks w' <= Nat.max (ticks w) k)%nat /\
  (r = Pending -> (ticks w + j <= ticks w')%nat).
Proof.
  induction j as [|j IH]; intros w r w' H; cbn [small_movement_loop] in H.
  - inversion H; subst. repeat split; lia.
  - unfold bind at 1 in H.
    destruct (get_next_position P c d a b w) as [[[tx ty]|e|] w1] eqn:E1.
    + pose proof (get_next_position_ok_ticks _ _ _ _ _ _ _ E1) as Ht.
      destruct (paced_get_next_position P k n Hk _ _ _ _ _ _ _ E1) as (T1 & T2 & _).
      unfold bind at 1, lift in H.
      pose proof (math_sqrt_not_pending ((tx - cx) ^ 2 + (ty - cy) ^ 2)) as Hs.
      destruct (Py.math_sqrt ((tx - cx) ^ 2 + (ty - cy) ^ 2)) as [dist|e|];
        [|inversion H; subst; repeat split; try lia; discriminate|congruence].
      destruct (Py.float_ge_int dist (fst (SMALL_MOVEMENT_RANGE cfg))).
      * inversion H; subst. repeat split; try lia. discriminate.
      * destruct (IH _ _ _ H) as (G1 & G2 & G3). repeat split; try lia.
        intros Hp. specialize (G3 Hp). lia.
    + destruct (paced_get_next_position P k n Hk _ _ _ _ _ _ _ E1) as (T1 & T2 & _).
      inversion H; subst. repeat split; try lia. discriminate.
    + destruct (paced_get_next_position P k n Hk _ _ _ _ _ _ _ E1) as (T1 & T2 & T3).
      inversion H; subst. repeat split; try lia. intros _. specialize (T3 eq_refl).
      exfalso.
      revert E1. unfold get_next_position.
      destruct (c <=? a); [discriminate|]. destruct (d <=? b); [discriminate|].
      unfold bind, randint.
      destruct (c <? a); [discriminate|].
      unfold tick. destruct (interrupted P (ticks w)); [discriminate|].
      destruct (d <? b); [discriminate|]. cbn [ticks].
      destruct (interrupted P (S (ticks w))); discriminate.
Qed.

Lemma paced_get_small_movement_position cx cy :
  paced k n (get_small_movement_position P cfg n cx cy).
Proof.
  unfold get_small_movement_position, MouseController, controller_get_screen_dimensions.
  pace Hk.
  intros w r w' H. destruct (small_movement_loop_ticks _ _ _ _ _ _ _ _ _ _ H) as (A1 & A2 & A3).
  repeat split; try lia. intros Hp. specialize (A3 Hp). lia.
Qed.

#[local] Hint Resolve paced_get_small_movement_position : pace.

Lemma paced_iteration bounds st : paced k n (iteration P cfg n bounds st).
Proof.
  unfold iteration, get_cursor_pos. destruct bounds as [[[min_x min_y] max_x] max_y].
  pace Hk.
Qed.

Lemma iteration_ok_ticks bounds st w st' w' :
  iteration P cfg n bounds st w = (Ok st', w') -> (S (ticks w) <= ticks w')%nat.
Proof.
  unfold iteration. destruct bounds as [[[min_x min_y] max_x] max_y].
  intros H. apply bind_ok_inv in H. destruct H as ([cx cy] & w1 & H1 & H2).
  unfold get_cursor_pos, platform_call in H1. apply tick_ok_ticks in H1.
  match type of H2 with ?f _ = _ =>
    assert (Hp : paced k n f) by pace Hk
  end.
  destruct (Hp _ _ _ H2) as (G & _). lia.
Qed.

Lemma run_loop_ticks bounds : forall fuel st w r w',
  run_loop P cfg n fuel bounds st w = (r, w') ->
  (ticks w <= ticks w')%nat /\
  (ticks w' <= Nat.max (ticks w) k)%nat /\
  (r = Pending -> (n <= ticks w')%nat \/ (ticks w + fuel <= ticks w')%nat).
Proof.
  induction fuel as [|fuel IH]; intros st w r w' H; cbn [run_loop] in H.
  - inversion H; subst. repeat split; try lia.
  - unfold bind in H.
    destruct (iteration P cfg n bounds st w) as [[st1|e|] w1] eqn:E;
      destruct (paced_iteration bounds st _ _ _ E) as (T1 & T2 & T3).
    + apply iteration_ok_ticks in E.
      destruct (IH _ _ _ _ H) as (G1 & G2 & G3). repeat split; try lia.
      intros Hp. destruct (G3 Hp); [left|right]; lia.
    + inversion H; subst. repeat split; try lia. discriminate.
    + inversion H; subst. repeat split; try lia. intros _. left. auto.
Qed.

(** Once Ctrl-C is pending from tick [k], a bound [n > k] is enough to see
    the [try] body end: it ends by an exception. *)
Lemma main_try_interrupted :
  (k < n)%nat -> exists e w, main_try P cfg n boot = (Raise e, w).
Proof.
  intros Hn.
  destruct (main_try P cfg n boot) as [[v|e|] w] eqn:E; [destruct v|eauto|exfalso].
  unfold main_try in E.
  unfold bind at 1 in E.
  destruct (get_screen_bounds P cfg boot) as [[bounds|e|] w1] eqn:E1;
    destruct (paced_get_screen_bounds P cfg k n Hk _ _ _ E1) as (A1 & A2 & A3);
    [|discriminate|inversion E; subst; specialize (A3 eq_refl); cbn in *; lia].
  unfold bind at 1 in E.
  destruct (get_screen_dimensions P w1) as [[dims|e|] w2] eqn:E2;
    destruct (paced_get_screen_dimensions P k n Hk _ _ _ E2) as (B1 & B2 & B3);
    [|discriminate|inversion E; subst; specialize (B3 eq_refl); cbn in *; lia].
  unfold bind at 1 in E.
  destruct (MouseController P w2) as [[[]|e|] w3] eqn:E3;
    destruct (paced_platform_call P k n Hk _ _ _ _ E3) as (C1 & C2 & C3);
    [|discriminate|inversion E; subst; specialize (C3 eq_refl); cbn in *; lia].
  destruct (run_loop_ticks _ _ _ _ _ _ E) as (D1 & D2 & D3).
  cbn in *. destruct (D3 eq_refl); lia.
Qed.

End PacedLoops.

(** C8, as stated, fails: when the platform starts failing in the middle
    of the first movement (six points written), the exception is caught by
    the handler of [main] and the process exits with code 0. *)
Lemma platform_error_exits_zero :
  let P := failing_platform 40 (400, 300) (fun _ => 2 ^ 52) in
  exists w,
    main_try P default_config 1 boot = (Raise OSError, w) /\
    List.length (cursor_writes (log w)) = 6%nat /\
    main P default_config 1 = (Exited 0, w) /\
    ~ (exists code w', main P default_config 1 = (Exited code, w') /\ code <> 0).
Proof.
  cbv zeta. eexists.
  split; [vm_compute; reflexivity|].
  split; [vm_compute; reflexivity|].
  assert (Hmain : forall x y : status * world, x = y -> fst x = fst y)
    by (intros x y Hxy; now rewrite Hxy).
  split; [vm_compute; reflexivity|].
  intros (code & w' & H & Hc). apply Hc.
  apply Hmain in H. cbn [fst] in H.
  assert (E0 : fst (main (failing_platform 40 (400, 300) (fun _ => 2 ^ 52))
                         default_config 1) = Exited 0)
    by (vm_compute; reflexivity).
  rewrite E0 in H. now inversion H.
Qed.

(** C8, amended.  The exit code is 1 when the dependency check fails and 0
    in every other case: on Ctrl-C delivered at any tick of the [try] body
    (the process does end then), and also when an exception, platform
    errors included, leaves the run loop. *)
Theorem main_exit_code P cfg :
  (forall n code w,
     main P cfg n = (Exited code, w) -> code = if deps_ok P then 0 else 1) /\
  (forall k n,
     deps_ok P = true -> interrupt_at P = Some k -> (k < n)%nat ->
     exists w, main P cfg n = (Exited 0, w)) /\
  (forall n e w,
     deps_ok P = true -> main_try P cfg n boot = (Raise e, w) ->
     main P cfg n = (Exited 0, w)).
Proof.
  repeat split.
  - intros n code w. unfold main. destruct (deps_ok P); cbn [negb].
    + destruct (main_try P cfg n boot) as [[v|e|] w1]; [destruct v| |discriminate].
      destruct e; intros H; inversion H; reflexivity.
    + intros H; inversion H; reflexivity.
  - intros k n Hd Hk Hn.
    destruct (main_try_interrupted P cfg k n Hk Hn) as (e & w & E).
    exists w. unfold main. rewrite Hd, E. destruct e; reflexivity.
  - intros n e w Hd E. unfold main. rewrite Hd, E. destruct e; reflexivity.
Qed.

Lemma main_exit_code_witness :
  (deps_ok (interrupted_platform 20 (400, 300) (fun _ => 2 ^ 52)) = true /\
   interrupt_at (interrupted_platform 20 (400, 300) (fun _ => 2 ^ 52)) = Some 20%nat /\
   (20 < 21)%nat) /\
  exists w, main (interrupted_platform 20 (400, 300) (fun _ => 2 ^ 52)) default_config 21
            = (Exited 0, w).
Proof.
  split; [repeat split; lia|].
  exact (proj1 (proj2 (main_exit_code (interrupted_platform 20 (400, 300) (fun _ => 2 ^ 52))
                                      default_config))
               20%nat 21%nat eq_refl eq_refl ltac:(lia)).
Defined.

(** ** Binary64 arithmetic: the facts the program relies on *)

(** *** Number of binary digits *)

Lemma digits2_pos_size p : digits2_pos p = Pos.size p.
Proof. induction p; cbn; congruence. Qed.

Lemma Zdigits2_log2 m : 0 < m -> Zdigits2 m = Z.log2 m + 1.
Proof.
  destruct m as [|p|p]; try lia. intros _. cbn [Zdigits2].
  rewrite digits2_pos_size. destruct p; cbn; lia.
Qed.

Lemma Zdigits2_bounds m : 0 < m -> 2 ^ (Zdigits2 m - 1) <= m < 2 ^ Zdigits2 m.
Proof.
  intros H. rewrite (Zdigits2_log2 m H).
  replace (Z.log2 m + 1 - 1) with (Z.log2 m) by lia.
  pose proof (Z.log2_spec m H). unfold Z.succ in *. lia.
Qed.

Lemma Zdigits2_unique m d : 2 ^ (d - 1) <= m < 2 ^ d -> 0 < d -> Zdigits2 m = d.
Proof.
  intros H Hd.
  assert (0 < m) by (pose proof (Z.pow_pos_nonneg 2 (d - 1)); lia).
  rewrite (Zdigits2_log2 m) by assumption.
  rewrite (Z.log2_unique m (d - 1)); unfold Z.succ; try lia.
  replace (d - 1 + 1) with d by lia. lia.
Qed.

Lemma Zdigits2_nonneg m : 0 <= Zdigits2 m.
Proof. destruct m; cbn; lia. Qed.

Lemma Zdigits2_pos m : 0 < m -> 0 < Zdigits2 m.
Proof. destruct m; cbn; lia. Qed.

Lemma Zdigits2_le m d : 0 <= m -> 0 <= d -> m < 2 ^ d -> Zdigits2 m <= d.
Proof.
  intros Hm Hd H. destruct (Z.eq_dec m 0) as [->|Hz]; [cbn; lia|].
  pose proof (Zdigits2_bounds m ltac:(lia)) as [Hlo _].
  destruct (Z_le_gt_dec (Zdigits2 m) d) as [|Hgt]; [assumption|exfalso].
  assert (2 ^ d <= 2 ^ (Zdigits2 m - 1)) by (apply Z.pow_le_mono_r; lia).
  lia.
Qed.

Lemma Zdigits2_lt_pow m d : 0 <= m -> Zdigits2 m <= d -> m < 2 ^ d.
Proof.
  intros Hm Hd. destruct (Z.eq_dec m 0) as [->|Hz].
  - apply Z.pow_pos_nonneg; [lia|]. pose proof (Zdigits2_nonneg 0). cbn in *. lia.
  - pose proof (Zdigits2_bounds m ltac:(lia)) as [_ Hhi].
    assert (2 ^ Zdigits2 m <= 2 ^ d) by (apply Z.pow_le_mono_r; lia). lia.
Qed.

Lemma Zdigits2_mono a b : 0 <= a <= b -> Zdigits2 a <= Zdigits2 b.
Proof.
  intros H. apply Zdigits2_le; [lia|apply Zdigits2_nonneg|].
  destruct (Z.eq_dec b 0) as [->|Hb]; [cbn; lia|].
  pose proof (Zdigits2_bounds b ltac:(lia)). lia.
Qed.

Lemma Zdigits2_mul_pow2 m j : 0 < m -> 0 <= j -> Zdigits2 (m * 2 ^ j) = Zdigits2 m + j.
Proof.
  intros Hm Hj. pose proof (Zdigits2_bounds m Hm) as [Hlo Hhi].
  pose proof (Zdigits2_pos m Hm).
  apply Zdigits2_unique; [|lia].
  replace (Zdigits2 m + j - 1) with (Zdigits2 m - 1 + j) by lia.
  rewrite !Z.pow_add_r by lia.
  assert (0 < 2 ^ j) by (apply Z.pow_pos_nonneg; lia).
  split; nia.
Qed.

Lemma Zdigits2_div_pow2 m j : 0 < m -> 0 <= j -> j < Zdigits2 m ->
  Zdigits2 (m / 2 ^ j) = Zdigits2 m - j.
Proof.
  intros Hm Hj Hlt. pose proof (Zdigits2_bounds m Hm) as [Hlo Hhi].
  assert (Hp : 0 < 2 ^ j) by (apply Z.pow_pos_nonneg; lia).
  apply Zdigits2_unique; [|lia].
  split.
  - apply Z.div_le_lower_bound; [lia|].
    rewrite <- Z.pow_add_r by lia.
    replace (j + (Zdigits2 m - j - 1)) with (Zdigits2 m - 1) by lia. lia.
  - apply Z.div_lt_upper_bound; [lia|].
    rewrite <- Z.pow_add_r by lia.
    replace (j + (Zdigits2 m - j)) with (Zdigits2 m) by lia. lia.
Qed.

Lemma Zdigits2_div_pow2_small m j : 0 <= m -> 0 <= j -> Zdigits2 m <= j -> m / 2 ^ j = 0.
Proof.
  intros Hm Hj Hle. apply Z.div_small. split; [lia|].
  apply Zdigits2_lt_pow; assumption.
Qed.

(** *** Shifting right with sticky bits *)

Lemma iter_pos_nat {A} (f : A -> A) p : forall x,
  iter_pos f p x = Nat.iter (Pos.to_nat p) f x.
Proof.
  induction p as [p IH|p IH|]; intros x; cbn [iter_pos].
  - rewrite !IH, Pos2Nat.inj_xI.
    replace (S (2 * Pos.to_nat p))%nat with (S (Pos.to_nat p + Pos.to_nat p))%nat by lia.
    rewrite Nat.iter_succ_r, Nat.iter_add. reflexivity.
  - rewrite !IH, Pos2Nat.inj_xO.
    replace (2 * Pos.to_nat p)%nat with (Pos.to_nat p + Pos.to_nat p)%nat by lia.
    now rewrite Nat.iter_add.
  - reflexivity.
Qed.

Lemma shr_1_m mrs : 0 <= shr_m mrs -> shr_m (shr_1 mrs) = shr_m mrs / 2.
Proof.
  destruct mrs as [m r s]. cbn [shr_m]. intros H.
  destruct m as [|p|p]; [reflexivity| |lia].
  destruct p; cbn [shr_1 shr_m].
  - rewrite Pos2Z.inj_xI. rewrite Z.add_comm, Z.mul_comm, Z.div_add by lia. reflexivity.
  - rewrite Pos2Z.inj_xO. rewrite Z.mul_comm, Z.div_mul by lia. reflexivity.
  - reflexivity.
Qed.

Lemma iter_shr_1_m j : forall mrs, 0 <= shr_m mrs ->
  shr_m (Nat.iter j shr_1 mrs) = shr_m mrs / 2 ^ Z.of_nat j.
Proof.
  induction j as [|j IH]; intros mrs H.
  - cbn. now rewrite Z.div_1_r.
  - assert (Hp : 0 < 2 ^ Z.of_nat j) by (apply Z.pow_pos_nonneg; lia).
    rewrite Nat.iter_succ. rewrite shr_1_m.
    + rewrite IH by assumption. rewrite Z.div_div by lia.
      rewrite Nat2Z.inj_succ, Z.pow_succ_r by lia. f_equal. lia.
    + rewrite IH by assumption. apply Z.div_pos; assumption.
Qed.

Lemma shr_m_shift mrs e n :
  0 <= shr_m mrs ->
  shr_m (fst (shr mrs e n)) = shr_m mrs / 2 ^ Z.max 0 n /\
  snd (shr mrs e n) = e + Z.max 0 n.
Proof.
  intros H. destruct n as [|p|p]; cbn [shr fst snd Z.max Z.compare].
  - rewrite Z.div_1_r. split; lia.
  - rewrite iter_pos_nat, iter_shr_1_m by assumption.
    rewrite positive_nat_Z. split; reflexivity.
  - rewrite Z.div_1_r. split; lia.
Qed.

Lemma shr_record_of_loc_m m l : shr_m (shr_record_of_loc m l) = m.
Proof. destruct l as [|[]]; reflexivity. Qed.

Lemma round_nearest_even_range m l :
  round_nearest_even m l = m \/ round_nearest_even m l = m + 1.
Proof. destruct l as [|[]]; cbn; auto. destruct (Z.even m); auto. Qed.


(** *** Rounding *)


Lemma fexp64_eq x : fexp64 x = Z.max (x - 53) (-1074).
Proof. reflexivity. Qed.

Lemma loc_of_shr_record_of_loc m l : loc_of_shr_record (shr_record_of_loc m l) = l.
Proof. destruct l as [|[]]; reflexivity. Qed.

Lemma shr_fexp_spec m e l :
  0 <= m ->
  let e1 := Z.max e (fexp64 (Zdigits2 m + e)) in
  exists mrs,
    shr_fexp F64.prec F64.emax m e l = (mrs, e1) /\
    shr_m mrs = m / 2 ^ (e1 - e) /\
    (e1 = e -> loc_of_shr_record mrs = l).
Proof.
  intros Hm e1. unfold shr_fexp.
  set (n := fexp64 (Zdigits2 m + e) - e).
  pose proof (shr_m_shift (shr_record_of_loc m l) e n) as [H1 H2].
  { now rewrite shr_record_of_loc_m. }
  rewrite shr_record_of_loc_m in H1.
  destruct (shr (shr_record_of_loc m l) e n) as [mrs e'] eqn:E. cbn [fst snd] in *.
  exists mrs. subst e1 e'.
  replace (Z.max e (fexp64 (Zdigits2 m + e)) - e) with (Z.max 0 n) by (subst n; lia).
  replace (Z.max e (fexp64 (Zdigits2 m + e))) with (e + Z.max 0 n) by (subst n; lia).
  repeat split; [assumption|].
  intros He. assert (Hn : n <= 0) by lia.
  destruct n as [|p|p]; try lia; cbn [shr] in E; inversion E;
    apply loc_of_shr_record_of_loc.
Qed.

(** The two shifts and the rounding step of [binary_round_aux], spelled
    out on integers. *)
Lemma bra64_spec s m e l :
  0 <= m ->
  let e1 := Z.max e (fexp64 (Zdigits2 m + e)) in
  let m1 := m / 2 ^ (e1 - e) in
  exists l1,
    (e1 = e -> l1 = l) /\
    let m2 := round_nearest_even m1 l1 in
    let e2 := Z.max e1 (fexp64 (Zdigits2 m2 + e1)) in
    bra64 s m e l =
      match m2 / 2 ^ (e2 - e1) with
      | Z0 => S754_zero s
      | Zpos p => if e2 <=? 971 then S754_finite s p e2 else S754_infinity s
      | Zneg _ => S754_nan
      end.
Proof.
  intros Hm e1 m1. unfold binary_round_aux.
  destruct (shr_fexp_spec m e l Hm) as (mrs & E1 & Hm1 & Hl1).
  fold e1 in E1, Hm1, Hl1. rewrite E1. fold m1 in Hm1.
  exists (loc_of_shr_record mrs). split; [exact Hl1|].
  rewrite Hm1.
  set (m2 := round_nearest_even m1 (loc_of_shr_record mrs)).
  set (e2 := Z.max e1 (fexp64 (Zdigits2 m2 + e1))).
  assert (Hm1pos : 0 <= m1).
  { subst m1. apply Z.div_pos; [assumption|].
    apply Z.pow_pos_nonneg; [lia|]. subst e1. lia. }
  assert (Hm2 : 0 <= m2).
  { subst m2. destruct (round_nearest_even_range m1 (loc_of_shr_record mrs)) as [-> | ->]; lia. }
  destruct (shr_fexp_spec m2 e1 loc_Exact Hm2) as (mrs2 & E2 & Hm3 & _).
  fold e2 in E2, Hm3. rewrite E2, Hm3. reflexivity.
Qed.

(** Rounding a magnitude below [2^k] gives a finite value below
    [2^(k+1)]. *)
Lemma bra64_below s m e l k :
  0 <= m -> Zdigits2 m + e <= k -> -1074 <= k <= 1023 -> e <= 971 ->
  below (k + 1) (bra64 s m e l).
Proof.
  intros Hm Hk Hr He.
  destruct (bra64_spec s m e l Hm) as (l1 & _ & H). cbv zeta in H. rewrite H. clear H.
  set (e1 := Z.max e (fexp64 (Zdigits2 m + e))).
  set (m1 := m / 2 ^ (e1 - e)).
  set (m2 := round_nearest_even m1 l1).
  set (e2 := Z.max e1 (fexp64 (Zdigits2 m2 + e1))).
  assert (He1 : -1074 <= e1 <= 971).
  { subst e1. rewrite fexp64_eq. lia. }
  assert (Hsh : 0 <= e1 - e) by (subst e1; lia).
  assert (Hp1 : 0 < 2 ^ (e1 - e)) by (apply Z.pow_pos_nonneg; lia).
  assert (Hm1 : 0 <= m1) by (subst m1; apply Z.div_pos; lia).
  (* after the first shift at most 53 digits remain *)
  assert (Hd1 : Zdigits2 m1 <= 53 /\ (0 < m1 -> Zdigits2 m1 + e1 <= k)).
  { destruct (Z.eq_dec m 0) as [Hz|Hz].
    { subst m1. rewrite Hz, Z.div_0_l by lia. cbn. split; lia. }
    destruct (Z_lt_le_dec (e1 - e) (Zdigits2 m)) as [Hlt|Hge].
    - subst m1. rewrite Zdigits2_div_pow2 by lia.
      subst e1. rewrite fexp64_eq in *. split; lia.
    - subst m1. rewrite Zdigits2_div_pow2_small by lia. cbn. split; lia. }
  destruct Hd1 as [Hd1 Hd1k].
  assert (Hm1lt : m1 < 2 ^ 53) by (apply Zdigits2_lt_pow; assumption).
  assert (Hm2 : m2 = m1 \/ m2 = m1 + 1) by apply round_nearest_even_range.
  destruct (Z.eq_dec m2 (2 ^ 53)) as [Htop|Htop].
  - (* the mantissa overflowed to 2^53: one more shift *)
    assert (Hm1v : m1 = 2 ^ 53 - 1) by lia.
    assert (Hd1v : Zdigits2 m1 = 53) by (rewrite Hm1v; reflexivity).
    assert (He1k : 53 + e1 <= k) by (rewrite <- Hd1v; apply Hd1k; lia).
    assert (He2 : e2 = e1 + 1).
    { subst e2. rewrite Htop. change (Zdigits2 (2 ^ 53)) with 54.
      rewrite fexp64_eq. lia. }
    rewrite He2, Htop. replace (e1 + 1 - e1) with 1 by lia.
    change (2 ^ 53 / 2 ^ 1) with (Z.pos 4503599627370496).
    destruct (e1 + 1 <=? 971) eqn:E; [|apply Z.leb_gt in E; lia].
    unfold below. change (Z.pos (digits2_pos 4503599627370496)) with 53. lia.
  - assert (Hm2lt : m2 < 2 ^ 53) by lia.
    assert (Hm2pos : 0 <= m2) by lia.
    assert (Hd2 : Zdigits2 m2 <= 53) by (apply Zdigits2_le; lia).
    assert (He2 : e2 = e1).
    { subst e2. rewrite fexp64_eq. lia. }
    rewrite He2, Z.sub_diag, Z.div_1_r.
    destruct m2 as [|p|p] eqn:Ep; [exact I| |lia].
    destruct (e1 <=? 971) eqn:E; [|apply Z.leb_gt in E; lia].
    cbn [below]. change (Z.pos (digits2_pos p)) with (Zdigits2 (Z.pos p)).
    destruct Hm2 as [Hm2|Hm2].
    + rewrite Hm2. apply Z.le_trans with k; [apply Hd1k; lia|lia].
    + destruct (Z.eq_dec m1 0) as [Hz|Hz].
      * rewrite Hm2, Hz. change (Zdigits2 (0 + 1)) with 1.
        (* the value rounded up from below the smallest subnormal *)
        enough (e1 <= k) by lia.
        destruct (Z.eq_dec m 0) as [Hmz|Hmz].
        { subst e1. rewrite Hmz in *. cbn [Zdigits2] in *. rewrite fexp64_eq. lia. }
        pose proof (Zdigits2_pos m ltac:(lia)) as Hdm.
        destruct (Z_lt_le_dec (e1 - e) (Zdigits2 m)) as [Hlt|Hge].
        { exfalso.
          pose proof (Zdigits2_div_pow2 m _ ltac:(lia) Hsh Hlt) as Hd.
          fold m1 in Hd. rewrite Hz in Hd. cbn [Zdigits2] in Hd. lia. }
        subst e1. rewrite fexp64_eq in *. lia.
      * assert (Zdigits2 (m1 + 1) <= Zdigits2 m1 + 1).
        { apply Zdigits2_le; [lia|pose proof (Zdigits2_nonneg m1); lia|].
          pose proof (Zdigits2_bounds m1 ltac:(lia)) as [_ Hhi].
          rewrite Z.pow_add_r by (pose proof (Zdigits2_nonneg m1); lia). lia. }
        rewrite Hm2. specialize (Hd1k ltac:(lia)). lia.
Qed.

Lemma below_mono k k' x : below k x -> k <= k' -> below k' x.
Proof. destruct x; cbn; auto; lia. Qed.

Lemma below_finite k x : below k x -> F64.is_finite x = true.
Proof. destruct x; cbn; auto; contradiction. Qed.

(** A mantissa of exactly 53 digits is only rounded, never shifted. *)
Lemma bra64_normal s m e l :
  2 ^ 52 <= m < 2 ^ 53 -> -1074 <= e <= 970 ->
  bra64 s m e l =
    if round_nearest_even m l <? 2 ^ 53
    then S754_finite s (Z.to_pos (round_nearest_even m l)) e
    else S754_finite s 4503599627370496 (e + 1).
Proof.
  intros Hm He.
  destruct (bra64_spec s m e l ltac:(lia)) as (l1 & Hl1 & H). cbv zeta in H.
  assert (Hd : Zdigits2 m = 53) by (apply Zdigits2_unique; lia).
  rewrite Hd, fexp64_eq in H, Hl1.
  replace (Z.max e (Z.max (53 + e - 53) (-1074))) with e in H, Hl1 by lia.
  rewrite Z.sub_diag, Z.div_1_r in H. rewrite (Hl1 eq_refl) in H. rewrite H. clear H Hl1.
  destruct (round_nearest_even_range m l) as [E|E]; rewrite E.
  - rewrite Hd, fexp64_eq.
    replace (Z.max e (Z.max (53 + e - 53) (-1074))) with e by lia.
    rewrite Z.sub_diag, Z.div_1_r.
    destruct (m <? 2 ^ 53) eqn:C; [|apply Z.ltb_ge in C; lia].
    destruct m as [|p|p]; try lia.
    destruct (e <=? 971) eqn:C2; [reflexivity|apply Z.leb_gt in C2; lia].
  - destruct (Z.eq_dec (m + 1) (2 ^ 53)) as [Ht|Ht].
    + rewrite Ht. change (Zdigits2 (2 ^ 53)) with 54. rewrite fexp64_eq.
      replace (Z.max e (Z.max (54 + e - 53) (-1074))) with (e + 1) by lia.
      replace (e + 1 - e) with 1 by lia.
      change (2 ^ 53 / 2 ^ 1) with (Z.pos 4503599627370496).
      change (2 ^ 53 <? 2 ^ 53) with false. cbv iota.
      destruct (e + 1 <=? 971) eqn:C2; [reflexivity|apply Z.leb_gt in C2; lia].
    + assert (Hd1 : Zdigits2 (m + 1) = 53) by (apply Zdigits2_unique; lia).
      rewrite Hd1, fexp64_eq.
      replace (Z.max e (Z.max (53 + e - 53) (-1074))) with e by lia.
      rewrite Z.sub_diag, Z.div_1_r.
      destruct (m + 1 <? 2 ^ 53) eqn:C; [|apply Z.ltb_ge in C; lia].
      destruct (m + 1) as [|p|p] eqn:Ep; try lia.
      destruct (e <=? 971) eqn:C2; [reflexivity|apply Z.leb_gt in C2; lia].
Qed.

Lemma shr_1_double m : 0 <= m ->
  shr_1 {| shr_m := 2 * m; shr_r := false; shr_s := false |} =
  {| shr_m := m; shr_r := false; shr_s := false |}.
Proof. intros H. destruct m as [|p|p]; [reflexivity|reflexivity|lia]. Qed.

Lemma iter_shr_1_exact j : forall m, 0 <= m ->
  Nat.iter j shr_1 {| shr_m := m * 2 ^ Z.of_nat j; shr_r := false; shr_s := false |} =
  {| shr_m := m; shr_r := false; shr_s := false |}.
Proof.
  induction j as [|j IH]; intros m Hm.
  - cbn [Nat.iter]. now rewrite Z.mul_1_r.
  - rewrite Nat.iter_succ_r.
    rewrite Nat2Z.inj_succ, Z.pow_succ_r by lia.
    replace (m * (2 * 2 ^ Z.of_nat j)) with (2 * (m * 2 ^ Z.of_nat j)) by lia.
    rewrite shr_1_double.
    + apply IH; assumption.
    + apply Z.mul_nonneg_nonneg; [assumption|]. apply Z.pow_nonneg; lia.
Qed.

(** A normal mantissa followed by [j] zero bits is rounded to itself. *)
Lemma bra64_exact_shift s m j e :
  2 ^ 52 <= m < 2 ^ 53 -> 0 <= j -> -1074 <= e <= 970 ->
  bra64 s (m * 2 ^ j) (e - j) loc_Exact = S754_finite s (Z.to_pos m) e.
Proof.
  intros Hm Hj He.
  destruct (Z.eq_dec j 0) as [->|Hj0].
  { rewrite Z.mul_1_r, Z.sub_0_r, bra64_normal by lia. cbn [round_nearest_even].
    destruct (m <? 2 ^ 53) eqn:C; [reflexivity|apply Z.ltb_ge in C; lia]. }
  assert (Hd : Zdigits2 m = 53) by (apply Zdigits2_unique; lia).
  assert (Hdj : Zdigits2 (m * 2 ^ j) = 53 + j)
    by (rewrite Zdigits2_mul_pow2 by lia; lia).
  unfold binary_round_aux, shr_fexp at 1.
  rewrite Hdj, fexp64_eq.
  replace (Z.max (53 + j + (e - j) - 53) (-1074) - (e - j)) with j by lia.
  destruct j as [|p|p]; try lia.
  cbn [shr shr_record_of_loc].
  rewrite iter_pos_nat.
  assert (Hiter : Nat.iter (Pos.to_nat p) shr_1
                    {| shr_m := m * 2 ^ Z.pos p; shr_r := false; shr_s := false |} =
                  {| shr_m := m; shr_r := false; shr_s := false |}).
  { rewrite <- (positive_nat_Z p). apply iter_shr_1_exact. lia. }
  rewrite Hiter.
  cbn [shr_m loc_of_shr_record round_nearest_even].
  unfold shr_fexp. rewrite Hd, fexp64_eq.
  replace (e - Z.pos p + Z.pos p) with e by lia.
  replace (Z.max (53 + e - 53) (-1074) - e) with 0 by lia.
  cbn [shr shr_record_of_loc shr_m].
  destruct m as [|q|q]; try lia.
  change (F64.emax - F64.prec) with 971.
  destruct (e <=? 971) eqn:C2; [reflexivity|apply Z.leb_gt in C2; lia].
Qed.

(** *** Integers as floats *)

Lemma pos_iter_xO p j : Z.pos (Pos.iter xO p j) = Z.pos p * 2 ^ Z.pos j.
Proof.
  induction j as [|j IH] using Pos.peano_ind.
  - cbn [Pos.iter]. lia.
  - rewrite Pos.iter_succ, Pos2Z.inj_xO, IH, Pos2Z.inj_succ, Z.pow_succ_r by lia. lia.
Qed.

Lemma shl_align_spec mx ex ex' :
  let '(mz, ez) := shl_align mx ex ex' in
  ez = Z.min ex ex' /\ Z.pos mz = Z.pos mx * 2 ^ (ex - ez).
Proof.
  unfold shl_align. destruct (ex' - ex) as [|d|d] eqn:E.
  - split; [lia|]. replace (ex - ex) with 0 by lia. lia.
  - split; [lia|]. replace (ex - ex) with 0 by lia. lia.
  - split; [lia|]. rewrite pos_iter_xO. f_equal. f_equal. lia.
Qed.

Lemma normalize_bounds m d :
  0 < d <= 53 -> 2 ^ (d - 1) <= m < 2 ^ d ->
  2 ^ 52 <= m * 2 ^ (53 - d) < 2 ^ 53.
Proof.
  intros Hd Hm.
  assert (E1 : 2 ^ 52 = 2 ^ (d - 1) * 2 ^ (53 - d))
    by (rewrite <- Z.pow_add_r by lia; f_equal; lia).
  assert (E2 : 2 ^ 53 = 2 ^ d * 2 ^ (53 - d))
    by (rewrite <- Z.pow_add_r by lia; f_equal; lia).
  assert (0 < 2 ^ (53 - d)) by (apply Z.pow_pos_nonneg; lia).
  rewrite E1, E2. split; nia.
Qed.

(** An integer mantissa of at most 53 digits is represented exactly. *)
Lemma binary_round_exact s p e :
  let d := Zdigits2 (Z.pos p) in
  d <= 53 -> -1074 <= e - (53 - d) <= 970 ->
  binary_round F64.prec F64.emax s p e =
    S754_finite s (Z.to_pos (Z.pos p * 2 ^ (53 - d))) (e - (53 - d)).
Proof.
  intros d. assert (Hdef : d = Zdigits2 (Z.pos p)) by reflexivity. clearbody d.
  intros Hd He. unfold binary_round.
  pose proof (shl_align_spec p e (fexp64 (Z.pos (digits2_pos p) + e))) as H.
  destruct (shl_align p e (fexp64 (Z.pos (digits2_pos p) + e))) as [mz ez].
  destruct H as [Hez Hmz].
  change (Z.pos (digits2_pos p)) with (Zdigits2 (Z.pos p)) in Hez.
  rewrite <- Hdef, fexp64_eq in Hez.
  assert (Hez' : ez = e - (53 - d)) by lia.
  rewrite Hmz. replace (e - ez) with (53 - d) by lia. rewrite Hez'.
  assert (Hp : 2 ^ (d - 1) <= Z.pos p < 2 ^ d) by (rewrite Hdef; apply Zdigits2_bounds; lia).
  assert (Hdpos : 0 < d) by (rewrite Hdef; apply Zdigits2_pos; lia).
  assert (Hn : 2 ^ 52 <= Z.pos p * 2 ^ (53 - d) < 2 ^ 53)
    by (apply normalize_bounds; lia).
  rewrite bra64_normal by lia. cbn [round_nearest_even].
  destruct (Z.pos p * 2 ^ (53 - d) <? 2 ^ 53) eqn:C; [reflexivity|apply Z.ltb_ge in C; lia].
Qed.

Lemma of_Z_exact z :
  z <> 0 -> Z.abs z < 2 ^ 53 ->
  let d := Zdigits2 (Z.abs z) in
  F64.of_Z z = S754_finite (z <? 0) (Z.to_pos (Z.abs z * 2 ^ (53 - d))) (d - 53).
Proof.
  intros Hz Hlt d. unfold F64.of_Z, binary_normalize.
  assert (Hd : d <= 53) by (apply Zdigits2_le; lia).
  assert (Hdp : 0 < d) by (apply Zdigits2_pos; lia).
  destruct z as [|p|p]; [congruence| |]; cbn [Z.abs] in *.
  - rewrite binary_round_exact by (fold d; lia). fold d.
    replace (0 - (53 - d)) with (d - 53) by lia. reflexivity.
  - change (Zdigits2 (Z.pos p)) with d. rewrite binary_round_exact by (fold d; lia). fold d.
    replace (0 - (53 - d)) with (d - 53) by lia. reflexivity.
Qed.

Lemma trunc_of_Z z : Z.abs z < 2 ^ 53 -> F64.trunc (F64.of_Z z) = Some z.
Proof.
  intros Hlt. destruct (Z.eq_dec z 0) as [->|Hz]; [reflexivity|].
  rewrite of_Z_exact by assumption.
  set (d := Zdigits2 (Z.abs z)).
  assert (Hd : d <= 53) by (apply Zdigits2_le; lia).
  assert (Hdp : 0 < d) by (apply Zdigits2_pos; lia).
  assert (Hp : 0 < 2 ^ (53 - d)) by (apply Z.pow_pos_nonneg; lia).
  cbn [F64.trunc]. f_equal.
  rewrite Z2Pos.id by nia.
  assert (Hv : match d - 53 with
               | Z.neg p => Z.abs z * 2 ^ (53 - d) / 2 ^ Z.pos p
               | _ => Z.abs z * 2 ^ (53 - d) * 2 ^ (d - 53)
               end = Z.abs z).
  { destruct (d - 53) as [|q|q] eqn:E; try lia.
    - replace (53 - d) with 0 by lia. cbn. lia.
    - replace (53 - d) with (Z.pos q) by lia. apply Z.div_mul. lia. }
  rewrite Hv. unfold cond_Zopp. destruct (z <? 0) eqn:C.
  - apply Z.ltb_lt in C. lia.
  - apply Z.ltb_ge in C. lia.
Qed.

Lemma float_of_int_exact z :
  Z.abs z < 2 ^ 53 -> Py.float_of_int z = Ok (F64.of_Z z).
Proof.
  intros H. unfold Py.float_of_int.
  destruct (Z.eq_dec z 0) as [->|Hz]; [reflexivity|].
  rewrite of_Z_exact by assumption. reflexivity.
Qed.

Lemma int_of_float_of_Z z :
  Z.abs z < 2 ^ 53 -> Py.int_of_float (F64.of_Z z) = Ok z.
Proof. intros H. unfold Py.int_of_float. now rewrite trunc_of_Z. Qed.

(** [1.0 * float(z)] is [float(z)]. *)
Lemma mul_one_of_Z z : Z.abs z < 2 ^ 53 -> F64.mul F64.one (F64.of_Z z) = F64.of_Z z.
Proof.
  intros Hlt. destruct (Z.eq_dec z 0) as [->|Hz]; [reflexivity|].
  rewrite of_Z_exact by assumption.
  set (d := Zdigits2 (Z.abs z)).
  assert (Hd : d <= 53) by (apply Zdigits2_le; lia).
  assert (Hdp : 0 < d) by (apply Zdigits2_pos; lia).
  assert (Hb : 2 ^ (d - 1) <= Z.abs z < 2 ^ d) by (apply Zdigits2_bounds; lia).
  assert (Hn : 2 ^ 52 <= Z.abs z * 2 ^ (53 - d) < 2 ^ 53)
    by (apply normalize_bounds; lia).
  set (m := Z.abs z * 2 ^ (53 - d)) in *.
  unfold F64.mul, F64.one, SFmul. cbn [xorb].
  rewrite Pos2Z.inj_mul, Z2Pos.id by lia.
  change (Z.pos 4503599627370496) with (2 ^ 52).
  rewrite Z.mul_comm.
  replace (-52 + (d - 53)) with (d - 53 - 52) by lia.
  apply bra64_exact_shift; lia.
Qed.

(** *** Magnitude bounds through the operations *)

Lemma binary_round_below s p e k :
  Zdigits2 (Z.pos p) + e <= k -> -1074 <= k <= 1023 ->
  below (k + 1) (binary_round F64.prec F64.emax s p e).
Proof.
  intros Hk Hr. unfold binary_round.
  pose proof (shl_align_spec p e (fexp64 (Z.pos (digits2_pos p) + e))) as H.
  destruct (shl_align p e (fexp64 (Z.pos (digits2_pos p) + e))) as [mz ez].
  destruct H as [Hez Hmz].
  change (Z.pos (digits2_pos p)) with (Zdigits2 (Z.pos p)) in Hez.
  rewrite fexp64_eq in Hez.
  assert (Hsh : 0 <= e - ez) by lia.
  apply bra64_below; try lia.
  rewrite Hmz, Zdigits2_mul_pow2 by lia. lia.
Qed.

Lemma binary_normalize_below m e k :
  Zdigits2 m + e <= k -> -1074 <= k <= 1023 ->
  below (k + 1) (binary_normalize F64.prec F64.emax m e false).
Proof.
  intros Hk Hr. destruct m as [|p|p]; cbn [binary_normalize]; [exact I|..];
    apply binary_round_below; assumption.
Qed.

Lemma of_Z_below z k :
  0 <= k <= 1023 -> Z.abs z < 2 ^ k -> below (k + 1) (F64.of_Z z).
Proof.
  intros Hk Hz. unfold F64.of_Z. apply binary_normalize_below; [|lia].
  rewrite Z.add_0_r.
  replace (Zdigits2 z) with (Zdigits2 (Z.abs z)) by (destruct z; reflexivity).
  apply Zdigits2_le; lia.
Qed.

Lemma opp_below k x : below k x -> below k (F64.opp x).
Proof. destruct x; cbn; auto. Qed.

Lemma abs_below k x : below k x -> below k (F64.abs x).
Proof. destruct x; cbn; auto. Qed.

Lemma Zdigits2_mul a b : 0 <= a -> 0 <= b -> Zdigits2 (a * b) <= Zdigits2 a + Zdigits2 b.
Proof.
  intros Ha Hb.
  pose proof (Zdigits2_nonneg a). pose proof (Zdigits2_nonneg b).
  apply Zdigits2_le; [nia|lia|].
  rewrite Z.pow_add_r by lia.
  pose proof (Zdigits2_lt_pow a (Zdigits2 a) Ha ltac:(lia)).
  pose proof (Zdigits2_lt_pow b (Zdigits2 b) Hb ltac:(lia)).
  nia.
Qed.

Lemma mul_below a b x y :
  below a x -> below b y -> -1074 <= a + b <= 973 ->
  below (a + b + 1) (F64.mul x y).
Proof.
  intros Hx Hy Hr.
  destruct x as [sx|sx| |sx mx ex], y as [sy|sy| |sy my ey]; cbn [below] in Hx, Hy;
    try contradiction; try exact I.
  unfold F64.mul, SFmul.
  assert (Hdx : 0 < Z.pos (digits2_pos mx)) by lia.
  assert (Hdy : 0 < Z.pos (digits2_pos my)) by lia.
  assert (H : Zdigits2 (Z.pos (mx * my)) <= Zdigits2 (Z.pos mx) + Zdigits2 (Z.pos my))
    by (rewrite Pos2Z.inj_mul; apply Zdigits2_mul; lia).
  change (Zdigits2 (Z.pos mx)) with (Z.pos (digits2_pos mx)) in H.
  change (Zdigits2 (Z.pos my)) with (Z.pos (digits2_pos my)) in H.
  apply bra64_below; lia.
Qed.

Lemma Zdigits2_abs z : Zdigits2 (Z.abs z) = Zdigits2 z.
Proof. destruct z; reflexivity. Qed.

(** The sum of two aligned mantissas. *)
Lemma aligned_sum_below sx mx ex sy my ey a b (opy : Z -> Z) :
  (forall v, Z.abs (opy v) = Z.abs v) ->
  Z.pos (digits2_pos mx) + ex <= a -> Z.pos (digits2_pos my) + ey <= b ->
  let ez := Z.min ex ey in
  Zdigits2 (cond_Zopp sx (Z.pos (fst (shl_align mx ex ez))) +
            opy (cond_Zopp sy (Z.pos (fst (shl_align my ey ez))))) + ez
    <= Z.max a b + 1.
Proof.
  intros Hop Hx Hy ez.
  pose proof (shl_align_spec mx ex ez) as H1.
  pose proof (shl_align_spec my ey ez) as H2.
  destruct (shl_align mx ex ez) as [mx' ex'], (shl_align my ey ez) as [my' ey'].
  cbn [fst]. destruct H1 as [E1 M1], H2 as [E2 M2].
  assert (Hex : ex' = ez) by (subst ez; lia).
  assert (Hey : ey' = ez) by (subst ez; lia).
  rewrite Hex in M1. rewrite Hey in M2. clear E1 E2 Hex Hey.
  set (v := cond_Zopp sx (Z.pos mx') + opy (cond_Zopp sy (Z.pos my'))).
  rewrite <- Zdigits2_abs.
  assert (Hv : Z.abs v <= Z.pos mx' + Z.pos my').
  { subst v. specialize (Hop (cond_Zopp sy (Z.pos my'))).
    assert (Z.abs (cond_Zopp sy (Z.pos my')) = Z.pos my') by (destruct sy; cbn; lia).
    assert (Z.abs (cond_Zopp sx (Z.pos mx')) = Z.pos mx') by (destruct sx; cbn; lia).
    lia. }
  assert (Hdx : Zdigits2 (Z.pos mx') = Z.pos (digits2_pos mx) + (ex - ez))
    by (rewrite M1; apply (Zdigits2_mul_pow2 (Z.pos mx)); subst ez; lia).
  assert (Hdy : Zdigits2 (Z.pos my') = Z.pos (digits2_pos my) + (ey - ez))
    by (rewrite M2; apply (Zdigits2_mul_pow2 (Z.pos my)); subst ez; lia).
  set (c := Z.max a b - ez).
  assert (Hc : 0 <= c) by (subst c; lia).
  assert (Z.pos mx' < 2 ^ c).
  { apply Zdigits2_lt_pow; [lia|]. subst c. lia. }
  assert (Z.pos my' < 2 ^ c).
  { apply Zdigits2_lt_pow; [lia|]. subst c. lia. }
  assert (Zdigits2 (Z.abs v) <= c + 1).
  { apply Zdigits2_le; [lia|lia|]. rewrite Z.pow_add_r by lia. lia. }
  subst c. lia.
Qed.

Lemma add_below a b x y :
  below a x -> below b y -> -1074 <= Z.max a b + 1 <= 1023 ->
  below (Z.max a b + 2) (F64.add x y).
Proof.
  intros Hx Hy Hr.
  destruct x as [sx|sx| |sx mx ex], y as [sy|sy| |sy my ey]; cbn [below] in Hx, Hy;
    try contradiction.
  - unfold F64.add, SFadd. destruct sx, sy; exact I.
  - cbn [F64.add F64.sub SFadd SFsub below negb] in *. lia.
  - cbn [F64.add F64.sub SFadd SFsub below negb] in *. lia.
  - unfold F64.add, SFadd.
    replace (Z.max a b + 2) with (Z.max a b + 1 + 1) by lia.
    apply binary_normalize_below; [|lia].
    apply (aligned_sum_below sx mx ex sy my ey a b (fun v => v)); auto.
Qed.

Lemma sub_below a b x y :
  below a x -> below b y -> -1074 <= Z.max a b + 1 <= 1023 ->
  below (Z.max a b + 2) (F64.sub x y).
Proof.
  intros Hx Hy Hr.
  destruct x as [sx|sx| |sx mx ex], y as [sy|sy| |sy my ey]; cbn [below] in Hx, Hy;
    try contradiction.
  - unfold F64.sub, SFsub. destruct sx, sy; exact I.
  - cbn [F64.add F64.sub SFadd SFsub below negb] in *. lia.
  - cbn [F64.add F64.sub SFadd SFsub below negb] in *. lia.
  - unfold F64.sub, SFsub.
    replace (Z.max a b + 2) with (Z.max a b + 1 + 1) by lia.
    apply binary_normalize_below; [|lia].
    rewrite <- Z.add_opp_r.
    apply (aligned_sum_below sx mx ex sy my ey a b Z.opp); auto.
    intros v. apply Z.abs_opp.
Qed.

(** *** Quotients of integers *)

Lemma div_eucl_div_mod a b : Z.div_eucl a b = (a / b, a mod b).
Proof. unfold Z.div, Z.modulo. now destruct (Z.div_eucl a b). Qed.

Lemma new_location_zero n : new_location n 0 = loc_Exact.
Proof. unfold new_location. destruct (Z.even n); reflexivity. Qed.

Lemma ratio_same n : 0 < n -> F64.ratio n n = F64.one.
Proof.
  intros Hn. unfold F64.ratio. destruct n as [|p|p]; try lia.
  unfold SFdiv_core_binary. cbn [Z.abs].
  replace (Zdigits2 (Z.pos p) + 0 - (Zdigits2 (Z.pos p) + 0)) with 0 by lia.
  change (Z.min (fexp64 0) (0 - 0)) with (-53). change (0 - 0 - -53) with 53.
  cbv iota. rewrite Z.shiftl_mul_pow2 by lia.
  rewrite div_eucl_div_mod.
  rewrite Z.mul_comm, Z.div_mul, Z.mod_mul by lia.
  rewrite new_location_zero. reflexivity.
Qed.

Lemma ratio_zero n : 0 < n -> F64.ratio 0 n = F64.zero.
Proof. intros Hn. unfold F64.ratio. now destruct n. Qed.

(** A quotient [a / b] with [0 <= a <= b] is finite and at most 1. *)
Lemma ratio_below a b : 0 <= a <= b -> 0 < b -> below 2 (F64.ratio a b).
Proof.
  intros Ha Hb. unfold F64.ratio.
  destruct a as [|pa|pa]; [exact I| |lia].
  rewrite (Z.abs_eq (Z.pos pa)), (Z.abs_eq b) by lia.
  unfold SFdiv_core_binary. rewrite !Z.add_0_r, Z.sub_0_r.
  set (d1 := Zdigits2 (Z.pos pa)). set (d2 := Zdigits2 b).
  assert (Hd : d1 <= d2) by (apply Zdigits2_mono; lia).
  assert (Hd1 : 0 < d1) by (apply Zdigits2_pos; lia).
  set (e' := Z.min (fexp64 (d1 - d2)) 0).
  assert (He' : e' <= -53) by (subst e'; rewrite fexp64_eq; lia).
  assert (He'' : -1074 <= e') by (subst e'; rewrite fexp64_eq; lia).
  replace (0 - e') with (- e') by lia.
  destruct (- e') as [|s|s] eqn:Es; try lia.
  rewrite Z.shiftl_mul_pow2 by lia. rewrite div_eucl_div_mod.
  replace 2 with (1 + 1) at 1 by lia.
  assert (Hq : 0 <= Z.pos pa * 2 ^ Z.pos s / b <= 2 ^ Z.pos s).
  { assert (0 < 2 ^ Z.pos s) by (apply Z.pow_pos_nonneg; lia).
    split; [apply Z.div_pos; nia|].
    apply Z.div_le_upper_bound; [lia|]. nia. }
  apply bra64_below; try lia.
  assert (Zdigits2 (Z.pos pa * 2 ^ Z.pos s / b) <= Z.pos s + 1).
  { apply Zdigits2_le; [lia|lia|]. rewrite Z.pow_add_r by lia. lia. }
  lia.
Qed.

Lemma int_truediv_unit i n :
  0 <= i <= n -> 1 <= n ->
  exists t, Py.int_truediv i n = Ok t /\ below 2 t /\
            (i = 0 -> t = F64.zero) /\ (i = n -> t = F64.one).
Proof.
  intros Hi Hn. unfold Py.int_truediv.
  destruct (n =? 0) eqn:E; [apply Z.eqb_eq in E; lia|].
  pose proof (ratio_below i n Hi ltac:(lia)) as Hb.
  rewrite (below_finite _ _ Hb).
  eexists. split; [reflexivity|]. split; [exact Hb|]. split.
  - intros ->. apply ratio_zero. lia.
  - intros ->. apply ratio_same. lia.
Qed.

(** *** Square roots *)

Lemma bra64_sign m e l : 0 <= m -> F64.sign (bra64 false m e l) = false.
Proof.
  intros Hm. destruct (bra64_spec false m e l Hm) as (l1 & _ & H). cbv zeta in H.
  rewrite H.
  match goal with |- F64.sign (match ?x with _ => _ end) = _ => destruct x end;
    try reflexivity.
  match goal with |- F64.sign (if ?b then _ else _) = _ => destruct b end; reflexivity.
Qed.

Lemma of_Z_sign n : 0 <= n -> F64.sign (F64.of_Z n) = false.
Proof.
  intros Hn. destruct n as [|p|p]; [reflexivity| |lia].
  unfold F64.of_Z, binary_normalize, binary_round.
  destruct (shl_align _ _ _) as [mz ez]. apply bra64_sign. lia.
Qed.

Lemma sqrtrem_spec m :
  0 <= m ->
  let '(q, r) := Z.sqrtrem m in m = q * q + r /\ 0 <= r <= 2 * q.
Proof. intros H. exact (Z.sqrtrem_spec m H). Qed.

(** The square root of a finite non-negative value is finite. *)
Lemma sqrt_below a x :
  below a x -> F64.sign x = false -> -2148 <= a <= 1943 ->
  below (Z.max (-1074) ((a + 1) / 2) + 1) (F64.sqrt x).
Proof.
  intros Hx Hs Ha.
  destruct x as [sx|sx| |sx mx ex]; cbn [below] in Hx; try contradiction; [exact I|].
  cbn [F64.sign] in Hs. subst sx.
  unfold F64.sqrt, SFsqrt, SFsqrt_core_binary.
  set (d := Zdigits2 (Z.pos mx)).
  assert (Hd : 0 < d) by (apply Zdigits2_pos; lia).
  change (Z.pos (digits2_pos mx)) with d in Hx.
  remember (Z.min (fexp64 (Z.div2 (d + ex + 1))) (Z.div2 ex)) as e' eqn:Ee'.
  rewrite !Z.div2_div, fexp64_eq in Ee'.
  assert (He' : 2 * e' <= ex) by (pose proof (Z.mul_div_le ex 2); lia).
  assert (He'lo : e' + (d + (ex - 2 * e') + 1) / 2 <= (a + 1) / 2).
  { replace (d + (ex - 2 * e') + 1) with (d + ex + 1 + (- e') * 2) by lia.
    rewrite Z.div_add by lia.
    assert ((d + ex + 1) / 2 <= (a + 1) / 2) by (apply Z.div_le_mono; lia).
    lia. }
  set (s := ex - 2 * e') in *.
  assert (Hs0 : 0 <= s) by (subst s; lia).
  set (m' := match s with
             | Z.pos _ => Z.shiftl (Z.pos mx) s
             | 0 => Z.pos mx
             | Z.neg _ => 0
             end).
  assert (Hm' : m' = Z.pos mx * 2 ^ s).
  { subst m'. destruct s as [|p|p] eqn:Es; [lia| |lia].
    now rewrite Z.shiftl_mul_pow2 by lia. }
  assert (Hm'pos : 0 < m') by (rewrite Hm'; apply Z.mul_pos_pos; [lia|apply Z.pow_pos_nonneg; lia]).
  pose proof (sqrtrem_spec m' ltac:(lia)) as Hq.
  destruct (Z.sqrtrem m') as [q r]. destruct Hq as [Hq Hr].
  assert (Hdm' : Zdigits2 m' = d + s) by (rewrite Hm'; apply Zdigits2_mul_pow2; lia).
  assert (Hqd : Zdigits2 q <= (d + s + 1) / 2).
  { assert (0 <= (d + s + 1) / 2) by (apply Z.div_pos; lia).
    apply Zdigits2_le; [lia|lia|].
    pose proof (Zdigits2_lt_pow m' (d + s) ltac:(lia) ltac:(lia)) as Hlt.
    assert (2 ^ (d + s) <= 2 ^ ((d + s + 1) / 2) * 2 ^ ((d + s + 1) / 2)).
    { rewrite <- Z.pow_add_r by lia. apply Z.pow_le_mono_r; [lia|].
      pose proof (Z.div_mod (d + s + 1) 2 ltac:(lia)).
      pose proof (Z.mod_pos_bound (d + s + 1) 2 ltac:(lia)). lia. }
    assert (0 < 2 ^ ((d + s + 1) / 2)) by (apply Z.pow_pos_nonneg; lia).
    nia. }
  assert (ex / 2 <= 971) by (apply Z.div_le_upper_bound; lia).
  assert ((a + 1) / 2 <= 1023) by (apply Z.div_le_upper_bound; lia).
  clearbody m'.
  apply bra64_below; lia.
Qed.

Lemma math_sqrt_below n k :
  0 <= n < 2 ^ k -> 0 <= k <= 1023 ->
  exists d, Py.math_sqrt n = Ok d /\ below (k / 2 + 3) d.
Proof.
  intros Hn Hk. unfold Py.math_sqrt, Py.float_of_int.
  pose proof (of_Z_below n k Hk ltac:(lia)) as Hb.
  rewrite (below_finite _ _ Hb), (of_Z_sign n) by lia.
  eexists. split; [reflexivity|].
  eapply below_mono.
  - apply sqrt_below; [exact Hb|apply of_Z_sign; lia|lia].
  - replace (k + 1 + 1) with (k + 1 * 2) by lia. rewrite Z.div_add by lia.
    assert (0 <= k / 2) by (apply Z.div_pos; lia). lia.
Qed.

(** *** Comparing a square root with an integer *)

Lemma of_Z_normal z :
  0 < z < 2 ^ 53 ->
  exists M E,
    F64.of_Z z = S754_finite false M E /\
    2 ^ 52 <= Z.pos M < 2 ^ 53 /\
    E = Zdigits2 z - 53 /\ -52 <= E <= 0 /\
    Z.pos M = z * 2 ^ (- E).
Proof.
  intros Hz. rewrite of_Z_exact by lia.
  rewrite (Z.abs_eq z) by lia.
  set (d := Zdigits2 z).
  assert (Hd : d <= 53) by (apply Zdigits2_le; lia).
  assert (Hdp : 0 < d) by (apply Zdigits2_pos; lia).
  assert (Hb : 2 ^ (d - 1) <= z < 2 ^ d) by (apply Zdigits2_bounds; lia).
  pose proof (normalize_bounds z d ltac:(lia) Hb) as Hn.
  exists (Z.to_pos (z * 2 ^ (53 - d))), (d - 53).
  destruct (z <? 0) eqn:C; [apply Z.ltb_lt in C; lia|].
  rewrite Z2Pos.id by lia.
  repeat split; try lia. f_equal. f_equal. lia.
Qed.

Lemma leb_normal M1 E1 M2 E2 :
  F64.leb (S754_finite false M1 E1) (S754_finite false M2 E2) = true ->
  E1 < E2 \/ (E1 = E2 /\ Z.pos M1 <= Z.pos M2).
Proof.
  unfold F64.leb, SFleb, SFcompare.
  destruct (Z.compare_spec E1 E2) as [He|He|He]; intros H.
  - right. split; [assumption|].
    change (Pos.compare_cont Eq M1 M2) with (Pos.compare M1 M2) in H.
    destruct (Pos.compare_spec M1 M2); try discriminate; lia.
  - left. assumption.
  - discriminate.
Qed.

Lemma sqrt_bounds q r m' a :
  m' = q * q + r -> 0 <= r <= 2 * q -> 0 <= a ->
  2 ^ (2 * a) <= m' < 2 ^ (2 * a + 2) -> 2 ^ a <= q < 2 ^ (a + 1).
Proof.
  intros Hq Hr Ha Hm.
  assert (Hp : 0 < 2 ^ a) by (apply Z.pow_pos_nonneg; lia).
  assert (E1 : 2 ^ (2 * a) = 2 ^ a * 2 ^ a)
    by (rewrite <- Z.pow_add_r by lia; f_equal; lia).
  assert (E2 : 2 ^ (2 * a + 2) = 2 ^ (a + 1) * 2 ^ (a + 1))
    by (rewrite <- Z.pow_add_r by lia; f_equal; lia).
  assert (E3 : 2 ^ (a + 1) = 2 * 2 ^ a) by (rewrite Z.pow_add_r by lia; lia).
  split; nia.
Qed.

(** The square root of an exactly represented integer, before rounding:
    [q] is the integer square root of [n] scaled by [4^(-e)], with
    remainder [r]. *)
Lemma sqrt_of_Z_form n :
  0 < n < 2 ^ 53 ->
  exists e q r,
    -52 <= e <= -26 /\
    n * 2 ^ (- 2 * e) = q * q + r /\ 0 <= r <= 2 * q /\
    2 ^ 52 <= q < 2 ^ 53 /\
    F64.sqrt (F64.of_Z n) =
      bra64 false q e (if r =? 0 then loc_Exact
                       else loc_Inexact (if r <=? q then Lt else Gt)).
Proof.
  intros Hn.
  destruct (of_Z_normal n Hn) as (M & E & HM & HMb & _ & HE & HMv).
  rewrite HM. unfold F64.sqrt, SFsqrt, SFsqrt_core_binary.
  assert (Hd : Zdigits2 (Z.pos M) = 53) by (apply Zdigits2_unique; lia).
  rewrite Hd, !Z.div2_div, fexp64_eq.
  replace (53 + E + 1) with (E + 27 * 2) by lia. rewrite Z.div_add by lia.
  pose proof (Z.div_mod E 2 ltac:(lia)) as Hdm.
  pose proof (Z.mod_pos_bound E 2 ltac:(lia)) as Hmod.
  set (h := E / 2) in *.
  replace (Z.min (Z.max (h + 27 - 53) (-1074)) h) with (h - 26) by lia.
  set (e := h - 26).
  set (s := E - 2 * e).
  assert (Hs : 52 <= s <= 53) by (subst s e; lia).
  destruct s as [|ps|ps] eqn:Es; try lia. rewrite <- Es.
  rewrite Z.shiftl_mul_pow2 by lia.
  set (m' := Z.pos M * 2 ^ s).
  assert (Hm' : m' = n * 2 ^ (- 2 * e)).
  { subst m'. rewrite HMv, <- Z.mul_assoc, <- Z.pow_add_r by lia.
    f_equal. f_equal. lia. }
  assert (Hm'b : 2 ^ (2 * 52) <= m' < 2 ^ (2 * 52 + 2)).
  { subst m'.
    assert (Hp : 0 < 2 ^ s) by (apply Z.pow_pos_nonneg; lia).
    assert (2 ^ 52 <= 2 ^ s <= 2 ^ 53)
      by (split; apply Z.pow_le_mono_r; lia).
    change (2 ^ (2 * 52)) with (2 ^ 52 * 2 ^ 52).
    change (2 ^ (2 * 52 + 2)) with (2 ^ 53 * 2 ^ 53).
    split; nia. }
  pose proof (sqrtrem_spec m' ltac:(lia)) as Hq.
  destruct (Z.sqrtrem m') as [q r]. destruct Hq as [Hq Hr].
  pose proof (sqrt_bounds q r m' 52 Hq Hr ltac:(lia) Hm'b) as Hqb.
  exists e, q, r. rewrite <- Hm'.
  repeat split; try lia; subst e; lia.
Qed.

(** If [math.sqrt(n) >= m] holds in floating point, then [m * m <= n],
    for [n] below [2^53] and [m] up to [2^26]. *)
Lemma sqrt_ge_sound n m d :
  0 <= n < 2 ^ 53 -> 0 <= m <= 2 ^ 26 ->
  Py.math_sqrt n = Ok d -> Py.float_ge_int d m = true -> m * m <= n.
Proof.
  intros Hn Hm Hs Hge.
  destruct (Z.eq_dec m 0) as [->|Hm0]; [lia|].
  unfold Py.math_sqrt in Hs. rewrite float_of_int_exact in Hs by lia.
  rewrite of_Z_sign in Hs by lia. inversion Hs; subst d; clear Hs.
  unfold Py.float_ge_int in Hge.
  destruct (of_Z_normal m ltac:(lia)) as (Mm & Em & HMm & HMmb & HEm & HEmr & HMmv).
  rewrite HMm in Hge.
  assert (HEm26 : Em <= -26).
  { rewrite HEm. assert (Zdigits2 m <= 27); [|lia].
    apply Zdigits2_le; lia. }
  destruct (Z.eq_dec n 0) as [->|Hn0].
  { exfalso. revert Hge. cbn. discriminate. }
  destruct (sqrt_of_Z_form n ltac:(lia)) as (e & q & r & He & Hq & Hr & Hqb & Hsq).
  rewrite Hsq in Hge. clear Hsq.
  rewrite bra64_normal in Hge by lia.
  set (P := 2 ^ (- e)) in *.
  assert (HP : 2 ^ 26 <= P) by (subst P; apply Z.pow_le_mono_r; lia).
  assert (HPP : 2 ^ (- 2 * e) = P * P)
    by (subst P; rewrite <- Z.pow_add_r by lia; f_equal; lia).
  rewrite HPP in Hq.
  (* the rounded mantissa: q, or q + 1 when the remainder is above q *)
  set (l := if r =? 0 then loc_Exact else loc_Inexact (if r <=? q then Lt else Gt)) in *.
  assert (Hm2 : round_nearest_even q l = q \/
                (round_nearest_even q l = q + 1 /\ q < r)).
  { subst l. destruct (r =? 0); [left; reflexivity|].
    destruct (r <=? q) eqn:C; [left; reflexivity|].
    right. apply Z.leb_gt in C. split; [reflexivity|lia]. }
  set (m2 := round_nearest_even q l) in *.
  (* m * P <= m2, by cases on the exponents *)
  assert (Hmu : m * P <= m2).
  { assert (HmP : Em <= e -> Z.pos Mm = m * P * 2 ^ (e - Em)).
    { intros Hle. rewrite HMmv. subst P. rewrite <- Z.mul_assoc, <- Z.pow_add_r by lia.
      f_equal. f_equal. lia. }
    assert (HmP0 : 0 <= m * P)
      by (subst P; apply Z.mul_nonneg_nonneg; [lia|apply Z.pow_nonneg; lia]).
    destruct (m2 <? 2 ^ 53) eqn:C.
    - apply Z.ltb_lt in C.
      apply leb_normal in Hge. rewrite Z2Pos.id in Hge by lia.
      destruct Hge as [Hlt|[Heq Hle]].
      + assert (2 <= 2 ^ (e - Em))
          by (change 2 with (2 ^ 1) at 1; apply Z.pow_le_mono_r; lia).
        specialize (HmP ltac:(lia)). nia.
      + specialize (HmP ltac:(lia)).
        rewrite <- Heq, Z.sub_diag, Z.mul_1_r in HmP. lia.
    - apply Z.ltb_ge in C.
      apply leb_normal in Hge.
      destruct Hge as [Hlt|[Heq Hle]].
      + assert (1 <= 2 ^ (e - Em))
          by (change 1 with (2 ^ 0) at 1; apply Z.pow_le_mono_r; lia).
        specialize (HmP ltac:(lia)). nia.
      + assert (Em = e + 1) by lia.
        assert (Z.pos Mm = 2 ^ 52) by (change (Z.pos 4503599627370496) with (2 ^ 52) in Hle; lia).
        assert (m * P = 2 * Z.pos Mm).
        { rewrite HMmv. subst P. replace (- e) with (- Em + 1) by lia.
          rewrite Z.pow_add_r by lia. lia. }
        lia. }
  clearbody m2 l P.
  destruct Hm2 as [E2|[E2 Hrq]]; rewrite E2 in Hmu.
  - assert (m * P * (m * P) <= q * q) by nia.
    assert (0 < P) by lia. nia.
  - destruct (Z_le_gt_dec (m * P) q) as [Hle|Hgt].
    + assert (m * P * (m * P) <= q * q) by nia.
      assert (0 < P) by lia. nia.
    + assert (Hmq : m * P = q + 1) by lia.
      destruct (Z_le_gt_dec (m * m) n) as [|Hbad]; [assumption|exfalso].
      assert (0 < P) by lia.
      assert (H1 : (n + 1) * (P * P) <= m * P * (m * P)) by nia.
      assert (H2 : q + 1 <= P * P) by nia.
      nia.
Qed.

(** ** Position sampler: small movements *)

Lemma randint_range P a b w x w' :
  randint P a b w = (Ok x, w') -> a <= x <= b.
Proof.
  unfold randint. destruct (b <? a) eqn:C; [discriminate|]. apply Z.ltb_ge in C.
  unfold tick. destruct (interrupted P (ticks w)); [discriminate|].
  intros H. inversion H; subst.
  pose proof (Z.mod_pos_bound (entropy P (ticks w)) (b - a + 1) ltac:(lia)). lia.
Qed.

Lemma get_next_position_range P max_x max_y min_x min_y w x y w' :
  get_next_position P max_x max_y min_x min_y w = (Ok (x, y), w') ->
  min_x <= x <= max_x /\ min_y <= y <= max_y.
Proof.
  unfold get_next_position.
  destruct (max_x <=? min_x); [discriminate|].
  destruct (max_y <=? min_y); [discriminate|].
  intros H. apply bind_ok_inv in H. destruct H as (x0 & w1 & H1 & H2).
  apply bind_ok_inv in H2. destruct H2 as (y0 & w2 & H2 & H3).
  inversion H3; subst.
  apply randint_range in H1. apply randint_range in H2. lia.
Qed.

Lemma square_le_square a b : Z.abs a <= b -> 0 <= a ^ 2 <= b * b.
Proof.
  intros H. rewrite Z.pow_2_r. rewrite <- (Z.abs_square a).
  split; [apply Z.mul_nonneg_nonneg; lia|].
  apply Z.mul_le_mono_nonneg; lia.
Qed.

(** A returned point was drawn from the window and passed the distance
    test of the source. *)
Lemma small_movement_loop_returns P cfg cx cy min_x min_y max_x max_y :
  forall n w x y w',
    small_movement_loop P cfg n cx cy min_x min_y max_x max_y w = (Ok (x, y), w') ->
    (min_x <= x <= max_x /\ min_y <= y <= max_y) /\
    exists d, Py.math_sqrt ((x - cx) ^ 2 + (y - cy) ^ 2) = Ok d /\
              Py.float_ge_int d (fst (SMALL_MOVEMENT_RANGE cfg)) = true.
Proof.
  induction n as [|n IH]; intros w x y w' H; cbn [small_movement_loop] in H;
    [discriminate|].
  apply bind_ok_inv in H. destruct H as ([tx ty] & w1 & H1 & H2).
  apply bind_ok_inv in H2. destruct H2 as (d & w2 & H2 & H3).
  unfold lift in H2. inversion H2; subst w2. clear H2. rename H0 into Hd.
  destruct (Py.float_ge_int d (fst (SMALL_MOVEMENT_RANGE cfg))) eqn:Hge.
  - inversion H3; subst. split; [exact (get_next_position_range _ _ _ _ _ _ _ _ _ H1)|].
    exists d. auto.
  - exact (IH _ _ _ _ H3).
Qed.

(** C7. A point returned by [get_small_movement_position] lies in the
    square window of half-width [SMALL_MOVEMENT_RANGE[1]] around the current
    position, clamped to the screen, and its Euclidean distance from the
    current position is at least [SMALL_MOVEMENT_RANGE[0]] (stated on the
    squares); for (400, 300), range (50, 200) and an 800 x 600 screen the
    squared distance lies between [50^2] and [200^2 + 200^2] (about
    [283^2]).  Coordinates are bounded by [2^24] and the minimum distance by
    [2^26], so that the squared distance is exact in binary64. *)
Theorem small_movement_position_sound P cfg n current_x current_y w x y w' :
  Z.abs current_x <= 2 ^ 24 -> Z.abs current_y <= 2 ^ 24 ->
  fst (screen P) <= 2 ^ 24 -> snd (screen P) <= 2 ^ 24 ->
  0 <= fst (SMALL_MOVEMENT_RANGE cfg) <= 2 ^ 26 ->
  get_small_movement_position P cfg n current_x current_y w = (Ok (x, y), w') ->
  let radius := snd (SMALL_MOVEMENT_RANGE cfg) in
  let min_distance := fst (SMALL_MOVEMENT_RANGE cfg) in
  (Z.max 0 (current_x - radius) <= x <= Z.min (fst (screen P)) (current_x + radius) /\
   Z.max 0 (current_y - radius) <= y <= Z.min (snd (screen P)) (current_y + radius)) /\
  min_distance * min_distance <= (x - current_x) ^ 2 + (y - current_y) ^ 2 /\
  (SMALL_MOVEMENT_RANGE cfg = (50, 200) -> screen P = (800, 600) ->
   (current_x, current_y) = (400, 300) ->
   50 ^ 2 <= (x - 400) ^ 2 + (y - 300) ^ 2 <= 200 ^ 2 + 200 ^ 2 /\
   200 ^ 2 + 200 ^ 2 < 283 ^ 2).
Proof.
  intros Hcx Hcy Hsw Hsh Hmin H radius min_distance.
  unfold get_small_movement_position in H.
  apply bind_ok_inv in H. destruct H as ([] & w1 & _ & H).
  apply bind_ok_inv in H. destruct H as ([sw sh] & w2 & Hdim & H).
  assert (Hscreen : (sw, sh) = screen P).
  { revert Hdim. unfold controller_get_screen_dimensions, platform_call, tick.
    destruct (interrupted P (ticks w1)); [discriminate|].
    destruct (fault P (ticks w1)); [discriminate|]. intros E; now inversion E. }
  rewrite <- Hscreen in *. cbn [fst snd] in *.
  apply small_movement_loop_returns in H.
  destruct H as ((Hx & Hy) & d & Hsqrt & Hge).
  fold radius in Hx, Hy.
  assert (Hdx : Z.abs (x - current_x) <= 2 ^ 25) by lia.
  assert (Hdy : Z.abs (y - current_y) <= 2 ^ 25) by lia.
  assert (Hn : 0 <= (x - current_x) ^ 2 + (y - current_y) ^ 2 < 2 ^ 53).
  { pose proof (square_le_square _ _ Hdx). pose proof (square_le_square _ _ Hdy).
    change (2 ^ 25 * 2 ^ 25) with (2 ^ 50) in *.
    change (2 ^ 53) with (8 * 2 ^ 50).
    generalize dependent ((x - current_x) ^ 2). generalize dependent ((y - current_y) ^ 2).
    intros; lia. }
  split; [split; assumption|]. split.
  - exact (sqrt_ge_sound _ _ _ Hn Hmin Hsqrt Hge).
  - intros Hrange Hscr Hcur. inversion Hcur; subst current_x current_y.
    pose proof (sqrt_ge_sound _ _ _ Hn Hmin Hsqrt Hge) as Hd.
    subst radius min_distance. rewrite Hrange in *. cbn [fst snd] in *.
    inversion Hscr; subst sw sh.
    split; [|reflexivity]. split; [exact Hd|].
    pose proof (square_le_square (x - 400) 200 ltac:(lia)).
    pose proof (square_le_square (y - 300) 200 ltac:(lia)).
    change (200 ^ 2) with (200 * 200). lia.
Qed.

Lemma small_movement_position_sound_witness :
  (Z.abs 400 <= 2 ^ 24 /\ Z.abs 300 <= 2 ^ 24 /\
   fst (screen (quiet_platform (400, 300) (fun _ => 0))) <= 2 ^ 24 /\
   snd (screen (quiet_platform (400, 300) (fun _ => 0))) <= 2 ^ 24 /\
   0 <= fst (SMALL_MOVEMENT_RANGE default_config) <= 2 ^ 26 /\
   fst (get_small_movement_position (quiet_platform (400, 300) (fun _ => 0))
          default_config 1 400 300 boot) = Ok (200, 100)) /\
  50 * 50 <= (200 - 400) ^ 2 + (100 - 300) ^ 2.
Proof.
  assert (E : get_small_movement_position (quiet_platform (400, 300) (fun _ => 0))
                default_config 1 400 300 boot =
              (Ok (200, 100), {| ticks := 4; log := [] |}))
    by (vm_compute; reflexivity).
  split.
  - rewrite E. repeat split; cbn; lia.
  - exact (proj1 (proj2 (small_movement_position_sound
             (quiet_platform (400, 300) (fun _ => 0)) default_config 1 400 300 boot
             200 100 {| ticks := 4; log := [] |}
             ltac:(cbn; lia) ltac:(cbn; lia) ltac:(cbn; lia) ltac:(cbn; lia)
             ltac:(cbn; lia) E))).
Defined.

(** ** Curved generator *)

(** *** Zeros *)

Lemma is_zero_finite z : F64.is_zero z = true -> F64.is_finite z = true.
Proof. destruct z; cbn; congruence. Qed.

Lemma mul_zero_l z x :
  F64.is_zero z = true -> F64.is_finite x = true -> F64.is_zero (F64.mul z x) = true.
Proof. destruct z, x; cbn; congruence. Qed.

Lemma mul_zero_r x z :
  F64.is_finite x = true -> F64.is_zero z = true -> F64.is_zero (F64.mul x z) = true.
Proof. destruct z, x; cbn; congruence. Qed.

Lemma add_zero_zero a b :
  F64.is_zero a = true -> F64.is_zero b = true -> F64.is_zero (F64.add a b) = true.
Proof. destruct a as [[]| | |], b as [[]| | |]; cbn; congruence. Qed.

Lemma sub_zero_zero a b :
  F64.is_zero a = true -> F64.is_zero b = true -> F64.is_zero (F64.sub a b) = true.
Proof. destruct a as [[]| | |], b as [[]| | |]; cbn; congruence. Qed.

Lemma opp_zero z : F64.is_zero z = true -> F64.is_zero (F64.opp z) = true.
Proof. destruct z; cbn; congruence. Qed.

Lemma add_zero_r x z :
  F64.is_finite x = true -> F64.is_zero z = true ->
  F64.is_finite (F64.add x z) = true /\ F64.trunc (F64.add x z) = F64.trunc x.
Proof. destruct x as [[]| | |], z as [[]| | |]; cbn; try congruence; auto. Qed.

Lemma add_zero_l z x :
  F64.is_zero z = true -> F64.is_finite x = true ->
  F64.is_finite (F64.add z x) = true /\ F64.trunc (F64.add z x) = F64.trunc x.
Proof. destruct x as [[]| | |], z as [[]| | |]; cbn; try congruence; auto. Qed.

Lemma add_zero_r_below k x z :
  below k x -> F64.is_zero z = true -> below k (F64.add x z).
Proof. destruct x as [[]| | |], z as [[]| | |]; cbn [below F64.add SFadd F64.is_zero]; try congruence; auto. Qed.

Lemma of_Z_finite z : Z.abs z < 2 ^ 53 -> F64.is_finite (F64.of_Z z) = true.
Proof.
  intros H. destruct (Z.eq_dec z 0) as [->|Hz]; [reflexivity|].
  now rewrite of_Z_exact.
Qed.

(** *** Powers *)

Section Pow.

Variable pw : spec_float -> spec_float -> spec_float.
Hypothesis Hpw : pow_sane pw.

Lemma float_pow_below x n :
  n = 2 \/ n = 3 -> below 4 x ->
  exists r, Py.float_pow pw x n = Ok r /\ below 32 r.
Proof.
  intros Hn Hx. destruct x as [s|s| |s m e]; cbn [below] in Hx; try contradiction.
  - eexists. split; [reflexivity|exact I].
  - unfold Py.float_pow.
    destruct (F64.eqb (F64.abs (S754_finite s m e)) F64.one).
    + eexists. split; [reflexivity|]. destruct (s && Z.odd n); cbn; lia.
    + pose proof (Hpw (F64.abs (S754_finite s m e)) n Hn
                      (abs_below 4 (S754_finite s m e) Hx)) as Hr.
      rewrite (below_finite _ _ Hr).
      eexists. split; [reflexivity|].
      destruct (s && Z.odd n); [apply opp_below|]; exact Hr.
Qed.

Lemma float_pow_zero z n :
  F64.is_zero z = true ->
  exists r, Py.float_pow pw z n = Ok r /\ F64.is_zero r = true.
Proof.
  destruct z; cbn [F64.is_zero]; try discriminate. intros _.
  eexists. split; reflexivity.
Qed.

Lemma float_pow_one n : Py.float_pow pw F64.one n = Ok F64.one.
Proof. reflexivity. Qed.

End Pow.

(** *** One coordinate of the curve *)

Lemma below_three : below 2 F64.three.
Proof. cbn. lia. Qed.

Lemma below_one : below 1 F64.one.
Proof. cbn. lia. Qed.

Section Coord.

Variable P : platform.
Hypothesis Hpw : pow_sane (libm_pow P).

(** Every point of the curve is finite. *)
Lemma bezier_coord_below t start c1 c2 target :
  below 2 t -> Z.abs start < 2 ^ 52 -> Z.abs target < 2 ^ 52 ->
  below 57 c1 -> below 57 c2 ->
  exists v, bezier_coord P t start c1 c2 target = Ok v /\ below 102 v.
Proof.
  intros Ht Hs Htg Hc1 Hc2. unfold bezier_coord.
  assert (Hu : below 4 (F64.sub F64.one t))
    by (apply (sub_below 1 2); [apply below_one|assumption|lia]).
  assert (Ht4 : below 4 t) by (eapply below_mono; [eassumption|lia]).
  destruct (float_pow_below _ Hpw _ 3 ltac:(auto) Hu) as (u3 & -> & Hu3).
  destruct (float_pow_below _ Hpw _ 2 ltac:(auto) Hu) as (u2 & -> & Hu2).
  destruct (float_pow_below _ Hpw _ 2 ltac:(auto) Ht4) as (t2 & -> & Ht2).
  destruct (float_pow_below _ Hpw _ 3 ltac:(auto) Ht4) as (t3 & -> & Ht3).
  rewrite !float_of_int_exact by lia. cbn [rbind].
  eexists. split; [reflexivity|].
  assert (Hfs : below 53 (F64.of_Z start)) by (apply (of_Z_below _ 52); lia).
  assert (Hft : below 53 (F64.of_Z target)) by (apply (of_Z_below _ 52); lia).
  assert (A : below 86 (F64.mul u3 (F64.of_Z start)))
    by (apply (mul_below 32 53); try assumption; lia).
  assert (B1 : below 35 (F64.mul F64.three u2))
    by (apply (mul_below 2 32); try assumption; [apply below_three|lia]).
  assert (B2 : below 38 (F64.mul (F64.mul F64.three u2) t))
    by (apply (mul_below 35 2); try assumption; lia).
  assert (B : below 96 (F64.mul (F64.mul (F64.mul F64.three u2) t) c1))
    by (apply (mul_below 38 57); try assumption; lia).
  assert (C1 : below 7 (F64.mul F64.three (F64.sub F64.one t)))
    by (apply (mul_below 2 4); try assumption; [apply below_three|lia]).
  assert (C2 : below 40 (F64.mul (F64.mul F64.three (F64.sub F64.one t)) t2))
    by (apply (mul_below 7 32); try assumption; lia).
  assert (C : below 98 (F64.mul (F64.mul (F64.mul F64.three (F64.sub F64.one t)) t2) c2))
    by (apply (mul_below 40 57); try assumption; lia).
  assert (D : below 86 (F64.mul t3 (F64.of_Z target)))
    by (apply (mul_below 32 53); try assumption; lia).
  assert (S1 : below 98 (F64.add (F64.mul u3 (F64.of_Z start))
                                 (F64.mul (F64.mul (F64.mul F64.three u2) t) c1)))
    by (apply (add_below 86 96 _ _ A B); lia).
  assert (S2 : below 100 (F64.add
                 (F64.add (F64.mul u3 (F64.of_Z start))
                          (F64.mul (F64.mul (F64.mul F64.three u2) t) c1))
                 (F64.mul (F64.mul (F64.mul F64.three (F64.sub F64.one t)) t2) c2)))
    by (apply (add_below 98 98 _ _ S1 C); lia).
  apply (add_below 100 86 _ _ S2 D). lia.
Qed.

(** At [t = 0] the point is the start. *)
Lemma bezier_coord_start start c1 c2 target :
  Z.abs start < 2 ^ 52 -> Z.abs target < 2 ^ 52 ->
  F64.is_finite c1 = true -> F64.is_finite c2 = true ->
  exists v, bezier_coord P F64.zero start c1 c2 target = Ok v /\
            F64.trunc v = Some start.
Proof.
  intros Hs Htg Hc1 Hc2. unfold bezier_coord.
  change (F64.sub F64.one F64.zero) with F64.one.
  rewrite !float_pow_one. cbn [rbind].
  rewrite !float_of_int_exact by lia. cbn [rbind].
  change (Py.float_pow (libm_pow P) F64.zero 2) with (Ok (A:=spec_float) F64.zero).
  change (Py.float_pow (libm_pow P) F64.zero 3) with (Ok (A:=spec_float) F64.zero).
  cbn [rbind].
  eexists. split; [reflexivity|].
  rewrite mul_one_of_Z by lia.
  change (F64.mul (F64.mul F64.three F64.one) F64.zero) with F64.zero.
  pose proof (of_Z_finite start ltac:(lia)) as Hfs.
  pose proof (of_Z_finite target ltac:(lia)) as Hft.
  destruct (add_zero_r (F64.of_Z start) (F64.mul F64.zero c1) Hfs
              (mul_zero_l F64.zero c1 eq_refl Hc1)) as [F1 T1].
  destruct (add_zero_r _ (F64.mul F64.zero c2) F1 (mul_zero_l F64.zero c2 eq_refl Hc2)) as [F2 T2].
  destruct (add_zero_r _ (F64.mul F64.zero (F64.of_Z target)) F2
              (mul_zero_l F64.zero (F64.of_Z target) eq_refl Hft)) as [F3 T3].
  rewrite T3, T2, T1. apply trunc_of_Z. lia.
Qed.

(** At [t = 1] the point is the target. *)
Lemma bezier_coord_target start c1 c2 target :
  Z.abs start < 2 ^ 52 -> Z.abs target < 2 ^ 52 ->
  F64.is_finite c1 = true -> F64.is_finite c2 = true ->
  exists v, bezier_coord P F64.one start c1 c2 target = Ok v /\
            F64.trunc v = Some target.
Proof.
  intros Hs Htg Hc1 Hc2. unfold bezier_coord.
  change (F64.sub F64.one F64.one) with F64.zero.
  rewrite !float_pow_one.
  change (Py.float_pow (libm_pow P) F64.zero 2) with (Ok (A:=spec_float) F64.zero).
  change (Py.float_pow (libm_pow P) F64.zero 3) with (Ok (A:=spec_float) F64.zero).
  rewrite !float_of_int_exact by lia. cbn [rbind].
  eexists. split; [reflexivity|].
  rewrite mul_one_of_Z by lia.
  change (F64.mul (F64.mul F64.three F64.zero) F64.one) with F64.zero.
  pose proof (of_Z_finite start ltac:(lia)) as Hfs.
  pose proof (of_Z_finite target ltac:(lia)) as Hft.
  assert (Z1 : F64.is_zero (F64.add (F64.mul F64.zero (F64.of_Z start))
                                    (F64.mul F64.zero c1)) = true)
    by (apply add_zero_zero; apply mul_zero_l; auto).
  assert (Z2 : F64.is_zero (F64.add
                 (F64.add (F64.mul F64.zero (F64.of_Z start)) (F64.mul F64.zero c1))
                 (F64.mul F64.zero c2)) = true)
    by (apply add_zero_zero; [assumption|apply mul_zero_l; auto]).
  destruct (add_zero_l _ (F64.of_Z target) Z2 Hft) as [_ T].
  rewrite T. apply trunc_of_Z. lia.
Qed.

End Coord.

(** *** Delays [time.sleep] accepts *)

Lemma mul_sign x y :
  F64.sign x = false -> F64.sign y = false -> F64.sign (F64.mul x y) = false.
Proof.
  destruct x as [sx|sx| |sx mx ex], y as [sy|sy| |sy my ey]; cbn [F64.sign];
    intros Hx Hy; subst; try reflexivity.
  unfold F64.mul, SFmul. cbn [xorb]. apply bra64_sign. lia.
Qed.

Lemma ltb_zero_nonneg x :
  F64.is_finite x = true -> F64.sign x = false ->
  F64.is_nan x || F64.ltb x F64.zero = false.
Proof.
  destruct x as [s|s| |s m e]; cbn [F64.is_finite F64.sign]; try discriminate;
    intros _ ->; reflexivity.
Qed.

Lemma random_at_below P t : below 1 (random_at P t).
Proof.
  unfold random_at, F64.scaled.
  apply (binary_normalize_below _ _ 0); [|lia].
  pose proof (Z.mod_pos_bound (entropy P t) (2 ^ 53) ltac:(lia)) as Hm.
  pose proof (Zdigits2_le (entropy P t mod 2 ^ 53) 53 ltac:(lia) ltac:(lia) ltac:(lia)).
  lia.
Qed.

Lemma uniform_at_symmetric_below P off t k :
  below k off -> -1074 <= k <= 960 ->
  below (k + 6) (uniform_at P (F64.opp off, off) t).
Proof.
  intros Ho Hk. unfold uniform_at. cbn [fst snd].
  assert (H1 : below (Z.max k k + 2) (F64.sub off (F64.opp off)))
    by (apply sub_below; [assumption|apply opp_below; assumption|lia]).
  rewrite Z.max_id in H1.
  assert (H2 : below (k + 2 + 1 + 1) (F64.mul (F64.sub off (F64.opp off)) (random_at P t)))
    by (apply (mul_below (k + 2) 1); [assumption|apply random_at_below|lia]).
  pose proof (add_below k (k + 2 + 1 + 1) _ _ (opp_below _ _ Ho) H2 ltac:(lia)) as H3.
  eapply below_mono; [exact H3|lia].
Qed.

Lemma fits_int64_below x : below 63 x -> Py.fits_int64 x = true.
Proof.
  destruct x as [s|s| |s m e]; cbn [below Py.fits_int64]; try contradiction;
    [reflexivity|].
  intros H.
  change (Z.pos (digits2_pos m)) with (Zdigits2 (Z.pos m)) in H.
  pose proof (Zdigits2_pos (Z.pos m) ltac:(lia)) as Hd.
  pose proof (Zdigits2_bounds (Z.pos m) ltac:(lia)) as [_ Hhi].
  assert (Hp : 2 ^ Zdigits2 (Z.pos m) <= 2 ^ (63 - e))
    by (apply Z.pow_le_mono_r; lia).
  apply andb_true_iff. split; [apply Z.leb_le; lia|].
  destruct s; [apply Z.leb_le|apply Z.ltb_lt]; lia.
Qed.

(** A delay below [2^32] seconds has nanoseconds that fit. *)
Lemma nanoseconds_below d : below 32 d -> below 63 (Py.nanoseconds d).
Proof.
  intros H. unfold Py.nanoseconds.
  apply (mul_below 32 30); [assumption|vm_compute; discriminate|lia].
Qed.

Lemma sleepable_nonneg d :
  below 32 d -> F64.sign d = false -> sleepable d = true.
Proof.
  intros Hd Hs. unfold sleepable.
  pose proof (nanoseconds_below d Hd) as Hn.
  rewrite (fits_int64_below _ Hn).
  assert (Hz : F64.is_nan (Py.nanoseconds d) || F64.ltb (Py.nanoseconds d) F64.zero = false).
  { apply ltb_zero_nonneg; [exact (below_finite _ _ Hn)|].
    unfold Py.nanoseconds. apply mul_sign; [assumption|reflexivity]. }
  apply orb_false_iff in Hz. destruct Hz as [_ ->].
  destruct d; cbn in Hd; try contradiction; reflexivity.
Qed.

(** The pause of a curved step, [max(0.001, v)], is accepted whenever [v]
    is below [2^32] seconds. *)
Lemma max_sleepable v : below 32 v -> sleepable (Py.max (dec 1 1000) v) = true.
Proof.
  intros Hv. unfold Py.max.
  destruct (F64.ltb (dec 1 1000) v) eqn:E; [|vm_compute; reflexivity].
  apply sleepable_nonneg; [assumption|].
  assert (E' : exists m e, dec 1 1000 = S754_finite false m e)
    by (eexists; eexists; vm_compute; reflexivity).
  destruct E' as (m & e & E'). rewrite E' in E.
  destruct v as [[]|[]| |[] m' e']; try reflexivity; discriminate.
Qed.

(** So is the pause [max(0.001, step_interval + uniform(-0.005, 0.005))]
    for a step interval below [2^30] seconds. *)
Lemma pause_sleepable P step_interval t :
  below 30 step_interval ->
  sleepable (Py.max (dec 1 1000)
               (F64.add step_interval
                  (uniform_at P (F64.opp (dec 5 1000), dec 5 1000) t))) = true.
Proof.
  intros H. apply max_sleepable.
  assert (Hj : below (-7 + 6) (uniform_at P (F64.opp (dec 5 1000), dec 5 1000) t))
    by (apply uniform_at_symmetric_below; [vm_compute; discriminate|lia]).
  exact (add_below 30 (-7 + 6) _ _ H Hj ltac:(lia)).
Qed.

(** The limit of [time.sleep]: 9223372036 seconds are taken, 9223372037
    seconds and an infinite delay are not, nor are a negative delay and
    NaN. *)
Lemma sleepable_limit :
  sleepable (F64.of_Z 9223372036) = true /\
  sleepable (F64.of_Z 9223372037) = false /\
  sleepable (S754_infinity false) = false /\
  sleepable (F64.of_Z (-1)) = false /\
  sleepable S754_nan = false /\
  sleepable F64.zero = true.
Proof. vm_compute. repeat split. Qed.

Lemma sleep_raises :
  fst (sleep (quiet_platform (0, 0) (fun _ => 0)) (F64.of_Z (10 ^ 10)) boot)
    = Raise OverflowError /\
  fst (sleep (quiet_platform (0, 0) (fun _ => 0)) (S754_infinity false) boot)
    = Raise OverflowError /\
  fst (sleep (quiet_platform (0, 0) (fun _ => 0)) (F64.of_Z (- 10 ^ 10)) boot)
    = Raise OverflowError /\
  fst (sleep (quiet_platform (0, 0) (fun _ => 0)) (F64.of_Z (-1)) boot)
    = Raise (ValueError "sleep length must be non-negative") /\
  fst (sleep (quiet_platform (0, 0) (fun _ => 0)) S754_nan boot)
    = Raise (ValueError "Invalid value NaN (not a number)") /\
  fst (sleep_int (quiet_platform (0, 0) (fun _ => 0)) (10 ^ 10) boot)
    = Raise OverflowError.
Proof. vm_compute. repeat split. Qed.

(** *** Running on an undisturbed platform *)

Section Undisturbed.

Variable P : platform.
Hypothesis HP : undisturbed P.

Lemma tick_run {A} (f : nat -> res A) w :
  tick P f w = (f (ticks w), {| ticks := S (ticks w); log := log w |}).
Proof. unfold tick, interrupted. now rewrite (proj1 HP). Qed.

Lemma platform_call_run {A} (f : nat -> A) w :
  platform_call P f w = (Ok (f (ticks w)), {| ticks := S (ticks w); log := log w |}).
Proof. unfold platform_call. rewrite tick_run. now rewrite (proj2 HP). Qed.

Lemma uniform_run a b w :
  uniform P a b w =
  (Ok (uniform_at P (a, b) (ticks w)), {| ticks := S (ticks w); log := log w |}).
Proof. unfold uniform, random, bind. rewrite tick_run. reflexivity. Qed.

Lemma set_cursor_pos_run x y w :
  set_cursor_pos P x y w =
  (Ok tt, {| ticks := S (ticks w); log := log w ++ [SetCursor x y] |}).
Proof. unfold set_cursor_pos, bind. rewrite platform_call_run. reflexivity. Qed.

Lemma sleep_run d w :
  sleepable d = true ->
  sleep P d w = (Ok tt, {| ticks := S (ticks w); log := log w ++ [Sleep d] |}).
Proof.
  intros Hd. unfold sleepable in Hd.
  apply andb_true_iff in Hd. destruct Hd as [Hd H3].
  apply andb_true_iff in Hd. destruct Hd as [H1 H2].
  apply negb_true_iff in H1, H3.
  unfold sleep. rewrite H1, H2, H3. cbn [negb].
  unfold bind. rewrite tick_run. reflexivity.
Qed.

Lemma sleep_max_run v w :
  below 32 v ->
  sleep P (Py.max (dec 1 1000) v) w =
  (Ok tt, {| ticks := S (ticks w);
             log := log w ++ [Sleep (Py.max (dec 1 1000) v)] |}).
Proof. intros Hv. apply sleep_run. apply max_sleepable. exact Hv. Qed.

Lemma control_point_run start d c off w :
  Z.abs start < 2 ^ 53 -> Z.abs d < 2 ^ 53 ->
  control_point P start d c off w =
  (Ok (control_at P start d c off (ticks w)), {| ticks := S (ticks w); log := log w |}).
Proof.
  intros Hs Hd. unfold control_point, bind, lift.
  rewrite !float_of_int_exact by lia. cbn [rbind].
  rewrite uniform_run. reflexivity.
Qed.

End Undisturbed.

(** *** The points of the curve *)

Lemma for_each_app {A} (xs ys : list A) (body : A -> M unit) w :
  for_each (xs ++ ys) body w =
  match for_each xs body w with
  | (Ok _, w') => for_each ys body w'
  | (Raise e, w') => (Raise e, w')
  | (Pending, w') => (Pending, w')
  end.
Proof.
  revert w. induction xs as [|x xs IH]; intros w; cbn [for_each app].
  - reflexivity.
  - unfold bind. destruct (body x w) as [[[]|e|] w1]; [apply IH|reflexivity..].
Qed.

(** A loop whose every round succeeds and writes one point writes the
    points in order. *)
Lemma for_each_writes {A} (body : A -> M unit) (pt : A -> Z * Z) : forall xs w,
  (forall x w1, In x xs ->
     exists w2, body x w1 = (Ok tt, w2) /\
                cursor_writes (log w2) = cursor_writes (log w1) ++ [pt x]) ->
  exists w', for_each xs body w = (Ok tt, w') /\
             cursor_writes (log w') = cursor_writes (log w) ++ map pt xs.
Proof.
  induction xs as [|x xs IH]; intros w Hb; cbn [for_each map].
  - exists w. split; [reflexivity|]. now rewrite app_nil_r.
  - destruct (Hb x w (or_introl eq_refl)) as (w1 & E1 & L1).
    destruct (IH w1 (fun y w2 Hy => Hb y w2 (or_intror Hy))) as (w' & E & L).
    exists w'. unfold bind. rewrite E1. split; [exact E|].
    rewrite L, L1, <- app_assoc. reflexivity.
Qed.

Lemma cursor_writes_app l1 l2 :
  cursor_writes (l1 ++ l2) = cursor_writes l1 ++ cursor_writes l2.
Proof. unfold cursor_writes. apply flat_map_app. Qed.

Lemma range_from_zero n :
  0 <= n -> range 0 (n + 1) = 0 :: range 1 (n + 1).
Proof.
  intros Hn. unfold range. rewrite !Z.sub_0_r.
  replace (Z.to_nat (n + 1)) with (S (Z.to_nat n)) by lia.
  replace (n + 1 - 1) with n by lia.
  cbn [seq map]. f_equal. rewrite <- seq_shift, map_map.
  apply map_ext. intros k. lia.
Qed.

Lemma in_range a b i : In i (range a b) <-> a <= i < b.
Proof.
  unfold range. rewrite in_map_iff. split.
  - intros (k & <- & Hk). apply in_seq in Hk. lia.
  - intros H. exists (Z.to_nat (i - a)). split; [lia|]. apply in_seq. lia.
Qed.

Lemma range_length a b : List.length (range a b) = Z.to_nat (b - a).
Proof. unfold range. now rewrite length_map, length_seq. Qed.

Lemma range_last a b d : a < b -> last (range a b) d = b - 1.
Proof.
  intros H. unfold range.
  replace (Z.to_nat (b - a)) with (Z.to_nat (b - a - 1) + 1)%nat by lia.
  rewrite seq_app, map_app. cbn [seq map]. rewrite last_last. lia.
Qed.

Lemma last_of_map {A B} (f : A -> B) (l : list A) d :
  last (map f l) (f d) = f (last l d).
Proof.
  induction l as [|a [|b l] IH]; [reflexivity|reflexivity|].
  cbn [map last] in *. exact IH.
Qed.

Section Points.

Variable P : platform.
Variable cfg : config.
Hypothesis HP : undisturbed P.
Hypothesis Hpw : pow_sane (libm_pow P).

Variables (start_x start_y target_x target_y steps : Z).
Variables (ctrl1_x ctrl1_y ctrl2_x ctrl2_y : spec_float).
Hypothesis Hsx : Z.abs start_x < 2 ^ 52.
Hypothesis Hsy : Z.abs start_y < 2 ^ 52.
Hypothesis Htx : Z.abs target_x < 2 ^ 52.
Hypothesis Hty : Z.abs target_y < 2 ^ 52.
Hypothesis Hc1x : below 57 ctrl1_x.
Hypothesis Hc1y : below 57 ctrl1_y.
Hypothesis Hc2x : below 57 ctrl2_x.
Hypothesis Hc2y : below 57 ctrl2_y.
Hypothesis Hsteps : 1 <= steps.

Lemma int_of_float_trunc v z : F64.trunc v = Some z -> Py.int_of_float v = Ok z.
Proof. intros H. unfold Py.int_of_float. now rewrite H. Qed.

Lemma int_of_float_below k v : below k v -> exists z, Py.int_of_float v = Ok z.
Proof.
  intros H. unfold Py.int_of_float.
  destruct v; cbn [below] in H; try contradiction; cbn [F64.trunc]; eauto.
Qed.

(** Every step has a point; the first is the start, the last the
    target. *)
Lemma bezier_point_ok i :
  0 <= i <= steps ->
  exists p,
    bezier_point P start_x start_y ctrl1_x ctrl1_y ctrl2_x ctrl2_y
                 target_x target_y steps i = Ok p /\
    (i = 0 -> p = (start_x, start_y)) /\
    (i = steps -> p = (target_x, target_y)).
Proof.
  intros Hi. unfold bezier_point.
  destruct (int_truediv_unit i steps Hi Hsteps) as (t & -> & Ht & Ht0 & Ht1).
  cbn [rbind].
  destruct (bezier_coord_below P Hpw t start_x ctrl1_x ctrl2_x target_x
              Ht Hsx Htx Hc1x Hc2x) as (vx & Ex & Bx).
  destruct (bezier_coord_below P Hpw t start_y ctrl1_y ctrl2_y target_y
              Ht Hsy Hty Hc1y Hc2y) as (vy & Ey & By).
  rewrite Ex, Ey. cbn [rbind].
  destruct (int_of_float_below _ _ Bx) as (px & Epx).
  destruct (int_of_float_below _ _ By) as (py & Epy).
  rewrite Epx, Epy. cbn [rbind].
  exists (px, py). split; [reflexivity|]. split.
  - intros Hi0. specialize (Ht0 Hi0). subst t.
    destruct (bezier_coord_start P start_x ctrl1_x ctrl2_x target_x Hsx Htx
                (below_finite _ _ Hc1x) (below_finite _ _ Hc2x)) as (vx' & Ex' & Tx).
    destruct (bezier_coord_start P start_y ctrl1_y ctrl2_y target_y Hsy Hty
                (below_finite _ _ Hc1y) (below_finite _ _ Hc2y)) as (vy' & Ey' & Ty).
    rewrite Ex in Ex'. rewrite Ey in Ey'. inversion Ex'; inversion Ey'; subst vx' vy'.
    rewrite (int_of_float_trunc _ _ Tx) in Epx.
    rewrite (int_of_float_trunc _ _ Ty) in Epy. congruence.
  - intros Hi1. specialize (Ht1 Hi1). subst t.
    destruct (bezier_coord_target P start_x ctrl1_x ctrl2_x target_x Hsx Htx
                (below_finite _ _ Hc1x) (below_finite _ _ Hc2x)) as (vx' & Ex' & Tx).
    destruct (bezier_coord_target P start_y ctrl1_y ctrl2_y target_y Hsy Hty
                (below_finite _ _ Hc1y) (below_finite _ _ Hc2y)) as (vy' & Ey' & Ty).
    rewrite Ex in Ex'. rewrite Ey in Ey'. inversion Ex'; inversion Ey'; subst vx' vy'.
    rewrite (int_of_float_trunc _ _ Tx) in Epx.
    rewrite (int_of_float_trunc _ _ Ty) in Epy. congruence.
Qed.

(** With jitter off, a step writes its point and sleeps. *)
Lemma bezier_step_run step_interval i p w :
  below 30 step_interval ->
  ENABLE_JITTER cfg = false ->
  bezier_point P start_x start_y ctrl1_x ctrl1_y ctrl2_x ctrl2_y
               target_x target_y steps i = Ok p ->
  exists w',
    bezier_step P cfg start_x start_y ctrl1_x ctrl1_y ctrl2_x ctrl2_y
                target_x target_y step_interval steps i w = (Ok tt, w') /\
    cursor_writes (log w') = cursor_writes (log w) ++ [p].
Proof.
  intros Hiv Hj Hp. unfold bezier_point in Hp. unfold bezier_step.
  destruct (Py.int_truediv i steps) as [t| |] eqn:Et; try discriminate.
  cbn [rbind] in Hp.
  destruct (bezier_coord P t start_x ctrl1_x ctrl2_x target_x) as [vx| |] eqn:Evx;
    try discriminate. cbn [rbind] in Hp.
  destruct (bezier_coord P t start_y ctrl1_y ctrl2_y target_y) as [vy| |] eqn:Evy;
    try discriminate. cbn [rbind] in Hp.
  destruct (Py.int_of_float vx) as [px| |] eqn:Epx; try discriminate. cbn [rbind] in Hp.
  destruct (Py.int_of_float vy) as [py| |] eqn:Epy; try discriminate. cbn [rbind] in Hp.
  inversion Hp; subst p.
  unfold jitter, add_jitter. rewrite Hj.
  unfold bind, lift, ret. cbv beta iota.
  rewrite Evx, Evy, Epx, Epy.
  rewrite (set_cursor_pos_run P HP). cbv beta iota.
  rewrite (uniform_run P HP). cbv beta iota.
  rewrite (sleep_run P HP) by (apply pause_sleepable; exact Hiv).
  eexists. split; [reflexivity|].
  cbn [log]. rewrite !cursor_writes_app. cbn. now rewrite app_nil_r.
Qed.

(** The loop of the generator writes [steps + 1] points, from the start
    to the target. *)
Lemma bezier_loop_run step_interval w :
  below 30 step_interval ->
  ENABLE_JITTER cfg = false ->
  exists w' pts,
    for_each (range 0 (steps + 1))
      (bezier_step P cfg start_x start_y ctrl1_x ctrl1_y ctrl2_x ctrl2_y
                   target_x target_y step_interval steps) w = (Ok tt, w') /\
    cursor_writes (log w') = cursor_writes (log w) ++ pts /\
    List.length pts = Z.to_nat (steps + 1) /\
    hd_error pts = Some (start_x, start_y) /\
    last pts (0, 0) = (target_x, target_y).
Proof.
  intros Hiv Hj.
  set (pt := fun i =>
    match bezier_point P start_x start_y ctrl1_x ctrl1_y ctrl2_x ctrl2_y
                       target_x target_y steps i with
    | Ok p => p
    | _ => (0, 0)
    end).
  destruct (for_each_writes
              (bezier_step P cfg start_x start_y ctrl1_x ctrl1_y ctrl2_x ctrl2_y
                           target_x target_y step_interval steps)
              pt (range 0 (steps + 1)) w) as (w' & E & L).
  { intros i w1 Hi. apply in_range in Hi.
    destruct (bezier_point_ok i ltac:(lia)) as (p & Ep & _).
    destruct (bezier_step_run step_interval i p w1 Hiv Hj Ep) as (w2 & E2 & L2).
    exists w2. split; [exact E2|]. unfold pt. now rewrite Ep. }
  exists w', (map pt (range 0 (steps + 1))).
  split; [exact E|]. split; [exact L|].
  split; [rewrite length_map, range_length; f_equal; lia|].
  split.
  - rewrite range_from_zero by lia. cbn [map hd_error]. f_equal.
    unfold pt. destruct (bezier_point_ok 0 ltac:(lia)) as (p & -> & H0 & _). auto.
  - assert (Hl : last (map pt (range 0 (steps + 1))) (pt steps) = pt steps).
    { rewrite last_of_map. f_equal. rewrite range_last; lia. }
    assert (Hne : map pt (range 0 (steps + 1)) <> []).
    { rewrite range_from_zero by lia. discriminate. }
    assert (Hd : forall (l : list (Z * Z)) d d', l <> [] -> last l d = last l d').
    { induction l as [|a [|b l] IH]; intros d d' Hn; [congruence|reflexivity|].
      cbn [last] in *. apply IH. discriminate. }
    rewrite (Hd _ (0, 0) (pt steps) Hne), Hl.
    unfold pt. destruct (bezier_point_ok steps ltac:(lia)) as (p & -> & _ & H1). auto.
Qed.

End Points.

(** *** The draws before the loop *)

Lemma math_sqrt_run n :
  0 <= n < 2 ^ 1023 -> Py.math_sqrt n = Ok (F64.sqrt (F64.of_Z n)).
Proof.
  intros Hn. unfold Py.math_sqrt, Py.float_of_int.
  pose proof (of_Z_below n 1023 ltac:(lia) ltac:(lia)) as Hb.
  now rewrite (below_finite _ _ Hb), (of_Z_sign n) by lia.
Qed.

Lemma square_sum_bound a b :
  Z.abs a < 2 ^ 53 -> Z.abs b < 2 ^ 53 -> 0 <= a ^ 2 + b ^ 2 < 2 ^ 108.
Proof.
  intros Ha Hb.
  pose proof (square_le_square a (2 ^ 53) ltac:(lia)).
  pose proof (square_le_square b (2 ^ 53) ltac:(lia)).
  change (2 ^ 53 * 2 ^ 53) with (2 ^ 106) in *. change (2 ^ 108) with (4 * 2 ^ 106).
  generalize dependent (a ^ 2). generalize dependent (b ^ 2). intros; lia.
Qed.

(** [human_like_mouse_move] up to its loop, on an undisturbed platform:
    nine ticks, then the step count and the loop. *)
Lemma human_like_mouse_move_unfold P cfg target_x target_y w start_x start_y :
  undisturbed P ->
  cursor P (S (ticks w)) = (start_x, start_y) ->
  Z.abs start_x < 2 ^ 52 -> Z.abs start_y < 2 ^ 52 ->
  Z.abs target_x < 2 ^ 52 -> Z.abs target_y < 2 ^ 52 ->
  let t0 := ticks w in
  let dx := target_x - start_x in
  let dy := target_y - start_y in
  let step_interval := uniform_at P (BEZIER_STEP_INTERVAL_RANGE cfg) (S (S (S t0))) in
  let offset_range :=
    F64.mul (F64.sqrt (F64.of_Z (dx ^ 2 + dy ^ 2)))
            (uniform_at P (BEZIER_CURVATURE_RANGE cfg) (4 + t0)) in
  human_like_mouse_move P cfg target_x target_y w =
  match derived_steps P cfg w with
  | Ok steps =>
    for_each (range 0 (steps + 1))
      (bezier_step P cfg start_x start_y
         (control_at P start_x dx (dec 3 10) offset_range (5 + t0))
         (control_at P start_y dy (dec 3 10) offset_range (6 + t0))
         (control_at P start_x dx (dec 7 10) offset_range (7 + t0))
         (control_at P start_y dy (dec 7 10) offset_range (8 + t0))
         target_x target_y step_interval steps)
      {| ticks := 9 + t0; log := log w |}
  | Raise e => (Raise e, {| ticks := 9 + t0; log := log w |})
  | Pending => (Pending, {| ticks := 9 + t0; log := log w |})
  end.
Proof.
  intros HP Hc Hsx Hsy Htx Hty t0 dx dy step_interval offset_range.
  unfold human_like_mouse_move, MouseController, get_cursor_pos.
  unfold bind at 1. rewrite (platform_call_run P HP). cbv beta iota.
  unfold bind at 1. rewrite (platform_call_run P HP). cbv beta iota.
  cbn [ticks log]. rewrite Hc. cbv beta iota zeta.
  unfold bind at 1, lift at 1.
  rewrite math_sqrt_run
    by (pose proof (square_sum_bound (target_x - start_x) (target_y - start_y)
                      ltac:(lia) ltac:(lia));
        assert (2 ^ 108 < 2 ^ 1023) by (apply Z.pow_lt_mono_r; lia); lia).
  cbv beta iota.
  unfold bind at 1. rewrite (uniform_run P HP). cbv beta iota.
  unfold bind at 1. rewrite (uniform_run P HP). cbv beta iota.
  unfold bind at 1. rewrite (uniform_run P HP). cbv beta iota.
  cbn [ticks log].
  unfold bind at 1. rewrite (control_point_run P HP) by lia. cbv beta iota.
  unfold bind at 1. rewrite (control_point_run P HP) by lia. cbv beta iota.
  unfold bind at 1. rewrite (control_point_run P HP) by lia. cbv beta iota.
  unfold bind at 1. rewrite (control_point_run P HP) by lia. cbv beta iota.
  cbn [ticks log].
  unfold bind at 1, lift at 1.
  unfold derived_steps.
  reflexivity.
Qed.

(** *** Control points without curvature *)

Lemma uniform_at_zero P a b t :
  F64.is_zero a = true -> F64.is_zero b = true ->
  F64.is_zero (uniform_at P (a, b) t) = true.
Proof.
  intros Ha Hb. unfold uniform_at. cbn [fst snd].
  apply add_zero_zero; [assumption|].
  apply mul_zero_l; [now apply sub_zero_zero|].
  exact (below_finite _ _ (random_at_below P t)).
Qed.

Lemma dec_3_10_below : below 0 (dec 3 10).
Proof. vm_compute. discriminate. Qed.

Lemma dec_7_10_below : below 0 (dec 7 10).
Proof. vm_compute. discriminate. Qed.

Lemma control_at_below P start d c off t :
  Z.abs start < 2 ^ 52 -> Z.abs d < 2 ^ 53 -> below 0 c ->
  F64.is_zero off = true ->
  below 57 (control_at P start d c off t).
Proof.
  intros Hs Hd Hc Hoff. unfold control_at.
  apply add_zero_r_below; [|apply uniform_at_zero; [now apply opp_zero|assumption]].
  assert (H1 : below 53 (F64.of_Z start)) by (apply (of_Z_below _ 52); lia).
  assert (H2 : below 54 (F64.of_Z d)) by (apply (of_Z_below _ 53); lia).
  assert (H3 : below 55 (F64.mul (F64.of_Z d) c))
    by (apply (mul_below 54 0); try assumption; lia).
  apply (add_below 53 55 _ _ H1 H3). lia.
Qed.

Lemma sqrt_of_Z_finite n :
  0 <= n < 2 ^ 108 -> F64.is_finite (F64.sqrt (F64.of_Z n)) = true.
Proof.
  intros Hn.
  pose proof (of_Z_below n 108 ltac:(lia) ltac:(lia)) as Hb.
  pose proof (sqrt_below _ _ Hb (of_Z_sign n ltac:(lia)) ltac:(lia)) as Hs.
  exact (below_finite _ _ Hs).
Qed.

Lemma pow_by_mul_sane : pow_sane pow_by_mul.
Proof.
  intros x n [-> | ->] Hx; unfold pow_by_mul.
  - change (F64.eqb (F64.of_Z 2) (F64.of_Z 2)) with true. cbv iota.
    eapply below_mono; [apply (mul_below 4 4); try assumption; lia|lia].
  - change (F64.eqb (F64.of_Z 3) (F64.of_Z 2)) with false. cbv iota.
    assert (H2 : below 9 (F64.mul x x)) by (apply (mul_below 4 4); try assumption; lia).
    eapply below_mono; [apply (mul_below 9 4); try assumption; lia|lia].
Qed.

(** ** Curved generator: the points written *)

(** C3: with jitter disabled and a curvature factor of 0, for every start
    position read from the pointer, every target and every derived step
    count [steps >= 1], [human_like_mouse_move] returns after writing
    exactly [steps + 1] points, the first of which is the start and the
    last of which is the target.  Coordinates are below [2^52] in
    magnitude, so that they are [float]s, the platform raises no error and
    delivers no Ctrl-C during the move, and the step interval drawn is
    below [2^30] seconds, so that [time.sleep] accepts every pause (it
    raises [OverflowError] from about 9.22e9 seconds on). *)
Theorem human_like_mouse_move_endpoints P cfg target_x target_y w start_x start_y steps :
  undisturbed P ->
  pow_sane (libm_pow P) ->
  ENABLE_JITTER cfg = false ->
  F64.is_zero (derived_curvature P cfg w) = true ->
  below 30 (derived_interval P cfg w) ->
  cursor P (S (ticks w)) = (start_x, start_y) ->
  Z.abs start_x < 2 ^ 52 -> Z.abs start_y < 2 ^ 52 ->
  Z.abs target_x < 2 ^ 52 -> Z.abs target_y < 2 ^ 52 ->
  derived_steps P cfg w = Ok steps ->
  1 <= steps ->
  exists w' pts,
    human_like_mouse_move P cfg target_x target_y w = (Ok tt, w') /\
    cursor_writes (log w') = cursor_writes (log w) ++ pts /\
    List.length pts = Z.to_nat (steps + 1) /\
    hd_error pts = Some (start_x, start_y) /\
    last pts (0, 0) = (target_x, target_y).
Proof.
  intros HP Hpw Hj Hcurv Hiv Hc Hsx Hsy Htx Hty Hsteps H1.
  rewrite (human_like_mouse_move_unfold P cfg target_x target_y w start_x start_y
             HP Hc Hsx Hsy Htx Hty).
  cbv zeta. rewrite Hsteps.
  set (dx := target_x - start_x). set (dy := target_y - start_y).
  assert (Hoff : F64.is_zero
            (F64.mul (F64.sqrt (F64.of_Z (dx ^ 2 + dy ^ 2)))
                     (uniform_at P (BEZIER_CURVATURE_RANGE cfg) (4 + ticks w))) = true).
  { apply mul_zero_r; [|exact Hcurv].
    apply sqrt_of_Z_finite. apply square_sum_bound; unfold dx, dy; lia. }
  destruct (bezier_loop_run P cfg HP Hpw start_x start_y target_x target_y steps
              _ _ _ _ Hsx Hsy Htx Hty
              (control_at_below P start_x dx (dec 3 10) _ (5 + ticks w)
                 Hsx ltac:(unfold dx; lia) dec_3_10_below Hoff)
              (control_at_below P start_y dy (dec 3 10) _ (6 + ticks w)
                 Hsy ltac:(unfold dy; lia) dec_3_10_below Hoff)
              (control_at_below P start_x dx (dec 7 10) _ (7 + ticks w)
                 Hsx ltac:(unfold dx; lia) dec_7_10_below Hoff)
              (control_at_below P start_y dy (dec 7 10) _ (8 + ticks w)
                 Hsy ltac:(unfold dy; lia) dec_7_10_below Hoff)
              H1
              (uniform_at P (BEZIER_STEP_INTERVAL_RANGE cfg) (S (S (S (ticks w)))))
              {| ticks := 9 + ticks w; log := log w |} Hiv Hj)
    as (w' & pts & E & L & Hlen & Hhd & Hlast).
  exists w', pts. split; [exact E|]. split; [exact L|]. auto.
Qed.

Lemma human_like_mouse_move_endpoints_witness :
  derived_steps (quiet_platform (400, 300) (fun _ => 2 ^ 52)) straight_config boot
    = Ok 100 /\
  below 30 (derived_interval (quiet_platform (400, 300) (fun _ => 2 ^ 52))
                             straight_config boot) /\
  exists w' pts,
    human_like_mouse_move (quiet_platform (400, 300) (fun _ => 2 ^ 52))
                          straight_config 50 60 boot = (Ok tt, w') /\
    cursor_writes (log w') = cursor_writes (log boot) ++ pts /\
    List.length pts = Z.to_nat (100 + 1) /\
    hd_error pts = Some (400, 300) /\
    last pts (0, 0) = (50, 60).
Proof.
  split; [vm_compute; reflexivity|].
  split; [vm_compute; discriminate|].
  apply (human_like_mouse_move_endpoints (quiet_platform (400, 300) (fun _ => 2 ^ 52))
           straight_config 50 60 boot 400 300 100).
  - split; [reflexivity|intros t; reflexivity].
  - exact pow_by_mul_sane.
  - reflexivity.
  - vm_compute; reflexivity.
  - vm_compute; discriminate.
  - reflexivity.
  - cbn; lia.
  - cbn; lia.
  - cbn; lia.
  - cbn; lia.
  - vm_compute; reflexivity.
  - lia.
Defined.

(** The bound on the step interval is needed: with an interval of 1e10
    seconds (and a duration of 1e11 seconds, so that there are 10 steps)
    both generators write one point and stop with [OverflowError] at their
    first pause. *)
Lemma overlong_interval_overflows :
  derived_steps (quiet_platform (400, 300) (fun _ => 2 ^ 52)) overlong_config boot
    = Ok 10 /\
  (exists w',
     human_like_mouse_move (quiet_platform (400, 300) (fun _ => 2 ^ 52))
                           overlong_config 50 60 boot = (Raise OverflowError, w') /\
     cursor_writes (log w') = [(400, 300)]) /\
  (exists w',
     linear_mouse_move (quiet_platform (400, 300) (fun _ => 2 ^ 52))
                       overlong_config 50 60 boot = (Raise OverflowError, w') /\
     List.length (cursor_writes (log w')) = 1%nat).
Proof.
  split; [vm_compute; reflexivity|].
  split; eexists; split; vm_compute; reflexivity.
Qed.

(** ** Curved generator: the step count *)

Lemma range_empty a b : b <= a -> range a b = [].
Proof. intros H. unfold range. now replace (Z.to_nat (b - a)) with O by lia. Qed.

(** C6, as the claim has it, fails: a duration range of [(0.001, 0.002)]
    with the step interval of [config.py] derives 0 steps, nothing rejects
    it, and [main] starts, dispatches the curved generator, and the
    generator raises [ZeroDivisionError] at its first step, after reading
    the pointer and before any write. *)
Lemma zero_step_config_not_rejected :
  (forall w, derived_steps (quiet_platform (400, 300) (fun _ => 2 ^ 52))
                           zero_step_config w = Ok 0) /\
  fst (get_screen_bounds (quiet_platform (400, 300) (fun _ => 2 ^ 52)) zero_step_config boot)
    = Ok (50, 50, 750, 550) /\
  fst (main_try (quiet_platform (400, 300) (fun _ => 2 ^ 52)) zero_step_config 1 boot)
    = Raise ZeroDivisionError /\
  main (quiet_platform (400, 300) (fun _ => 2 ^ 52)) zero_step_config 1
    = (Exited 0, {| ticks := 18; log := [Dispatch bezier] |}).
Proof. repeat split; try intros w; vm_compute; reflexivity. Qed.

(** C6, amended: nothing validates the duration and the step interval.
    When the derived step count is 0 the generator raises
    [ZeroDivisionError] at [t = 0 / 0], after its nine readings and draws
    and before any write; when it is negative the generator returns at once
    without a write; when it is at least 1, [t = i / steps] is defined for
    every [i] of [range(steps + 1)]: a finite [float], 0 at the first step
    and 1 at the last. *)
Theorem derived_steps_unchecked P cfg target_x target_y w start_x start_y steps :
  undisturbed P ->
  cursor P (S (ticks w)) = (start_x, start_y) ->
  Z.abs start_x < 2 ^ 52 -> Z.abs start_y < 2 ^ 52 ->
  Z.abs target_x < 2 ^ 52 -> Z.abs target_y < 2 ^ 52 ->
  derived_steps P cfg w = Ok steps ->
  (steps = 0 ->
   human_like_mouse_move P cfg target_x target_y w =
     (Raise ZeroDivisionError, {| ticks := 9 + ticks w; log := log w |})) /\
  (steps < 0 ->
   human_like_mouse_move P cfg target_x target_y w =
     (Ok tt, {| ticks := 9 + ticks w; log := log w |})) /\
  (1 <= steps ->
   forall i, In i (range 0 (steps + 1)) ->
   exists t, Py.int_truediv i steps = Ok t /\ F64.is_finite t = true /\
             (i = 0 -> t = F64.zero) /\ (i = steps -> t = F64.one)).
Proof.
  intros HP Hc Hsx Hsy Htx Hty Hsteps.
  pose proof (human_like_mouse_move_unfold P cfg target_x target_y w start_x start_y
                HP Hc Hsx Hsy Htx Hty) as E.
  cbv zeta in E. rewrite Hsteps in E.
  split; [|split].
  - intros ->. rewrite E. reflexivity.
  - intros Hneg. rewrite E. rewrite range_empty by lia. reflexivity.
  - intros H1 i Hi. apply in_range in Hi.
    destruct (int_truediv_unit i steps ltac:(lia) H1) as (t & Et & Hb & H0 & Hl).
    exists t. split; [exact Et|]. split; [exact (below_finite _ _ Hb)|]. auto.
Qed.

Lemma derived_steps_unchecked_witness :
  (undisturbed (quiet_platform (400, 300) (fun _ => 2 ^ 52)) /\
   derived_steps (quiet_platform (400, 300) (fun _ => 2 ^ 52)) zero_step_config boot
     = Ok 0) /\
  human_like_mouse_move (quiet_platform (400, 300) (fun _ => 2 ^ 52)) zero_step_config
                        50 60 boot =
    (Raise ZeroDivisionError, {| ticks := 9; log := [] |}).
Proof.
  assert (HP : undisturbed (quiet_platform (400, 300) (fun _ => 2 ^ 52)))
    by (split; [reflexivity|intros t; reflexivity]).
  assert (Hs : derived_steps (quiet_platform (400, 300) (fun _ => 2 ^ 52))
                             zero_step_config boot = Ok 0)
    by (vm_compute; reflexivity).
  split; [split; assumption|].
  exact (proj1 (derived_steps_unchecked
                  (quiet_platform (400, 300) (fun _ => 2 ^ 52)) zero_step_config
                  50 60 boot 400 300 0 HP eq_refl
                  ltac:(cbn; lia) ltac:(cbn; lia) ltac:(cbn; lia) ltac:(cbn; lia) Hs)
               eq_refl).
Defined.

(** ** Position sampler: [get_next_position] *)

Lemma randint_run P a b w :
  interrupt_at P = None -> a <= b ->
  randint P a b w =
  (Ok (a + entropy P (ticks w) mod (b - a + 1)),
   {| ticks := S (ticks w); log := log w |}).
Proof.
  intros HP Hab. unfold randint, tick, interrupted. rewrite HP.
  destruct (b <? a) eqn:C; [apply Z.ltb_lt in C; lia|reflexivity].
Qed.

Lemma get_next_position_run P max_x max_y min_x min_y w :
  min_x < max_x -> min_y < max_y -> interrupt_at P = None ->
  exists x y,
    get_next_position P max_x max_y min_x min_y w =
      (Ok (x, y), {| ticks := 2 + ticks w; log := log w |}) /\
    min_x <= x <= max_x /\ min_y <= y <= max_y.
Proof.
  intros Hx Hy HP. unfold get_next_position.
  pose proof Hx as Hx'. pose proof Hy as Hy'.
  apply Z.leb_gt in Hx'. apply Z.leb_gt in Hy'. rewrite Hx', Hy'.
  unfold bind. rewrite (randint_run P min_x max_x w HP) by lia.
  rewrite (randint_run P min_y max_y _ HP) by lia. cbn [ticks log ret].
  eexists. eexists. split; [reflexivity|].
  pose proof (Z.mod_pos_bound (entropy P (ticks w)) (max_x - min_x + 1) ltac:(lia)).
  pose proof (Z.mod_pos_bound (entropy P (S (ticks w))) (max_y - min_y + 1) ltac:(lia)).
  lia.
Qed.

(** [get_next_position] raises [ValueError] exactly when a side of the
    rectangle is empty or reduced to a point, the x side being looked at
    first and no number being drawn; otherwise, unless Ctrl-C arrives, it
    draws twice and returns a point of the rectangle, borders included. *)
Theorem get_next_position_behaviour P max_x max_y min_x min_y w :
  (max_x <= min_x ->
   get_next_position P max_x max_y min_x min_y w =
     (Raise (ValueError "min_x must be less than max_x"), w)) /\
  (min_x < max_x -> max_y <= min_y ->
   get_next_position P max_x max_y min_x min_y w =
     (Raise (ValueError "min_y must be less than max_y"), w)) /\
  (min_x < max_x -> min_y < max_y -> interrupt_at P = None ->
   exists x y,
     get_next_position P max_x max_y min_x min_y w =
       (Ok (x, y), {| ticks := 2 + ticks w; log := log w |}) /\
     min_x <= x <= max_x /\ min_y <= y <= max_y).
Proof.
  unfold get_next_position. repeat split.
  - intros H. apply Z.leb_le in H. now rewrite H.
  - intros Hx Hy. apply Z.leb_gt in Hx. apply Z.leb_le in Hy. now rewrite Hx, Hy.
  - intros Hx Hy HP. fold (get_next_position P max_x max_y min_x min_y).
    apply get_next_position_run; assumption.
Qed.

Lemma get_next_position_behaviour_witness :
  (1 < 5 /\ 2 < 7 /\ interrupt_at (quiet_platform (0, 0) (fun _ => 9)) = None) /\
  exists x y,
    get_next_position (quiet_platform (0, 0) (fun _ => 9)) 5 7 1 2 boot =
      (Ok (x, y), {| ticks := 2 + ticks boot; log := log boot |}) /\
    1 <= x <= 5 /\ 2 <= y <= 7.
Proof.
  split; [repeat split; lia|].
  exact (proj2 (proj2 (get_next_position_behaviour
                         (quiet_platform (0, 0) (fun _ => 9)) 5 7 1 2 boot))
               ltac:(lia) ltac:(lia) eq_refl).
Defined.

(** The rectangle that [get_screen_bounds] returns is one
    [get_next_position] accepts when the safe zone is on, whatever the
    margins; with the safe zone off it is the screen itself, accepted when
    the screen has a positive width and height.  The point drawn lies in
    the rectangle. *)
Theorem screen_bounds_feed_next_position P cfg sw sh min_x min_y max_x max_y w :
  screen_bounds cfg sw sh = Ok (min_x, min_y, max_x, max_y) ->
  ENABLE_SCREEN_SAFE_ZONE cfg = true \/ (0 < sw /\ 0 < sh) ->
  interrupt_at P = None ->
  exists p w',
    get_next_position P max_x max_y min_x min_y w = (Ok p, w') /\
    in_rect (min_x, min_y, max_x, max_y) p.
Proof.
  intros Hb Hz HP.
  assert (Hlt : min_x < max_x /\ min_y < max_y).
  { unfold screen_bounds in Hb.
    destruct (ENABLE_SCREEN_SAFE_ZONE cfg); cbn [negb] in Hb.
    - destruct (parse_margin (SCREEN_MARGIN cfg)) as [[[[l t] r] b]| |];
        cbn [rbind] in Hb; try discriminate.
      destruct (sw - r <=? l) eqn:E1; [discriminate|].
      destruct (sh - b <=? t) eqn:E2; [discriminate|].
      cbn [orb] in Hb. inversion Hb; subst.
      apply Z.leb_gt in E1. apply Z.leb_gt in E2. lia.
    - inversion Hb; subst. destruct Hz as [Hz|Hz]; [discriminate|lia]. }
  destruct (get_next_position_run P max_x max_y min_x min_y w
              (proj1 Hlt) (proj2 Hlt) HP) as (x & y & E & Hx & Hy).
  exists (x, y). eexists. split; [exact E|]. cbn. lia.
Qed.

Lemma screen_bounds_feed_next_position_witness :
  exists p w',
    get_next_position (quiet_platform (0, 0) (fun _ => 9)) 750 550 50 50 boot = (Ok p, w') /\
    in_rect (50, 50, 750, 550) p.
Proof.
  exact (screen_bounds_feed_next_position (quiet_platform (0, 0) (fun _ => 9))
           default_config 800 600 50 50 750 550 boot eq_refl (or_introl eq_refl) eq_refl).
Defined.

(** ** Movement type selector: [choose_movement_type] *)

Lemma choose_enabled P cfg cc w t w' :
  choose_movement_type P cfg cc w = (Ok t, w') -> enabled cfg t = true.
Proof.
  unfold choose_movement_type, enabled_types, enabled.
  destruct (USE_LINEAR_MOVEMENT cfg) eqn:EL, (USE_BEZIER_MOVEMENT cfg) eqn:EB;
    cbn [app]; intros H.
  - destruct t; reflexivity.
  - inversion H. reflexivity.
  - inversion H. reflexivity.
  - discriminate.
Qed.

(** [choose_movement_type] raises [ValueError] when no style is enabled,
    returns the enabled style without drawing when there is exactly one,
    takes the style with the smaller count (linear on a tie) without drawing
    when both are enabled and randomisation is off, and whenever it returns
    it returns an enabled style. *)
Theorem choose_movement_type_behaviour P cfg cc w :
  (USE_LINEAR_MOVEMENT cfg = false -> USE_BEZIER_MOVEMENT cfg = false ->
   choose_movement_type P cfg cc w =
     (Raise (ValueError "At least one movement type must be enabled in config"), w)) /\
  (forall t, enabled cfg t = true -> enabled cfg (other_type t) = false ->
   choose_movement_type P cfg cc w = (Ok t, w)) /\
  (USE_LINEAR_MOVEMENT cfg = true -> USE_BEZIER_MOVEMENT cfg = true ->
   RANDOMIZE_MOVEMENT_TYPES cfg = false ->
   choose_movement_type P cfg cc w =
     (Ok (if count cc linear <=? count cc bezier then linear else bezier), w)) /\
  (forall t w', choose_movement_type P cfg cc w = (Ok t, w') -> enabled cfg t = true).
Proof.
  repeat split.
  - intros HL HB. unfold choose_movement_type, enabled_types. now rewrite HL, HB.
  - intros t Ht Ho. unfold choose_movement_type, enabled_types.
    destruct t; cbn in Ht, Ho; rewrite Ht, Ho; reflexivity.
  - intros HL HB HR. unfold choose_movement_type, enabled_types.
    rewrite HL, HB, HR. reflexivity.
  - intros t w'. apply choose_enabled.
Qed.

Lemma choose_movement_type_behaviour_witness :
  (USE_LINEAR_MOVEMENT zero_step_config = false /\
   enabled zero_step_config bezier = true) /\
  choose_movement_type (quiet_platform (0, 0) (fun _ => 0)) zero_step_config no_counts boot
    = (Ok bezier, boot).
Proof.
  split; [split; reflexivity|].
  exact (proj1 (proj2 (choose_movement_type_behaviour
                         (quiet_platform (0, 0) (fun _ => 0)) zero_step_config no_counts boot))
               bezier eq_refl eq_refl).
Defined.

(** ** Runner: which generators are called *)

Lemma update_enabled cfg chosen cc last executed cc' :
  enabled cfg chosen = true ->
  update_consecutive_count cfg chosen cc last = (executed, cc') ->
  enabled cfg executed = true.
Proof.
  unfold update_consecutive_count, enabled. intros Hc.
  destruct (MAX_CONSECUTIVE_SAME_TYPE cfg <? _).
  - intros H. inversion H; subst. clear H.
    destruct chosen, (USE_LINEAR_MOVEMENT cfg) eqn:EL, (USE_BEZIER_MOVEMENT cfg) eqn:EB;
      cbn in *; congruence.
  - intros H. inversion H; subst. assumption.
Qed.

(** As [iteration_dispatch], with the call of the selector shown. *)
Lemma iteration_chosen P cfg n bounds st w r w' :
  iteration P cfg n bounds st w = (r, w') ->
  (dispatched (log w') = dispatched (log w) /\ forall st', r <> Ok st') \/
  exists w3 w4 chosen executed cc',
    choose_movement_type P cfg (consecutive_count st) w3 = (Ok chosen, w4) /\
    update_consecutive_count cfg chosen (consecutive_count st) (last_movement_type st)
      = (executed, cc') /\
    dispatched (log w') = dispatched (log w) ++ [executed] /\
    forall st', r = Ok st' ->
      consecutive_count st' = cc' /\ last_movement_type st' = Some executed.
Proof.
  unfold iteration. destruct bounds as [[[min_x min_y] max_x] max_y].
  run_first w r1 w1 E1 D1 ltac:(unfold get_cursor_pos; undispatch).
  destruct r1 as [[cx cy]|e|];
    [|intros H; inversion H; subst; left; split; [assumption|congruence]..].
  run_first w1 r2 w2 E2 D2 ltac:(unfold random; undispatch).
  destruct r2 as [small|e|];
    [|intros H; inversion H; subst; left; split; [congruence|congruence]..].
  run_first w2 r3 w3 E3 D3 ltac:(undispatch).
  destruct r3 as [[tx ty]|e|];
    [|intros H; inversion H; subst; left; split; [congruence|congruence]..].
  run_first w3 r4 w4 E4 D4 ltac:(undispatch).
  destruct r4 as [chosen|e|];
    [|intros H; inversion H; subst; left; split; [congruence|congruence]..].
  destruct (update_consecutive_count cfg chosen (consecutive_count st) (last_movement_type st))
    as [executed cc'] eqn:EU.
  match goal with |- ?run = _ -> _ =>
    enough (Hrest : run = (r, w') ->
              dispatched (log w') = dispatched (log w) ++ [executed] /\
              forall st', r = Ok st' ->
                consecutive_count st' = cc' /\ last_movement_type st' = Some executed)
      by (intros H; right; exists w3, w4, chosen, executed, cc';
          split; [exact E4|]; split; [exact EU|exact (Hrest H)])
  end.
  unfold bind at 1. cbn [emit].
  set (w5 := {| ticks := ticks w4; log := log w4 ++ [Dispatch executed] |}).
  assert (D5 : dispatched (log w5) = dispatched (log w) ++ [executed]).
  { subst w5. cbn [log]. rewrite dispatched_app. cbn. congruence. }
  clearbody w5.
  run_first w5 r6 w6 E6 D6 ltac:(undispatch).
  destruct r6 as [[]|e|];
    [|intros H; inversion H; subst; split; [congruence|congruence]..].
  run_first w6 r7 w7 E7 D7 ltac:(undispatch).
  destruct r7 as [wait|e|];
    [|intros H; inversion H; subst; split; [congruence|congruence]..].
  run_first w7 r8 w8 E8 D8 ltac:(undispatch).
  destruct r8 as [[]|e|];
    [|intros H; inversion H; subst; split; [congruence|congruence]..].
  cbn [ret]. intros H. inversion H; subst. split; [congruence|].
  intros st' Hst. inversion Hst; subst. cbn. auto.
Qed.

(** What holds of the generators called by every run of the loop that
    starts with none called holds of those called by [main]. *)
Lemma main_loop_dispatched P cfg n (Q : list movement_type -> Prop) :
  Q [] ->
  (forall bounds w,
     dispatched (log w) = [] ->
     Q (dispatched (log (snd (run_loop P cfg n n bounds initial_state w))))) ->
  Q (dispatched (log (snd (main P cfg n)))).
Proof.
  intros Q0 Hloop.
  unfold main. destruct (deps_ok P); cbn [negb]; [|exact Q0].
  unfold main_try.
  run_first boot r1 w1 E1 D1
    ltac:(unfold get_screen_bounds, MouseController, controller_get_screen_dimensions;
          undispatch).
  assert (Q1 : Q (dispatched (log w1))) by (rewrite D1; exact Q0).
  destruct r1 as [bounds|e|]; [|destruct e; exact Q1|exact Q1].
  run_first w1 r2 w2 E2 D2
    ltac:(unfold get_screen_dimensions, MouseController, controller_get_screen_dimensions;
          undispatch).
  assert (Q2 : Q (dispatched (log w2))) by (rewrite D2; exact Q1).
  destruct r2 as [dims|e|]; [|destruct e; exact Q2|exact Q2].
  run_first w2 r3 w3 E3 D3 ltac:(unfold MouseController; undispatch).
  assert (Q3 : Q (dispatched (log w3))) by (rewrite D3; exact Q2).
  destruct r3 as [[]|e|]; [|destruct e; exact Q3|exact Q3].
  assert (D : dispatched (log w3) = []) by (rewrite D3, D2, D1; reflexivity).
  specialize (Hloop bounds w3 D).
  destruct (run_loop P cfg n n bounds initial_state w3) as [[v|e|] w4];
    [destruct v|destruct e; exact Hloop|exact Hloop].
Qed.

Lemma run_loop_enabled P cfg n bounds : forall fuel st w,
  exists l,
    dispatched (log (snd (run_loop P cfg n fuel bounds st w))) = dispatched (log w) ++ l /\
    Forall (fun t => enabled cfg t = true) l.
Proof.
  induction fuel as [|fuel IH]; intros st w; cbn [run_loop].
  - exists []. cbn. rewrite app_nil_r. auto.
  - unfold bind.
    destruct (iteration P cfg n bounds st w) as [r w1] eqn:E.
    destruct (iteration_chosen _ _ _ _ _ _ _ _ E)
      as [[D Hr]|(w3 & w4 & chosen & ex & cc' & EC & EU & D & Hst)].
    + destruct r as [st'|e|]; [now destruct (Hr st')|..];
        exists []; cbn; rewrite app_nil_r; auto.
    + pose proof (update_enabled _ _ _ _ _ _ (choose_enabled _ _ _ _ _ _ EC) EU) as He.
      destruct r as [st'|e|].
      * destruct (IH st' w1) as (rest & IHr & IHf).
        exists (ex :: rest). rewrite IHr, D, <- app_assoc. split; [reflexivity|].
        constructor; assumption.
      * exists [ex]. cbn [snd]. split; [exact D|]. constructor; auto.
      * exists [ex]. cbn [snd]. split; [exact D|]. constructor; auto.
Qed.

(** [main] never calls the generator of a style that is switched off: not
    through the selector, and not through the switch made when the cap on
    consecutive movements is exceeded. *)
Theorem main_dispatches_enabled P cfg n :
  Forall (fun t => enabled cfg t = true) (dispatched (log (snd (main P cfg n)))).
Proof.
  apply main_loop_dispatched; [constructor|].
  intros bounds w D.
  destruct (run_loop_enabled P cfg n bounds n initial_state w) as (l & E & F).
  rewrite E, D. exact F.
Qed.

(** *** Taking turns *)

Lemma turn_update cfg cc last :
  1 <= MAX_CONSECUTIVE_SAME_TYPE cfg ->
  turn_inv cc last ->
  exists cc',
    update_consecutive_count cfg (next_type last) cc last = (next_type last, cc') /\
    turn_inv cc' (Some (next_type last)).
Proof.
  intros Hmax Hinv. unfold update_consecutive_count.
  assert (Hs : same_as_last (next_type last) last = false).
  { destruct last as [[]|]; reflexivity. }
  rewrite Hs.
  destruct (count_set_set_other cc (next_type last) 1 0) as [C1 C2].
  rewrite C1.
  destruct (MAX_CONSECUTIVE_SAME_TYPE cfg <? 1) eqn:E; [apply Z.ltb_lt in E; lia|].
  eexists. split; [reflexivity|]. cbn [turn_inv]. auto.
Qed.

Lemma turn_choose P cfg cc last w :
  USE_LINEAR_MOVEMENT cfg = true -> USE_BEZIER_MOVEMENT cfg = true ->
  RANDOMIZE_MOVEMENT_TYPES cfg = false ->
  turn_inv cc last ->
  choose_movement_type P cfg cc w = (Ok (next_type last), w).
Proof.
  intros HL HB HR Hinv. unfold choose_movement_type, enabled_types.
  rewrite HL, HB, HR. cbn [app negb ret]. f_equal. f_equal.
  destruct last as [[]|]; cbn [turn_inv next_type] in *.
  - destruct Hinv as [H1 H0]. change (other_type linear) with bezier in H0.
    rewrite H1, H0. reflexivity.
  - destruct Hinv as [H1 H0]. change (other_type bezier) with linear in H0.
    rewrite H1, H0. reflexivity.
  - subst cc. reflexivity.
Qed.

Lemma run_loop_alternates P cfg n bounds :
  USE_LINEAR_MOVEMENT cfg = true -> USE_BEZIER_MOVEMENT cfg = true ->
  RANDOMIZE_MOVEMENT_TYPES cfg = false ->
  1 <= MAX_CONSECUTIVE_SAME_TYPE cfg ->
  forall fuel st w,
    turn_inv (consecutive_count st) (last_movement_type st) ->
    exists k,
      dispatched (log (snd (run_loop P cfg n fuel bounds st w))) =
      dispatched (log w) ++ alternating k (next_type (last_movement_type st)).
Proof.
  intros HL HB HR Hmax.
  induction fuel as [|fuel IH]; intros st w Hinv; cbn [run_loop].
  - exists O. cbn. now rewrite app_nil_r.
  - unfold bind.
    destruct (iteration P cfg n bounds st w) as [r w1] eqn:E.
    destruct (iteration_chosen _ _ _ _ _ _ _ _ E)
      as [[D Hr]|(w3 & w4 & chosen & ex & cc' & EC & EU & D & Hst)].
    + destruct r as [st'|e|]; [now destruct (Hr st')|..];
        exists O; cbn; now rewrite app_nil_r.
    + rewrite (turn_choose P cfg _ _ w3 HL HB HR Hinv) in EC.
      inversion EC; subst chosen w4. clear EC.
      destruct (turn_update cfg _ _ Hmax Hinv) as (cc2 & EU2 & Hinv2).
      rewrite EU2 in EU. inversion EU; subst ex cc'. clear EU.
      destruct r as [st'|e|].
      * destruct (Hst st' eq_refl) as [Hc Hl].
        destruct (IH st' w1) as [k IHk]; [rewrite Hc, Hl; exact Hinv2|].
        exists (S k). rewrite IHk, D, Hl, <- app_assoc. reflexivity.
      * exists 1%nat. exact D.
      * exists 1%nat. exact D.
Qed.

(** With both styles enabled, randomisation off and a cap of at least 1,
    the generators are called in turn, the linear one first. *)
Theorem main_alternates P cfg n :
  USE_LINEAR_MOVEMENT cfg = true -> USE_BEZIER_MOVEMENT cfg = true ->
  RANDOMIZE_MOVEMENT_TYPES cfg = false ->
  1 <= MAX_CONSECUTIVE_SAME_TYPE cfg ->
  exists k, dispatched (log (snd (main P cfg n))) = alternating k linear.
Proof.
  intros HL HB HR Hmax.
  apply main_loop_dispatched; [exists O; reflexivity|].
  intros bounds w D.
  destruct (run_loop_alternates P cfg n bounds HL HB HR Hmax n initial_state w eq_refl)
    as [k E].
  exists k. rewrite E, D. reflexivity.
Qed.

(** ** Position sampler: the window of a small movement *)

Lemma get_small_movement_position_unfold P cfg n cx cy w :
  undisturbed P ->
  get_small_movement_position P cfg n cx cy w =
  small_movement_loop P cfg n cx cy
    (Z.max 0 (cx - snd (SMALL_MOVEMENT_RANGE cfg)))
    (Z.max 0 (cy - snd (SMALL_MOVEMENT_RANGE cfg)))
    (Z.min (fst (screen P)) (cx + snd (SMALL_MOVEMENT_RANGE cfg)))
    (Z.min (snd (screen P)) (cy + snd (SMALL_MOVEMENT_RANGE cfg)))
    {| ticks := 2 + ticks w; log := log w |}.
Proof.
  intros HP. unfold get_small_movement_position, MouseController,
    controller_get_screen_dimensions.
  unfold bind at 1. rewrite (platform_call_run P HP). cbv beta iota.
  unfold bind at 1. rewrite (platform_call_run P HP). cbv beta iota.
  destruct (screen P) as [sw sh]. reflexivity.
Qed.

(** When the pointer is so far off the screen that the window of a small
    movement, clamped to the screen, is empty or a single column (a pointer
    on a second monitor, more than the radius away from the first one, or a
    radius of 0), [get_small_movement_position] raises the [ValueError] of
    [get_next_position] at its first draw; likewise for the rows. *)
Theorem small_movement_window_empty P cfg n cx cy w :
  undisturbed P ->
  let R := snd (SMALL_MOVEMENT_RANGE cfg) in
  (Z.min (fst (screen P)) (cx + R) <= Z.max 0 (cx - R) ->
   get_small_movement_position P cfg (S n) cx cy w =
     (Raise (ValueError "min_x must be less than max_x"),
      {| ticks := 2 + ticks w; log := log w |})) /\
  (Z.max 0 (cx - R) < Z.min (fst (screen P)) (cx + R) ->
   Z.min (snd (screen P)) (cy + R) <= Z.max 0 (cy - R) ->
   get_small_movement_position P cfg (S n) cx cy w =
     (Raise (ValueError "min_y must be less than max_y"),
      {| ticks := 2 + ticks w; log := log w |})).
Proof.
  intros HP R. rewrite (get_small_movement_position_unfold P cfg (S n) cx cy w HP).
  fold R. cbn [small_movement_loop]. unfold bind at 1. unfold get_next_position.
  split.
  - intros H. apply Z.leb_le in H. rewrite H. reflexivity.
  - intros Hx Hy. apply Z.leb_gt in Hx. apply Z.leb_le in Hy. rewrite Hx, Hy. reflexivity.
Qed.

Lemma small_movement_window_empty_witness :
  undisturbed (quiet_platform (1100, 300) (fun _ => 0)) /\
  get_small_movement_position (quiet_platform (1100, 300) (fun _ => 0)) default_config
                              1 1100 300 boot =
    (Raise (ValueError "min_x must be less than max_x"), {| ticks := 2; log := [] |}).
Proof.
  assert (HP : undisturbed (quiet_platform (1100, 300) (fun _ => 0)))
    by (split; [reflexivity|intros t; reflexivity]).
  split; [exact HP|].
  exact (proj1 (small_movement_window_empty (quiet_platform (1100, 300) (fun _ => 0))
                  default_config 0 1100 300 boot HP)
               ltac:(cbn; lia)).
Defined.

(** *** A minimum distance that cannot be met *)

Lemma small_movement_loop_pending P cfg cx cy min_x min_y max_x max_y :
  undisturbed P ->
  min_x < max_x -> min_y < max_y ->
  0 <= fst (SMALL_MOVEMENT_RANGE cfg) <= 2 ^ 26 ->
  (forall x y, min_x <= x <= max_x -> min_y <= y <= max_y ->
     0 <= (x - cx) ^ 2 + (y - cy) ^ 2 < 2 ^ 53 /\
     (x - cx) ^ 2 + (y - cy) ^ 2 <
       fst (SMALL_MOVEMENT_RANGE cfg) * fst (SMALL_MOVEMENT_RANGE cfg)) ->
  forall n w,
    fst (small_movement_loop P cfg n cx cy min_x min_y max_x max_y w) = Pending.
Proof.
  intros HP Hx Hy Hmin Hfar. induction n as [|n IH]; intros w; [reflexivity|].
  cbn [small_movement_loop].
  destruct (get_next_position_run P max_x max_y min_x min_y w Hx Hy (proj1 HP))
    as (x & y & E & Bx & By).
  unfold bind at 1. rewrite E. cbv beta iota.
  destruct (Hfar x y Bx By) as [Hn Hlt].
  unfold bind at 1, lift at 1.
  rewrite math_sqrt_run
    by (assert (2 ^ 53 < 2 ^ 1023) by (apply Z.pow_lt_mono_r; lia); lia).
  cbv beta iota.
  destruct (Py.float_ge_int _ (fst (SMALL_MOVEMENT_RANGE cfg))) eqn:Hge.
  - exfalso.
    assert (Hs : Py.math_sqrt ((x - cx) ^ 2 + (y - cy) ^ 2) =
                 Ok (F64.sqrt (F64.of_Z ((x - cx) ^ 2 + (y - cy) ^ 2)))).
    { apply math_sqrt_run.
      assert (2 ^ 53 < 2 ^ 1023) by (apply Z.pow_lt_mono_r; lia). lia. }
    pose proof (sqrt_ge_sound _ _ _ Hn Hmin Hs Hge). lia.
  - apply IH.
Qed.

(** When the minimum distance [SMALL_MOVEMENT_RANGE[0]] exceeds the
    diagonal of the window ([2 * R^2 < min^2]), no draw passes the test of
    the [while True] loop: with the pointer on the screen,
    [get_small_movement_position] is still running after any number of
    rounds. *)
Theorem small_movement_never_returns P cfg cx cy :
  undisturbed P ->
  0 < fst (screen P) <= 2 ^ 24 -> 0 < snd (screen P) <= 2 ^ 24 ->
  0 <= cx <= fst (screen P) -> 0 <= cy <= snd (screen P) ->
  0 < snd (SMALL_MOVEMENT_RANGE cfg) ->
  0 <= fst (SMALL_MOVEMENT_RANGE cfg) <= 2 ^ 26 ->
  2 * (snd (SMALL_MOVEMENT_RANGE cfg) * snd (SMALL_MOVEMENT_RANGE cfg)) <
    fst (SMALL_MOVEMENT_RANGE cfg) * fst (SMALL_MOVEMENT_RANGE cfg) ->
  forall n w, fst (get_small_movement_position P cfg n cx cy w) = Pending.
Proof.
  intros HP Hsw Hsh Hcx Hcy HR Hmin Hfar n w.
  rewrite (get_small_movement_position_unfold P cfg n cx cy w HP).
  apply small_movement_loop_pending; try assumption; try lia.
  intros x y Bx By.
  set (R := snd (SMALL_MOVEMENT_RANGE cfg)) in *.
  assert (Hdx : Z.abs (x - cx) <= R) by lia.
  assert (Hdy : Z.abs (y - cy) <= R) by lia.
  assert (Hdx' : Z.abs (x - cx) <= 2 ^ 24) by lia.
  assert (Hdy' : Z.abs (y - cy) <= 2 ^ 24) by lia.
  pose proof (square_le_square _ _ Hdx) as Sx.
  pose proof (square_le_square _ _ Hdy) as Sy.
  pose proof (square_le_square _ _ Hdx') as Sx'.
  pose proof (square_le_square _ _ Hdy') as Sy'.
  change (2 ^ 24 * 2 ^ 24) with (2 ^ 48) in *.
  change (2 ^ 53) with (32 * 2 ^ 48).
  generalize dependent ((x - cx) ^ 2). generalize dependent ((y - cy) ^ 2).
  intros; lia.
Qed.

(** ** Runner: the pause between two movements *)

Lemma sleep_int_ok P k w w' :
  sleep_int P k w = (Ok tt, w') -> 0 <= k /\ log w' = log w ++ [Sleep (F64.of_Z k)].
Proof.
  unfold sleep_int.
  destruct ((k <? - 9223372036) || (9223372036 <? k)); [discriminate|].
  destruct (k <? 0) eqn:E; [discriminate|]. apply Z.ltb_ge in E.
  unfold bind, tick. destruct (interrupted P (ticks w)); [discriminate|].
  cbn. intros H. inversion H. auto.
Qed.

(** An iteration of the loop of [main] that completes has ended with a
    pause of a whole number of seconds taken from [WAIT_TIME_RANGE], and
    has counted one more movement. *)
Theorem iteration_ends_with_wait P cfg n bounds st w st' w' :
  iteration P cfg n bounds st w = (Ok st', w') ->
  exists l k,
    log w' = l ++ [Sleep (F64.of_Z k)] /\
    fst (WAIT_TIME_RANGE cfg) <= k <= snd (WAIT_TIME_RANGE cfg) /\ 0 <= k /\
    movement_count st' = movement_count st + 1.
Proof.
  unfold iteration. destruct bounds as [[[min_x min_y] max_x] max_y]. intros H.
  apply bind_ok_inv in H. destruct H as ([cx cy] & w1 & _ & H).
  apply bind_ok_inv in H. destruct H as (small & w2 & _ & H).
  apply bind_ok_inv in H. destruct H as ([tx ty] & w3 & _ & H).
  apply bind_ok_inv in H. destruct H as (chosen & w4 & _ & H).
  destruct (update_consecutive_count cfg chosen (consecutive_count st) (last_movement_type st))
    as [executed cc'].
  apply bind_ok_inv in H. destruct H as ([] & w5 & _ & H).
  apply bind_ok_inv in H. destruct H as ([] & w6 & _ & H).
  apply bind_ok_inv in H. destruct H as (wait & w7 & Hr & H).
  apply bind_ok_inv in H. destruct H as ([] & w8 & Hs & H).
  inversion H; subst st' w'. clear H.
  apply randint_range in Hr. apply sleep_int_ok in Hs. destruct Hs as [H0 Hl].
  exists (log w7), wait. cbn [movement_count]. auto.
Qed.

Lemma iteration_ends_with_wait_witness :
  exists st' w',
    iteration (quiet_platform (400, 300) (fun _ => 2 ^ 52)) default_config 1
              (50, 50, 750, 550) initial_state boot = (Ok st', w') /\
    exists l k,
      log w' = l ++ [Sleep (F64.of_Z k)] /\
      fst (WAIT_TIME_RANGE default_config) <= k <= snd (WAIT_TIME_RANGE default_config) /\
      0 <= k /\
      movement_count st' = movement_count initial_state + 1.
Proof.
  eexists. eexists.
  match goal with
  | |- ?run = (Ok ?st, ?w) /\ _ =>
    let v := eval vm_compute in run in
    match v with
    | (Ok ?s, ?w1) =>
      assert (E : run = (Ok s, w1)) by (vm_compute; reflexivity);
      split; [exact E|];
      exact (iteration_ends_with_wait _ _ _ _ _ _ _ _ E)
    end
  end.
Defined.

(** ** Curved generator: pauses *)

Lemma logs_ret Q {A} (a : A) : logs Q (ret a).
Proof. intros w r w' H. inversion H; subst. exists []. now rewrite app_nil_r. Qed.

Lemma logs_raise Q {A} e : logs Q (@raise A e).
Proof. intros w r w' H. inversion H; subst. exists []. now rewrite app_nil_r. Qed.

Lemma logs_lift Q {A} (r : res A) : logs Q (lift r).
Proof. intros w r' w' H. inversion H; subst. exists []. now rewrite app_nil_r. Qed.

Lemma logs_tick Q P {A} (f : nat -> res A) : logs Q (tick P f).
Proof.
  intros w r w'. unfold tick. destruct (interrupted P (ticks w));
    intros H; inversion H; subst; exists []; cbn; now rewrite app_nil_r.
Qed.

Lemma logs_emit (Q : event -> Prop) e : Q e -> logs Q (emit e).
Proof. intros He w r w' H. inversion H; subst. exists [e]. cbn. auto. Qed.

Lemma logs_bind Q {A B} (m : M A) (k : A -> M B) :
  logs Q m -> (forall a, logs Q (k a)) -> logs Q (bind m k).
Proof.
  intros Hm Hk w r w'. unfold bind.
  destruct (m w) as [r1 w1] eqn:E1. destruct (Hm _ _ _ E1) as (e1 & L1 & F1).
  destruct r1 as [a|e|].
  - intros E2. destruct (Hk a _ _ _ E2) as (e2 & L2 & F2).
    exists (e1 ++ e2). rewrite L2, L1, <- app_assoc. split; [reflexivity|].
    apply Forall_app; auto.
  - intros H; inversion H; subst. eauto.
  - intros H; inversion H; subst. eauto.
Qed.

Lemma logs_for_each Q {A} (xs : list A) (body : A -> M unit) :
  (forall x, logs Q (body x)) -> logs Q (for_each xs body).
Proof.
  intros Hb. induction xs as [|x xs IH]; cbn [for_each].
  - apply logs_ret.
  - apply logs_bind; auto.
Qed.

Lemma max_at_least a v :
  F64.leb a a = true -> F64.leb a (Py.max a v) = true.
Proof.
  intros Ha. unfold Py.max, F64.ltb, SFltb. unfold F64.leb, SFleb in *.
  destruct (SFcompare a v) as [[]|] eqn:E; try exact Ha.
  rewrite E. reflexivity.
Qed.

(** Whatever the configuration, the random numbers and the outcome, the
    curved generator does nothing but write the pointer and sleep, and each
    of its sleeps lasts at least 0.001 s: [max(0.001, variable_interval)]
    keeps a negative or NaN interval from [time.sleep]. *)
Theorem human_like_mouse_move_pauses P cfg target_x target_y w r w' :
  human_like_mouse_move P cfg target_x target_y w = (r, w') ->
  exists evs, log w' = log w ++ evs /\ Forall (paused_at_least (dec 1 1000)) evs.
Proof.
  revert w r w'.
  change (logs (paused_at_least (dec 1 1000))
               (human_like_mouse_move P cfg target_x target_y)).
  assert (Hplat : forall A (f : nat -> A),
            logs (paused_at_least (dec 1 1000)) (platform_call P f))
    by (intros; apply logs_tick).
  assert (Huni : forall a b, logs (paused_at_least (dec 1 1000)) (uniform P a b)).
  { intros. unfold uniform, random. apply logs_bind; [apply logs_tick|].
    intros; apply logs_ret. }
  assert (Hrand : forall a b, logs (paused_at_least (dec 1 1000)) (randint P a b)).
  { intros. unfold randint. destruct (b <? a); [apply logs_raise|apply logs_tick]. }
  assert (Hctl : forall s d c o, logs (paused_at_least (dec 1 1000)) (control_point P s d c o)).
  { intros. unfold control_point. apply logs_bind; [apply logs_lift|]. intros.
    apply logs_bind; [apply Huni|]. intros; apply logs_ret. }
  unfold human_like_mouse_move, MouseController, get_cursor_pos.
  apply logs_bind; [apply Hplat|]. intros _.
  apply logs_bind; [apply Hplat|]. intros [sx sy].
  apply logs_bind; [apply logs_lift|]. intros distance.
  apply logs_bind; [apply Huni|]. intros duration.
  apply logs_bind; [apply Huni|]. intros interval.
  apply logs_bind; [apply Huni|]. intros curvature.
  apply logs_bind; [apply Hctl|]. intros c1x.
  apply logs_bind; [apply Hctl|]. intros c1y.
  apply logs_bind; [apply Hctl|]. intros c2x.
  apply logs_bind; [apply Hctl|]. intros c2y.
  apply logs_bind; [apply logs_lift|]. intros steps.
  apply logs_for_each. intros i. unfold bezier_step.
  apply logs_bind; [apply logs_lift|]. intros t.
  apply logs_bind; [apply logs_lift|]. intros x.
  apply logs_bind; [apply logs_lift|]. intros y.
  apply logs_bind.
  { unfold jitter. destruct (ENABLE_JITTER cfg); [|apply logs_ret].
    apply logs_bind; [apply Hrand|]. intros jx.
    apply logs_bind; [apply Hrand|]. intros jy. apply logs_ret. }
  intros [jx jy].
  apply logs_bind; [apply logs_lift|]. intros x'.
  apply logs_bind; [apply logs_lift|]. intros y'.
  apply logs_bind; [apply logs_lift|]. intros px.
  apply logs_bind; [apply logs_lift|]. intros py.
  apply logs_bind.
  { unfold set_cursor_pos. apply logs_bind; [apply Hplat|]. intros _.
    apply logs_emit. exact I. }
  intros _.
  apply logs_bind; [apply Huni|]. intros vj.
  unfold sleep.
  destruct (F64.is_nan _); [apply logs_raise|].
  destruct (negb _); [apply logs_raise|].
  destruct (F64.ltb _ F64.zero); [apply logs_raise|].
  apply logs_bind; [apply logs_tick|]. intros _.
  apply logs_emit. cbn [paused_at_least].
  apply max_at_least. vm_compute. reflexivity.
Qed.

(** ** Linear generator: the points written *)

(** A quotient of integers is no larger than its numerator: it is finite. *)
Lemma ratio_abs_below a b k :
  b <> 0 -> Z.abs a < 2 ^ k -> 0 <= k <= 1023 -> below (k + 1) (F64.ratio a b).
Proof.
  intros Hb Ha Hk. unfold F64.ratio.
  destruct (Z.eq_dec a 0) as [->|Ha0]; [exact I|].
  replace (match a with 0 => S754_zero (b <? 0) | _ =>
             let '(mz, ez, lz) :=
               SFdiv_core_binary F64.prec F64.emax (Z.abs a) 0 (Z.abs b) 0 in
             binary_round_aux F64.prec F64.emax (xorb (a <? 0) (b <? 0)) mz ez lz end)
    with (let '(mz, ez, lz) :=
               SFdiv_core_binary F64.prec F64.emax (Z.abs a) 0 (Z.abs b) 0 in
          binary_round_aux F64.prec F64.emax (xorb (a <? 0) (b <? 0)) mz ez lz)
    by (destruct a; [congruence|reflexivity|reflexivity]).
  unfold SFdiv_core_binary. rewrite !Z.add_0_r, Z.sub_0_r.
  set (m1 := Z.abs a). set (m2 := Z.abs b).
  assert (Hm1 : 0 < m1) by (subst m1; lia).
  assert (Hm2 : 0 < m2) by (subst m2; lia).
  set (d1 := Zdigits2 m1). set (d2 := Zdigits2 m2).
  assert (Hd1 : d1 <= k) by (apply Zdigits2_le; lia).
  assert (Hd1p : 0 < d1) by (apply Zdigits2_pos; lia).
  set (e' := Z.min (fexp64 (d1 - d2)) 0).
  assert (He' : -1074 <= e' <= 0) by (subst e'; rewrite fexp64_eq; lia).
  replace (0 - e') with (- e') by lia.
  assert (Hq : forall s, 0 <= s ->
            0 <= m1 * 2 ^ s / m2 /\ Zdigits2 (m1 * 2 ^ s / m2) <= d1 + s).
  { intros s Hs. assert (0 < 2 ^ s) by (apply Z.pow_pos_nonneg; lia).
    assert (Hq0 : 0 <= m1 * 2 ^ s / m2) by (apply Z.div_pos; nia).
    split; [exact Hq0|].
    apply Zdigits2_le; [exact Hq0|lia|].
    assert (m1 * 2 ^ s / m2 <= m1 * 2 ^ s).
    { apply Z.div_le_upper_bound; [lia|]. nia. }
    pose proof (Zdigits2_bounds m1 Hm1) as [_ Hu]. fold d1 in Hu.
    rewrite Z.pow_add_r by lia. nia. }
  destruct (- e') as [|s|s] eqn:Es; try lia.
  - rewrite div_eucl_div_mod.
    destruct (Hq 0 ltac:(lia)) as [Q0 Q1]. rewrite Z.mul_1_r in Q0, Q1.
    apply bra64_below; lia.
  - rewrite Z.shiftl_mul_pow2 by lia. rewrite div_eucl_div_mod.
    destruct (Hq (Z.pos s) ltac:(lia)) as [Q0 Q1].
    apply bra64_below; lia.
Qed.

Lemma int_truediv_run a b k :
  b <> 0 -> Z.abs a < 2 ^ k -> 0 <= k <= 1023 ->
  Py.int_truediv a b = Ok (F64.ratio a b).
Proof.
  intros Hb Ha Hk. unfold Py.int_truediv.
  destruct (b =? 0) eqn:E; [apply Z.eqb_eq in E; lia|].
  now rewrite (below_finite _ _ (ratio_abs_below a b k Hb Ha Hk)).
Qed.

Lemma linear_coord_ok start inc step :
  Z.abs start < 2 ^ 52 -> Z.abs step < 2 ^ 52 -> below 54 inc ->
  exists z, linear_coord start inc step = Ok z.
Proof.
  intros Hs Hst Hi. unfold linear_coord.
  rewrite !float_of_int_exact by lia. cbn [rbind].
  assert (H1 : below 53 (F64.of_Z start)) by (apply (of_Z_below _ 52); lia).
  assert (H2 : below 53 (F64.of_Z step)) by (apply (of_Z_below _ 52); lia).
  assert (H3 : below 108 (F64.mul inc (F64.of_Z step)))
    by (apply (mul_below 54 53); try assumption; lia).
  pose proof (add_below 53 108 _ _ H1 H3 ltac:(lia)) as H4.
  destruct (F64.add (F64.of_Z start) (F64.mul inc (F64.of_Z step))) eqn:E;
    cbn [below] in H4; try contradiction; unfold Py.int_of_float; cbn [F64.trunc]; eauto.
Qed.

Lemma jitter_run P cfg w :
  undisturbed P -> 0 <= jitter_bound cfg ->
  exists jx jy w',
    jitter P cfg w = (Ok (jx, jy), w') /\ log w' = log w /\
    Z.abs jx <= jitter_bound cfg /\ Z.abs jy <= jitter_bound cfg.
Proof.
  intros HP HJ. unfold jitter, jitter_bound in *.
  destruct (ENABLE_JITTER cfg).
  - unfold bind. rewrite (randint_run P _ _ w (proj1 HP)) by lia.
    rewrite (randint_run P _ _ _ (proj1 HP)) by lia. cbn [ticks log ret].
    eexists. eexists. eexists. split; [reflexivity|]. split; [reflexivity|].
    set (J := JITTER_INTENSITY cfg) in *.
    pose proof (Z.mod_pos_bound (entropy P (ticks w)) (J - - J + 1) ltac:(lia)).
    pose proof (Z.mod_pos_bound (entropy P (S (ticks w))) (J - - J + 1) ltac:(lia)).
    lia.
  - exists 0, 0, w. repeat split; cbn; lia.
Qed.

(** A loop whose every round succeeds logs what its rounds log, in order. *)
Lemma for_each_log {A} (body : A -> M unit) (R : A -> list event -> Prop) : forall xs w,
  (forall x w1, In x xs ->
     exists w2 evs, body x w1 = (Ok tt, w2) /\ log w2 = log w1 ++ evs /\ R x evs) ->
  exists w' evss,
    for_each xs body w = (Ok tt, w') /\ log w' = log w ++ List.concat evss /\
    Forall2 R xs evss.
Proof.
  induction xs as [|x xs IH]; intros w Hb; cbn [for_each].
  - exists w, []. cbn. rewrite app_nil_r. auto.
  - destruct (Hb x w (or_introl eq_refl)) as (w1 & evs & E1 & L1 & R1).
    destruct (IH w1 (fun y w2 Hy => Hb y w2 (or_intror Hy))) as (w' & evss & E & L & F).
    exists w', (evs :: evss). unfold bind. rewrite E1. split; [exact E|].
    split; [|constructor; assumption].
    cbn [List.concat]. rewrite L, L1, <- app_assoc. reflexivity.
Qed.

Lemma sleeps_app l1 l2 : sleeps (l1 ++ l2) = sleeps l1 ++ sleeps l2.
Proof. unfold sleeps. apply flat_map_app. Qed.

(** A log made of rounds that each write one point and sleep [d]. *)
Lemma rounds_of_write_and_sleep {A} (near : A -> Z * Z -> Prop) d : forall xs evss,
  Forall2 (fun x evs => exists p, evs = [SetCursor (fst p) (snd p); Sleep d] /\ near x p)
          xs evss ->
  exists pts,
    cursor_writes (List.concat evss) = pts /\
    sleeps (List.concat evss) = repeat d (List.length xs) /\
    Forall2 near xs pts.
Proof.
  induction 1 as [|x evs xs evss (p & -> & Hp) _ (pts & Hc & Hs & Hf)].
  - exists []. repeat split. constructor.
  - exists (p :: pts). cbn [List.concat]. rewrite cursor_writes_app, sleeps_app, Hc, Hs.
    destruct p as [px py]. repeat split. constructor; assumption.
Qed.

Section LinearSteps.

Variable P : platform.
Variable cfg : config.
Hypothesis HP : undisturbed P.
Hypothesis HJ : 0 <= jitter_bound cfg.

Variables (start_x start_y : Z) (x_increment y_increment step_interval : spec_float).
Hypothesis Hsx : Z.abs start_x < 2 ^ 52.
Hypothesis Hsy : Z.abs start_y < 2 ^ 52.
Hypothesis Hix : below 54 x_increment.
Hypothesis Hiy : below 54 y_increment.
Hypothesis Hiv : sleepable step_interval = true.

Lemma linear_step_run step w :
  Z.abs step < 2 ^ 52 ->
  exists w' evs,
    linear_step P cfg start_x start_y x_increment y_increment step_interval step w
      = (Ok tt, w') /\
    log w' = log w ++ evs /\
    exists p, evs = [SetCursor (fst p) (snd p); Sleep step_interval] /\
              near_linear_point cfg start_x start_y x_increment y_increment step p.
Proof.
  intros Hstep. unfold linear_step.
  destruct (linear_coord_ok start_x x_increment step Hsx Hstep Hix) as (cx & Ecx).
  destruct (linear_coord_ok start_y y_increment step Hsy Hstep Hiy) as (cy & Ecy).
  unfold bind at 1, lift at 1. rewrite Ecx. cbv beta iota.
  unfold bind at 1, lift at 1. rewrite Ecy. cbv beta iota.
  destruct (jitter_run P cfg w HP HJ) as (jx & jy & w1 & Ej & Lj & Bx & By).
  unfold bind at 1. rewrite Ej. cbv beta iota.
  unfold bind at 1. rewrite (set_cursor_pos_run P HP). cbv beta iota.
  rewrite (sleep_run P HP _ _ Hiv). cbn [ticks log].
  eexists. eexists. split; [reflexivity|]. split.
  - rewrite Lj, <- app_assoc. reflexivity.
  - exists (cx + jx, cy + jy). split; [reflexivity|].
    exists cx, cy. cbn [fst snd]. repeat split; try assumption; lia.
Qed.

End LinearSteps.

(** [linear_mouse_move] up to its divisions, on an undisturbed platform:
    four ticks, then the increments and the loop. *)
Lemma linear_mouse_move_unfold P cfg target_x target_y w start_x start_y :
  undisturbed P ->
  cursor P (S (ticks w)) = (start_x, start_y) ->
  fst (LINEAR_STEPS_RANGE cfg) <= snd (LINEAR_STEPS_RANGE cfg) ->
  linear_mouse_move P cfg target_x target_y w =
    (let N := linear_steps_at P cfg w in
     x_increment <- lift (Py.int_truediv (target_x - start_x) N) ;;
     y_increment <- lift (Py.int_truediv (target_y - start_y) N) ;;
     for_each (range 1 (N + 1))
       (linear_step P cfg start_x start_y x_increment y_increment
          (linear_interval_at P cfg w)))
      {| ticks := 4 + ticks w; log := log w |}.
Proof.
  intros HP Hc Hr.
  unfold linear_mouse_move, MouseController, get_cursor_pos.
  unfold bind at 1. rewrite (platform_call_run P HP). cbv beta iota.
  unfold bind at 1. rewrite (platform_call_run P HP). cbv beta iota.
  cbn [ticks log]. rewrite Hc. cbv beta iota.
  unfold bind at 1. rewrite (uniform_run P HP). cbv beta iota. cbn [ticks log].
  unfold bind at 1. rewrite (randint_run P _ _ _ (proj1 HP)) by lia.
  cbv beta iota. reflexivity.
Qed.

Lemma linear_steps_at_range P cfg w :
  fst (LINEAR_STEPS_RANGE cfg) <= snd (LINEAR_STEPS_RANGE cfg) ->
  fst (LINEAR_STEPS_RANGE cfg) <= linear_steps_at P cfg w <= snd (LINEAR_STEPS_RANGE cfg).
Proof.
  intros Hr. unfold linear_steps_at.
  pose proof (Z.mod_pos_bound (entropy P (3 + ticks w))
                (snd (LINEAR_STEPS_RANGE cfg) - fst (LINEAR_STEPS_RANGE cfg) + 1)
                ltac:(lia)). lia.
Qed.

(** The loop of [linear_mouse_move] runs to its end. *)
Lemma linear_loop_run P cfg target_x target_y start_x start_y N iv w :
  undisturbed P -> 0 <= jitter_bound cfg ->
  Z.abs start_x < 2 ^ 52 -> Z.abs start_y < 2 ^ 52 ->
  Z.abs target_x < 2 ^ 52 -> Z.abs target_y < 2 ^ 52 ->
  1 <= N <= 2 ^ 31 -> sleepable iv = true ->
  exists w' evss,
    (x_increment <- lift (Py.int_truediv (target_x - start_x) N) ;;
     y_increment <- lift (Py.int_truediv (target_y - start_y) N) ;;
     for_each (range 1 (N + 1))
       (linear_step P cfg start_x start_y x_increment y_increment iv)) w = (Ok tt, w') /\
    log w' = log w ++ List.concat evss /\
    Forall2 (fun i evs => exists p,
               evs = [SetCursor (fst p) (snd p); Sleep iv] /\
               near_linear_point cfg start_x start_y (F64.ratio (target_x - start_x) N)
                 (F64.ratio (target_y - start_y) N) i p)
            (range 1 (N + 1)) evss.
Proof.
  intros HP HJ Hsx Hsy Htx Hty HN Hiv.
  unfold bind at 1, lift at 1.
  rewrite (int_truediv_run (target_x - start_x) N 53) by lia. cbv beta iota.
  unfold bind at 1, lift at 1.
  rewrite (int_truediv_run (target_y - start_y) N 53) by lia. cbv beta iota.
  pose proof (ratio_abs_below (target_x - start_x) N 53 ltac:(lia) ltac:(lia) ltac:(lia))
    as Hix.
  pose proof (ratio_abs_below (target_y - start_y) N 53 ltac:(lia) ltac:(lia) ltac:(lia))
    as Hiy.
  apply for_each_log.
  intros i w1 Hi. apply in_range in Hi.
  apply (linear_step_run P cfg HP HJ); try assumption. lia.
Qed.

(** Under an undisturbed platform, with coordinates below [2^52], a step
    range within [[1, 2^31]], a jitter intensity that is not negative and a
    step interval [time.sleep] accepts, [linear_mouse_move] returns after
    writing exactly [N] points and sleeping the same interval after each,
    [N] being the step count drawn; the [i]-th point is
    [int(start + increment * i)], moved by at most [JITTER_INTENSITY] on each
    axis when jitter is on and not at all when it is off. *)
Theorem linear_mouse_move_writes P cfg target_x target_y w start_x start_y :
  undisturbed P ->
  cursor P (S (ticks w)) = (start_x, start_y) ->
  Z.abs start_x < 2 ^ 52 -> Z.abs start_y < 2 ^ 52 ->
  Z.abs target_x < 2 ^ 52 -> Z.abs target_y < 2 ^ 52 ->
  1 <= fst (LINEAR_STEPS_RANGE cfg) <= snd (LINEAR_STEPS_RANGE cfg) ->
  snd (LINEAR_STEPS_RANGE cfg) <= 2 ^ 31 ->
  0 <= jitter_bound cfg ->
  sleepable (linear_interval_at P cfg w) = true ->
  let N := linear_steps_at P cfg w in
  exists w' pts,
    linear_mouse_move P cfg target_x target_y w = (Ok tt, w') /\
    cursor_writes (log w') = cursor_writes (log w) ++ pts /\
    sleeps (log w') = sleeps (log w) ++ repeat (linear_interval_at P cfg w) (Z.to_nat N) /\
    List.length pts = Z.to_nat N /\
    Forall2 (near_linear_point cfg start_x start_y
               (F64.ratio (target_x - start_x) N) (F64.ratio (target_y - start_y) N))
            (range 1 (N + 1)) pts.
Proof.
  intros HP Hc Hsx Hsy Htx Hty Hr Hr2 HJ Hiv N.
  pose proof (linear_steps_at_range P cfg w ltac:(lia)) as HN. fold N in HN.
  rewrite (linear_mouse_move_unfold P cfg target_x target_y w start_x start_y HP Hc)
    by lia.
  cbv zeta. fold N.
  destruct (linear_loop_run P cfg target_x target_y start_x start_y N
              (linear_interval_at P cfg w) {| ticks := 4 + ticks w; log := log w |}
              HP HJ Hsx Hsy Htx Hty ltac:(lia) Hiv)
    as (w' & evss & E & L & F).
  destruct (rounds_of_write_and_sleep _ _ _ _ F) as (pts & Hcw & Hsl & Hnear).
  exists w', pts. split; [exact E|]. cbn [log] in L.
  rewrite L, cursor_writes_app, sleeps_app, Hcw, Hsl, range_length.
  replace (N + 1 - 1) with N by lia.
  repeat split; try assumption.
  rewrite <- (Forall2_length Hnear), range_length. f_equal. lia.
Qed.

Lemma linear_mouse_move_writes_witness :
  (undisturbed (quiet_platform (400, 300) (fun _ => 47)) /\
   linear_steps_at (quiet_platform (400, 300) (fun _ => 47))
                   (with_jitter default_config false) boot = 77 /\
   sleepable (linear_interval_at (quiet_platform (400, 300) (fun _ => 47))
                                 (with_jitter default_config false) boot) = true) /\
  exists w' pts,
    linear_mouse_move (quiet_platform (400, 300) (fun _ => 47))
                      (with_jitter default_config false) 50 300 boot = (Ok tt, w') /\
    cursor_writes (log w') = pts /\ List.length pts = 77%nat.
Proof.
  assert (HP : undisturbed (quiet_platform (400, 300) (fun _ => 47)))
    by (split; [reflexivity|intros t; reflexivity]).
  assert (Hiv : sleepable (linear_interval_at (quiet_platform (400, 300) (fun _ => 47))
                             (with_jitter default_config false) boot) = true)
    by (vm_compute; reflexivity).
  split; [split; [exact HP|split; [vm_compute; reflexivity|exact Hiv]]|].
  destruct (linear_mouse_move_writes (quiet_platform (400, 300) (fun _ => 47))
              (with_jitter default_config false) 50 300 boot 400 300
              HP eq_refl ltac:(cbn; lia) ltac:(cbn; lia) ltac:(cbn; lia) ltac:(cbn; lia)
              ltac:(cbn; lia) ltac:(cbn; lia) ltac:(cbn; lia) Hiv)
    as (w' & pts & E & Hw & _ & Hlen & _).
  exists w', pts. split; [exact E|]. split; [exact Hw|exact Hlen].
Defined.

(** A step range that lets 0 be drawn makes [linear_mouse_move] divide by
    zero before any write, and a negative count makes it return without a
    write: the step count is not checked. *)
Theorem linear_mouse_move_unchecked_steps P cfg target_x target_y w start_x start_y :
  undisturbed P ->
  cursor P (S (ticks w)) = (start_x, start_y) ->
  fst (LINEAR_STEPS_RANGE cfg) <= snd (LINEAR_STEPS_RANGE cfg) ->
  (linear_steps_at P cfg w = 0 ->
   linear_mouse_move P cfg target_x target_y w =
     (Raise ZeroDivisionError, {| ticks := 4 + ticks w; log := log w |})) /\
  (linear_steps_at P cfg w < 0 ->
   Z.abs (target_x - start_x) < 2 ^ 1023 -> Z.abs (target_y - start_y) < 2 ^ 1023 ->
   linear_mouse_move P cfg target_x target_y w =
     (Ok tt, {| ticks := 4 + ticks w; log := log w |})).
Proof.
  intros HP Hc Hr.
  pose proof (linear_mouse_move_unfold P cfg target_x target_y w start_x start_y HP Hc Hr)
    as E.
  rewrite E. cbv zeta. split.
  - intros ->. reflexivity.
  - intros HN Hx Hy. unfold bind at 1, lift at 1.
    rewrite (int_truediv_run (target_x - start_x) _ 1023) by lia. cbv beta iota.
    unfold bind at 1, lift at 1.
    rewrite (int_truediv_run (target_y - start_y) _ 1023) by lia. cbv beta iota.
    rewrite range_empty by lia. reflexivity.
Qed.

(** ** Witnesses on concrete platforms *)

Lemma main_alternates_witness :
  (RANDOMIZE_MOVEMENT_TYPES turns_config = false /\
   1 <= MAX_CONSECUTIVE_SAME_TYPE turns_config) /\
  exists k,
    dispatched (log (snd (main (quiet_platform (400, 300) (fun _ => 2 ^ 52)) turns_config 2)))
    = alternating k linear.
Proof.
  split; [split; [reflexivity|cbn; lia]|].
  exact (main_alternates (quiet_platform (400, 300) (fun _ => 2 ^ 52)) turns_config 2
           eq_refl eq_refl eq_refl ltac:(cbn; lia)).
Defined.

Lemma small_movement_never_returns_witness :
  2 * (snd (SMALL_MOVEMENT_RANGE far_config) * snd (SMALL_MOVEMENT_RANGE far_config)) <
    fst (SMALL_MOVEMENT_RANGE far_config) * fst (SMALL_MOVEMENT_RANGE far_config) /\
  fst (get_small_movement_position (quiet_platform (400, 300) (fun _ => 0)) far_config
                                   3 400 300 boot) = Pending.
Proof.
  split; [cbn; lia|].
  exact (small_movement_never_returns (quiet_platform (400, 300) (fun _ => 0)) far_config
           400 300 (conj eq_refl (fun _ => eq_refl))
           ltac:(cbn; lia) ltac:(cbn; lia) ltac:(cbn; lia) ltac:(cbn; lia)
           ltac:(cbn; lia) ltac:(cbn; lia) ltac:(cbn; lia) 3%nat boot).
Defined.

Lemma linear_mouse_move_unchecked_steps_witness :
  linear_steps_at (quiet_platform (400, 300) (fun _ => 47)) no_step_config boot = 0 /\
  linear_mouse_move (quiet_platform (400, 300) (fun _ => 47)) no_step_config 50 300 boot =
    (Raise ZeroDivisionError, {| ticks := 4; log := [] |}).
Proof.
  split; [reflexivity|].
  exact (proj1 (linear_mouse_move_unchecked_steps
                  (quiet_platform (400, 300) (fun _ => 47)) no_step_config 50 300 boot
                  400 300 (conj eq_refl (fun _ => eq_refl)) eq_refl ltac:(cbn; lia))
               eq_refl).
Defined.

Lemma human_like_mouse_move_pauses_witness :
  exists r w',
    human_like_mouse_move (quiet_platform (400, 300) (fun _ => 2 ^ 52)) default_config
                          420 310 boot = (r, w') /\
    exists evs, log w' = log boot ++ evs /\ Forall (paused_at_least (dec 1 1000)) evs.
Proof.
  eexists. eexists.
  match goal with
  | |- ?run = _ /\ _ =>
    let v := eval vm_compute in run in
    match v with
    | (?r1, ?w1) =>
      assert (E : run = (r1, w1)) by (vm_compute; reflexivity);
      split; [exact E|];
      exact (human_like_mouse_move_pauses _ _ _ _ _ _ _ E)
    end
  end.
Defined.

(** ** Binary64 arithmetic: signs and lower bounds *)

(** Rounding keeps the binade of a value of the normal range, or moves it
    to the next one. *)
Lemma bra64_magnitude s m e l :
  0 < m -> e <= 971 -> -1073 <= Zdigits2 m + e <= 1023 ->
  exists p e',
    bra64 s m e l = S754_finite s p e' /\
    Zdigits2 m + e <= Z.pos (digits2_pos p) + e' <= Zdigits2 m + e + 1.
Proof.
  intros Hm He HD.
  destruct (bra64_spec s m e l ltac:(lia)) as (l1 & _ & H). cbv zeta in H. rewrite H. clear H.
  set (D := Zdigits2 m + e) in *.
  set (e1 := Z.max e (fexp64 D)).
  set (m1 := m / 2 ^ (e1 - e)).
  set (m2 := round_nearest_even m1 l1).
  set (e2 := Z.max e1 (fexp64 (Zdigits2 m2 + e1))).
  pose proof (Zdigits2_pos m Hm) as Hdm.
  assert (He1 : -1074 <= e1 <= 971) by (subst e1; rewrite fexp64_eq; lia).
  assert (Hsh1 : 0 <= e1 - e < Zdigits2 m) by (subst e1 D; rewrite fexp64_eq; lia).
  assert (Hd1 : Zdigits2 m1 = Zdigits2 m - (e1 - e))
    by (subst m1; apply Zdigits2_div_pow2; lia).
  assert (Hm1 : 0 < m1).
  { destruct (Z_lt_le_dec 0 m1) as [|Hle]; [assumption|exfalso].
    assert (Hp : 0 < 2 ^ (e1 - e)) by (apply Z.pow_pos_nonneg; lia).
    assert (0 <= m1) by (subst m1; apply Z.div_pos; lia).
    assert (m1 = 0) by lia.
    rewrite H0 in Hd1. cbn [Zdigits2] in Hd1. lia. }
  assert (Hm2 : m2 = m1 \/ m2 = m1 + 1) by apply round_nearest_even_range.
  assert (Hd2 : Zdigits2 m1 <= Zdigits2 m2 <= Zdigits2 m1 + 1).
  { split; [apply Zdigits2_mono; lia|].
    apply Zdigits2_le; [lia|lia|].
    pose proof (Zdigits2_bounds m1 Hm1) as [_ Hhi].
    rewrite Z.pow_add_r by lia. lia. }
  assert (He2 : -1074 <= e2 <= 971) by (subst e2; rewrite fexp64_eq; lia).
  assert (Hsh2 : 0 <= e2 - e1 < Zdigits2 m2) by (subst e2; rewrite fexp64_eq; lia).
  assert (Hd3 : Zdigits2 (m2 / 2 ^ (e2 - e1)) = Zdigits2 m2 - (e2 - e1))
    by (apply Zdigits2_div_pow2; lia).
  destruct (m2 / 2 ^ (e2 - e1)) as [|p|p] eqn:E3.
  - cbn [Zdigits2] in Hd3. lia.
  - destruct (e2 <=? 971) eqn:E; [|apply Z.leb_gt in E; lia].
    exists p, e2. split; [reflexivity|].
    change (Z.pos (digits2_pos p)) with (Zdigits2 (Z.pos p)). lia.
  - exfalso.
    assert (0 <= m2 / 2 ^ (e2 - e1)).
    { apply Z.div_pos; [lia|]. apply Z.pow_pos_nonneg; lia. }
    lia.
Qed.

Lemma binary_normalize_magnitude m e :
  0 < m -> -1073 <= Zdigits2 m + e <= 1023 ->
  exists p e',
    binary_normalize F64.prec F64.emax m e false = S754_finite false p e' /\
    Zdigits2 m + e <= Z.pos (digits2_pos p) + e' <= Zdigits2 m + e + 1.
Proof.
  intros Hm HD. destruct m as [|q|q]; try lia.
  cbn [binary_normalize]. unfold binary_round.
  pose proof (shl_align_spec q e (fexp64 (Z.pos (digits2_pos q) + e))) as H.
  destruct (shl_align q e (fexp64 (Z.pos (digits2_pos q) + e))) as [mz ez].
  destruct H as [Hez Hmz].
  change (Z.pos (digits2_pos q)) with (Zdigits2 (Z.pos q)) in *.
  assert (Hsh : 0 <= e - ez) by lia.
  assert (Hdz : Zdigits2 (Z.pos mz) + ez = Zdigits2 (Z.pos q) + e).
  { rewrite Hmz, Zdigits2_mul_pow2 by lia. lia. }
  destruct (bra64_magnitude false (Z.pos mz) ez loc_Exact ltac:(lia))
    as (p & e' & E & B); [rewrite fexp64_eq in Hez; lia|lia|].
  exists p, e'. split; [exact E|lia].
Qed.

(** *** Signs *)

Lemma binary_normalize_sign m e :
  0 <= m -> F64.sign (binary_normalize F64.prec F64.emax m e false) = false.
Proof.
  intros Hm. destruct m as [|p|p]; [reflexivity| |lia].
  cbn [binary_normalize]. unfold binary_round.
  destruct (shl_align _ _ _) as [mz ez]. apply bra64_sign. lia.
Qed.

Lemma add_sign x y :
  F64.is_finite x = true -> F64.is_finite y = true ->
  F64.sign x = false -> F64.sign y = false -> F64.sign (F64.add x y) = false.
Proof.
  destruct x as [sx|sx| |sx mx ex], y as [sy|sy| |sy my ey];
    cbn [F64.sign F64.is_finite]; intros Fx Fy; try discriminate; intros Hx Hy; subst;
    try reflexivity.
  unfold F64.add, SFadd. cbn [cond_Zopp].
  apply binary_normalize_sign. lia.
Qed.

Lemma random_at_sign P t : F64.sign (random_at P t) = false.
Proof.
  unfold random_at, F64.scaled. apply binary_normalize_sign.
  pose proof (Z.mod_pos_bound (entropy P t) (2 ^ 53) ltac:(lia)). lia.
Qed.

(** *** Lower bounds *)

Lemma above_mono k k' x : above k x -> k' <= k -> above k' x.
Proof. destruct x as [| | |[] m e]; cbn; auto. lia. Qed.

Lemma above_sign k x : above k x -> F64.sign x = false.
Proof. destruct x as [| | |[] m e]; cbn; auto; contradiction. Qed.

Lemma above_finite k x : above k x -> F64.is_finite x = true.
Proof. destruct x as [| | |[] m e]; cbn; auto; contradiction. Qed.

Lemma above_not_zero k x : above k x -> F64.is_zero x = false.
Proof. destruct x as [| | |[] m e]; cbn; auto; contradiction. Qed.

Lemma above_below_le k a x : above k x -> below a x -> k <= a.
Proof. destruct x as [| | |[] m e]; cbn; try contradiction. lia. Qed.

(** Adding a non-negative value to a positive one does not make it
    smaller. *)
Lemma add_above k a b x y :
  above k x -> below a x -> below b y -> F64.sign y = false ->
  -1073 <= k -> Z.max a b + 1 <= 1023 ->
  above k (F64.add x y) /\ below (Z.max a b + 2) (F64.add x y).
Proof.
  intros Hk Hx Hy Hs Hlo Hhi.
  pose proof (above_below_le _ _ _ Hk Hx) as Hka.
  split; [|apply add_below; try assumption; lia].
  destruct x as [sx|sx| |[] mx ex]; cbn [above] in Hk; try contradiction.
  destruct y as [sy|sy| |sy my ey]; cbn [below F64.sign] in Hy, Hs; try contradiction.
  - exact Hk.
  - subst sy. cbn [below] in Hx.
    unfold F64.add, SFadd. cbn [cond_Zopp].
    pose proof (aligned_sum_below false mx ex false my ey a b (fun v => v)
                  ltac:(reflexivity) Hx Hy) as Hsum.
    cbv zeta in Hsum. cbn [cond_Zopp] in Hsum.
    pose proof (shl_align_spec mx ex (Z.min ex ey)) as H1.
    pose proof (shl_align_spec my ey (Z.min ex ey)) as H2.
    destruct (shl_align mx ex (Z.min ex ey)) as [mx' ex'],
             (shl_align my ey (Z.min ex ey)) as [my' ey'].
    cbn [fst] in *. destruct H1 as [E1 M1], H2 as [E2 M2].
    set (q := Z.pos mx' + Z.pos my') in *.
    assert (Hq : Zdigits2 (Z.pos mx) + ex <= Zdigits2 q + Z.min ex ey).
    { assert (Hd : Zdigits2 (Z.pos mx') = Zdigits2 (Z.pos mx) + (ex - ex'))
        by (rewrite M1; apply Zdigits2_mul_pow2; lia).
      assert (Zdigits2 (Z.pos mx') <= Zdigits2 q) by (apply Zdigits2_mono; lia).
      lia. }
    change (Z.pos (digits2_pos mx)) with (Zdigits2 (Z.pos mx)) in *.
    destruct (binary_normalize_magnitude q (Z.min ex ey) ltac:(lia) ltac:(lia))
      as (p & e' & E & B).
    rewrite E. cbn [above]. lia.
Qed.

(** A quotient of positive values: its binade is the difference of the
    binades, up to two. *)
Lemma div_magnitude mx ex my ey :
  let Dx := Zdigits2 (Z.pos mx) + ex in
  let Dy := Zdigits2 (Z.pos my) + ey in
  -1020 <= Dx - Dy <= 1020 ->
  exists p e,
    F64.div (S754_finite false mx ex) (S754_finite false my ey) = S754_finite false p e /\
    Dx - Dy <= Z.pos (digits2_pos p) + e <= Dx - Dy + 2.
Proof.
  intros Dx Dy HD. unfold F64.div, SFdiv, SFdiv_core_binary.
  set (d1 := Zdigits2 (Z.pos mx)) in *. set (d2 := Zdigits2 (Z.pos my)) in *.
  fold Dx Dy.
  set (e' := Z.min (fexp64 (Dx - Dy)) (ex - ey)).
  assert (He' : e' <= Dx - Dy - 53 /\ e' <= ex - ey /\ -1074 <= e' \/ True) by auto.
  assert (He1 : e' <= Dx - Dy - 53) by (subst e'; rewrite fexp64_eq; lia).
  assert (He2 : e' <= ex - ey) by (subst e'; lia).
  set (s := ex - ey - e').
  assert (Hs : 0 <= s) by (subst s; lia).
  assert (Hs53 : d2 + 53 <= d1 + s) by (subst s Dx Dy; lia).
  assert (Hd1 : 0 < d1) by (apply Zdigits2_pos; lia).
  assert (Hd2 : 0 < d2) by (apply Zdigits2_pos; lia).
  assert (Hm' : match s with
                | Z.pos _ => Z.shiftl (Z.pos mx) s
                | 0 => Z.pos mx
                | Z.neg _ => 0
                end = Z.pos mx * 2 ^ s).
  { destruct s as [|ps|ps] eqn:Es; [lia| |lia].
    rewrite Z.shiftl_mul_pow2 by lia. reflexivity. }
  rewrite Hm'. rewrite div_eucl_div_mod. cbv iota.
  set (q := Z.pos mx * 2 ^ s / Z.pos my).
  pose proof (Zdigits2_bounds (Z.pos mx) ltac:(lia)) as [Lx Ux]. fold d1 in Lx, Ux.
  pose proof (Zdigits2_bounds (Z.pos my) ltac:(lia)) as [Ly Uy]. fold d2 in Ly, Uy.
  assert (Hp : 0 < 2 ^ s) by (apply Z.pow_pos_nonneg; lia).
  assert (Hq : 2 ^ (d1 + s - d2 - 1) <= q < 2 ^ (d1 + s - d2 + 1)).
  { subst q. split.
    - apply Z.div_le_lower_bound; [lia|].
      apply Z.le_trans with (2 ^ d2 * 2 ^ (d1 + s - d2 - 1)).
      + apply Z.mul_le_mono_nonneg_r; [apply Z.pow_nonneg; lia|lia].
      + rewrite <- Z.pow_add_r by lia.
        replace (d2 + (d1 + s - d2 - 1)) with (d1 - 1 + s) by lia.
        rewrite Z.pow_add_r by lia. nia.
    - apply Z.div_lt_upper_bound; [lia|].
      apply Z.lt_le_trans with (2 ^ d1 * 2 ^ s); [nia|].
      apply Z.le_trans with (2 ^ (d2 - 1) * 2 ^ (d1 + s - d2 + 1)).
      + rewrite <- !Z.pow_add_r by lia. apply Z.pow_le_mono_r; lia.
      + apply Z.mul_le_mono_nonneg_r; [apply Z.pow_nonneg; lia|lia]. }
  assert (Hq0 : 0 < q).
  { assert (0 < 2 ^ (d1 + s - d2 - 1)) by (apply Z.pow_pos_nonneg; lia). lia. }
  assert (Hdq : d1 + s - d2 <= Zdigits2 q <= d1 + s - d2 + 1).
  { split.
    - destruct (Z_le_gt_dec (d1 + s - d2) (Zdigits2 q)) as [|Hgt]; [assumption|exfalso].
      pose proof (Zdigits2_bounds q Hq0) as [_ Hu].
      assert (2 ^ Zdigits2 q <= 2 ^ (d1 + s - d2 - 1))
        by (apply Z.pow_le_mono_r; lia).
      lia.
    - apply Zdigits2_le; lia. }
  destruct (bra64_magnitude (xorb false false) q e'
              (new_location (Z.pos my) (Z.pos mx * 2 ^ s mod Z.pos my))
              Hq0 ltac:(lia) ltac:(subst s Dx Dy; lia))
    as (p & e & E & B).
  exists p, e. split; [exact E|]. subst s Dx Dy. lia.
Qed.

(** [int(x)] of a value of at least 1 is at least 1. *)
Lemma trunc_above x :
  above 1 x -> exists z, Py.int_of_float x = Ok z /\ 1 <= z.
Proof.
  destruct x as [| | |[] m e]; cbn [above]; try contradiction. intros H.
  unfold Py.int_of_float. cbn [F64.trunc cond_Zopp].
  eexists. split; [reflexivity|].
  change (Z.pos (digits2_pos m)) with (Zdigits2 (Z.pos m)) in H.
  pose proof (Zdigits2_bounds (Z.pos m) ltac:(lia)) as [L _].
  destruct e as [|pe|pe].
  - lia.
  - assert (0 < 2 ^ Z.pos pe) by (apply Z.pow_pos_nonneg; lia). nia.
  - apply Z.div_le_lower_bound; [apply Z.pow_pos_nonneg; lia|].
    rewrite Z.mul_1_r.
    apply Z.le_trans with (2 ^ (Zdigits2 (Z.pos m) - 1)); [|exact L].
    apply Z.pow_le_mono_r; lia.
Qed.

(** ** Random draws within bounds *)

(** [random.uniform(a, b)] for [0 < a <= b]: at least [a]. *)
Lemma uniform_at_above P a b t ka ba bc :
  above ka a -> below ba a ->
  below bc (F64.sub b a) -> F64.sign (F64.sub b a) = false ->
  -1073 <= ka -> -1075 <= bc <= 972 -> Z.max ba (bc + 2) + 1 <= 1023 ->
  above ka (uniform_at P (a, b) t) /\
  below (Z.max ba (bc + 2) + 2) (uniform_at P (a, b) t).
Proof.
  intros Ha Hba Hc Hcs Hk Hbc Hhi. unfold uniform_at. cbn [fst snd].
  assert (Hm : below (bc + 1 + 1) (F64.mul (F64.sub b a) (random_at P t)))
    by (apply (mul_below bc 1); [assumption|apply random_at_below|lia]).
  replace (bc + 1 + 1) with (bc + 2) in Hm by lia.
  apply add_above; try assumption.
  apply mul_sign; [assumption|apply random_at_sign].
Qed.

Lemma sleepable_above k x : above k x -> below 32 x -> sleepable x = true.
Proof.
  intros H Hb. apply sleepable_nonneg; [exact Hb|exact (above_sign _ _ H)].
Qed.

(** *** The step count of a curved movement *)

(** [int(x / y)] for [x >= 1 > y > 0]: at least 1. *)
Lemma quotient_steps x y kx bx ky by_ :
  above kx x -> below bx x -> above ky y -> below by_ y ->
  1 <= kx - by_ -> bx - ky <= 1020 ->
  exists steps,
    (let? q := Py.float_truediv x y in Py.int_of_float q) = Ok steps /\ 1 <= steps.
Proof.
  intros Hkx Hbx Hky Hby Hlo Hhi.
  unfold Py.float_truediv. rewrite (above_not_zero _ _ Hky). cbn [rbind].
  pose proof (above_below_le _ _ _ Hkx Hbx). pose proof (above_below_le _ _ _ Hky Hby).
  destruct x as [| | |[] mx ex]; cbn [above] in Hkx; try contradiction.
  destruct y as [| | |[] my ey]; cbn [above] in Hky; try contradiction.
  cbn [below] in Hbx, Hby.
  change (Z.pos (digits2_pos mx)) with (Zdigits2 (Z.pos mx)) in *.
  change (Z.pos (digits2_pos my)) with (Zdigits2 (Z.pos my)) in *.
  destruct (div_magnitude mx ex my ey ltac:(lia)) as (p & e & E & B).
  rewrite E. apply trunc_above. cbn [above]. lia.
Qed.

(** *** Control points *)

Lemma control_at_bounded P start d c off t :
  Z.abs start < 2 ^ 24 -> Z.abs d < 2 ^ 25 -> below 0 c -> below 30 off ->
  below 57 (control_at P start d c off t).
Proof.
  intros Hs Hd Hc Hoff. unfold control_at.
  assert (H1 : below 25 (F64.of_Z start)) by (apply (of_Z_below _ 24); lia).
  assert (H2 : below 26 (F64.of_Z d)) by (apply (of_Z_below _ 25); lia).
  assert (H3 : below 27 (F64.mul (F64.of_Z d) c))
    by (apply (mul_below 26 0); try assumption; lia).
  pose proof (add_below 25 27 _ _ H1 H3 ltac:(lia)) as H4.
  pose proof (uniform_at_symmetric_below P off t 30 Hoff ltac:(lia)) as H5.
  pose proof (add_below _ _ _ _ H4 H5 ltac:(lia)) as H6.
  eapply below_mono; [exact H6|lia].
Qed.

Lemma offset_range_below dx dy curvature :
  Z.abs dx < 2 ^ 25 -> Z.abs dy < 2 ^ 25 -> below 2 curvature ->
  below 30 (F64.mul (F64.sqrt (F64.of_Z (dx ^ 2 + dy ^ 2))) curvature).
Proof.
  intros Hx Hy Hc.
  assert (Hn : 0 <= dx ^ 2 + dy ^ 2 < 2 ^ 51).
  { pose proof (square_le_square dx (2 ^ 25) ltac:(lia)).
    pose proof (square_le_square dy (2 ^ 25) ltac:(lia)).
    assert (Hsx : dx ^ 2 < 2 ^ 25 * 2 ^ 25).
    { rewrite Z.pow_2_r, <- (Z.abs_square dx).
      apply Z.mul_lt_mono_nonneg; lia. }
    assert (Hsy : dy ^ 2 < 2 ^ 25 * 2 ^ 25).
    { rewrite Z.pow_2_r, <- (Z.abs_square dy).
      apply Z.mul_lt_mono_nonneg; lia. }
    change (2 ^ 25 * 2 ^ 25) with (2 ^ 50) in *. change (2 ^ 51) with (2 * 2 ^ 50).
    generalize dependent (dx ^ 2). generalize dependent (dy ^ 2). intros; lia. }
  assert (Hb : below (51 + 1) (F64.of_Z (dx ^ 2 + dy ^ 2)))
    by (apply of_Z_below; lia).
  assert (Hsg : F64.sign (F64.of_Z (dx ^ 2 + dy ^ 2)) = false) by (apply of_Z_sign; lia).
  assert (Hs : below (Z.max (-1074) ((51 + 1 + 1) / 2) + 1)
                     (F64.sqrt (F64.of_Z (dx ^ 2 + dy ^ 2))))
    by (apply sqrt_below; [exact Hb|exact Hsg|lia]).
  change (Z.max (-1074) ((51 + 1 + 1) / 2) + 1) with 27 in Hs.
  apply (mul_below 27 2); try assumption. lia.
Qed.

(** *** A step of the curve, with or without jitter *)

Section CurveSteps.

Variable P : platform.
Variable cfg : config.
Hypothesis HP : undisturbed P.
Hypothesis Hpw : pow_sane (libm_pow P).
Hypothesis HJ : 0 <= jitter_bound cfg <= 2 ^ 31.

Variables (start_x start_y target_x target_y steps : Z).
Variables (ctrl1_x ctrl1_y ctrl2_x ctrl2_y : spec_float).
Hypothesis Hsx : Z.abs start_x < 2 ^ 52.
Hypothesis Hsy : Z.abs start_y < 2 ^ 52.
Hypothesis Htx : Z.abs target_x < 2 ^ 52.
Hypothesis Hty : Z.abs target_y < 2 ^ 52.
Hypothesis Hc1x : below 57 ctrl1_x.
Hypothesis Hc1y : below 57 ctrl1_y.
Hypothesis Hc2x : below 57 ctrl2_x.
Hypothesis Hc2y : below 57 ctrl2_y.
Hypothesis Hsteps : 1 <= steps.

Lemma add_jitter_ok v j :
  below 102 v -> Z.abs j <= jitter_bound cfg ->
  exists v', add_jitter cfg v j = Ok v' /\ below 104 v'.
Proof.
  intros Hv Hj. unfold add_jitter, jitter_bound in *.
  destruct (ENABLE_JITTER cfg).
  - rewrite float_of_int_exact by lia. cbn [rbind].
    eexists. split; [reflexivity|].
    assert (Hf : below 33 (F64.of_Z j)) by (apply (of_Z_below _ 32); lia).
    exact (add_below 102 33 _ _ Hv Hf ltac:(lia)).
  - exists v. split; [reflexivity|]. eapply below_mono; [exact Hv|lia].
Qed.

Lemma bezier_step_returns step_interval i w :
  below 30 step_interval ->
  0 <= i <= steps ->
  exists w' p d,
    bezier_step P cfg start_x start_y ctrl1_x ctrl1_y ctrl2_x ctrl2_y
                target_x target_y step_interval steps i w = (Ok tt, w') /\
    log w' = log w ++ [SetCursor (fst p) (snd p); Sleep d].
Proof.
  intros Hiv Hi. unfold bezier_step.
  destruct (int_truediv_unit i steps Hi Hsteps) as (t & Et & Ht & _).
  destruct (bezier_coord_below P Hpw t start_x ctrl1_x ctrl2_x target_x
              Ht Hsx Htx Hc1x Hc2x) as (vx & Ex & Bx).
  destruct (bezier_coord_below P Hpw t start_y ctrl1_y ctrl2_y target_y
              Ht Hsy Hty Hc1y Hc2y) as (vy & Ey & By).
  unfold bind at 1, lift at 1. rewrite Et. cbv beta iota.
  unfold bind at 1, lift at 1. rewrite Ex. cbv beta iota.
  unfold bind at 1, lift at 1. rewrite Ey. cbv beta iota.
  destruct (jitter_run P cfg w HP (proj1 HJ)) as (jx & jy & w1 & Ej & Lj & Jx & Jy).
  unfold bind at 1. rewrite Ej. cbv beta iota.
  destruct (add_jitter_ok vx jx Bx Jx) as (vx' & Ex' & Bx').
  destruct (add_jitter_ok vy jy By Jy) as (vy' & Ey' & By').
  unfold bind at 1, lift at 1. rewrite Ex'. cbv beta iota.
  unfold bind at 1, lift at 1. rewrite Ey'. cbv beta iota.
  destruct (int_of_float_below _ _ Bx') as (px & Epx).
  destruct (int_of_float_below _ _ By') as (py & Epy).
  unfold bind at 1, lift at 1. rewrite Epx. cbv beta iota.
  unfold bind at 1, lift at 1. rewrite Epy. cbv beta iota.
  unfold bind at 1. rewrite (set_cursor_pos_run P HP). cbv beta iota.
  unfold bind at 1. rewrite (uniform_run P HP). cbv beta iota.
  rewrite (sleep_run P HP) by (apply pause_sleepable; exact Hiv).
  eexists. exists (px, py). eexists. split; [reflexivity|].
  cbn [log fst snd]. rewrite Lj, <- app_assoc. reflexivity.
Qed.

Lemma bezier_loop_returns step_interval w :
  below 30 step_interval ->
  exists w' pts,
    for_each (range 0 (steps + 1))
      (bezier_step P cfg start_x start_y ctrl1_x ctrl1_y ctrl2_x ctrl2_y
                   target_x target_y step_interval steps) w = (Ok tt, w') /\
    cursor_writes (log w') = cursor_writes (log w) ++ pts /\
    List.length pts = Z.to_nat (steps + 1).
Proof.
  intros Hiv.
  destruct (for_each_log
              (bezier_step P cfg start_x start_y ctrl1_x ctrl1_y ctrl2_x ctrl2_y
                           target_x target_y step_interval steps)
              (fun _ evs => exists p d, evs = [SetCursor (fst p) (snd p); Sleep d])
              (range 0 (steps + 1)) w) as (w' & evss & E & L & F).
  { intros i w1 Hi. apply in_range in Hi.
    destruct (bezier_step_returns step_interval i w1 Hiv ltac:(lia)) as (w2 & p & d & E2 & L2).
    exists w2. eexists. split; [exact E2|]. split; [exact L2|]. eauto. }
  assert (Hc : forall xs evss,
             Forall2 (fun (_ : Z) evs =>
                        exists p d, evs = [SetCursor (fst p) (snd p); Sleep d]) xs evss ->
             List.length (cursor_writes (List.concat evss)) = List.length xs).
  { induction 1 as [|x evs xs' evss' (p & d & ->) _ IH]; [reflexivity|].
    cbn [List.concat]. rewrite cursor_writes_app, length_app, IH. reflexivity. }
  exists w', (cursor_writes (List.concat evss)).
  split; [exact E|]. split; [rewrite L; apply cursor_writes_app|].
  rewrite (Hc _ _ F), range_length. f_equal. lia.
Qed.

End CurveSteps.

(** ** Curved generator: any curvature, with or without jitter *)

(** [human_like_mouse_move] up to its loop, with control points that keep
    the curve finite. *)
Lemma human_like_mouse_move_loop P cfg target_x target_y w start_x start_y steps :
  undisturbed P ->
  cursor P (S (ticks w)) = (start_x, start_y) ->
  Z.abs start_x < 2 ^ 24 -> Z.abs start_y < 2 ^ 24 ->
  Z.abs target_x < 2 ^ 24 -> Z.abs target_y < 2 ^ 24 ->
  below 2 (derived_curvature P cfg w) ->
  derived_steps P cfg w = Ok steps ->
  exists c1x c1y c2x c2y,
    (below 57 c1x /\ below 57 c1y /\ below 57 c2x /\ below 57 c2y) /\
    human_like_mouse_move P cfg target_x target_y w =
    for_each (range 0 (steps + 1))
      (bezier_step P cfg start_x start_y c1x c1y c2x c2y target_x target_y
         (uniform_at P (BEZIER_STEP_INTERVAL_RANGE cfg) (S (S (S (ticks w))))) steps)
      {| ticks := 9 + ticks w; log := log w |}.
Proof.
  intros HP Hc Hsx Hsy Htx Hty Hcurv Hsteps.
  rewrite (human_like_mouse_move_unfold P cfg target_x target_y w start_x start_y HP Hc)
    by lia.
  cbv zeta. rewrite Hsteps.
  set (dx := target_x - start_x). set (dy := target_y - start_y).
  assert (Hdx : Z.abs dx < 2 ^ 25) by (subst dx; lia).
  assert (Hdy : Z.abs dy < 2 ^ 25) by (subst dy; lia).
  pose proof (offset_range_below dx dy _ Hdx Hdy Hcurv) as Hoff.
  unfold derived_curvature in Hoff.
  eexists. eexists. eexists. eexists. split; [|reflexivity].
  split; [|split; [|split]].
  - exact (control_at_bounded P start_x dx _ _ _ Hsx Hdx dec_3_10_below Hoff).
  - exact (control_at_bounded P start_y dy _ _ _ Hsy Hdy dec_3_10_below Hoff).
  - exact (control_at_bounded P start_x dx _ _ _ Hsx Hdx dec_7_10_below Hoff).
  - exact (control_at_bounded P start_y dy _ _ _ Hsy Hdy dec_7_10_below Hoff).
Qed.

(** On a platform without faults or Ctrl-C, with coordinates below [2^24],
    a curvature factor below 4, a step interval below [2^30] seconds, a
    jitter intensity that is not negative and a derived step count
    [steps >= 1], [human_like_mouse_move] returns after writing exactly
    [steps + 1] points, whatever the random numbers: no conversion or power
    overflows, and [time.sleep] accepts every pause.  (From about 9.22e9
    seconds on it would raise [OverflowError] at the first pause.) *)
Theorem human_like_mouse_move_returns P cfg target_x target_y w start_x start_y steps :
  undisturbed P ->
  pow_sane (libm_pow P) ->
  cursor P (S (ticks w)) = (start_x, start_y) ->
  Z.abs start_x < 2 ^ 24 -> Z.abs start_y < 2 ^ 24 ->
  Z.abs target_x < 2 ^ 24 -> Z.abs target_y < 2 ^ 24 ->
  below 2 (derived_curvature P cfg w) ->
  below 30 (derived_interval P cfg w) ->
  0 <= jitter_bound cfg <= 2 ^ 31 ->
  derived_steps P cfg w = Ok steps ->
  1 <= steps ->
  exists w' pts,
    human_like_mouse_move P cfg target_x target_y w = (Ok tt, w') /\
    cursor_writes (log w') = cursor_writes (log w) ++ pts /\
    List.length pts = Z.to_nat (steps + 1).
Proof.
  intros HP Hpw Hc Hsx Hsy Htx Hty Hcurv Hiv HJ Hsteps H1.
  destruct (human_like_mouse_move_loop P cfg target_x target_y w start_x start_y steps
              HP Hc Hsx Hsy Htx Hty Hcurv Hsteps)
    as (c1x & c1y & c2x & c2y & (B1 & B2 & B3 & B4) & E).
  rewrite E.
  exact (bezier_loop_returns P cfg HP Hpw HJ start_x start_y target_x target_y steps
           c1x c1y c2x c2y ltac:(lia) ltac:(lia) ltac:(lia) ltac:(lia) B1 B2 B3 B4 H1
           _ _ Hiv).
Qed.

(** ** The shipped configuration *)

Lemma default_duration P t :
  above 1 (uniform_at P (MOVEMENT_DURATION_RANGE default_config) t) /\
  below 6 (uniform_at P (MOVEMENT_DURATION_RANGE default_config) t).
Proof.
  change (MOVEMENT_DURATION_RANGE default_config) with (F64.of_Z 1, F64.of_Z 3).
  apply (uniform_at_above P (F64.of_Z 1) (F64.of_Z 3) t 1 1 2); try lia;
    vm_compute; first [reflexivity | discriminate].
Qed.

Lemma default_bezier_interval P t :
  above (-6) (uniform_at P (BEZIER_STEP_INTERVAL_RANGE default_config) t) /\
  below (-1) (uniform_at P (BEZIER_STEP_INTERVAL_RANGE default_config) t).
Proof.
  change (BEZIER_STEP_INTERVAL_RANGE default_config) with (dec 1 100, dec 3 100).
  apply (uniform_at_above P (dec 1 100) (dec 3 100) t (-6) (-6) (-5)); try lia;
    vm_compute; first [reflexivity | discriminate].
Qed.

Lemma default_linear_interval P w :
  sleepable (linear_interval_at P default_config w) = true.
Proof.
  assert (H : above (-7) (uniform_at P (dec 5 1000, dec 2 100) (2 + ticks w)) /\
              below (Z.max (-7) (-5 + 2) + 2)
                    (uniform_at P (dec 5 1000, dec 2 100) (2 + ticks w))).
  { apply (uniform_at_above P (dec 5 1000) (dec 2 100) (2 + ticks w) (-7) (-7) (-5));
      try lia; vm_compute; first [reflexivity | discriminate]. }
  apply (sleepable_above (-7)).
  - exact (proj1 H).
  - eapply below_mono; [exact (proj2 H)|lia].
Qed.

Lemma default_curvature P w : below 2 (derived_curvature P default_config w).
Proof.
  assert (H : above (-2) (uniform_at P (dec 2 10, dec 4 10) (4 + ticks w)) /\
              below (Z.max (-2) (-2 + 2) + 2)
                    (uniform_at P (dec 2 10, dec 4 10) (4 + ticks w))).
  { apply (uniform_at_above P (dec 2 10) (dec 4 10) (4 + ticks w) (-2) (-2) (-2));
      try lia; vm_compute; first [reflexivity | discriminate]. }
  exact (proj2 H).
Qed.

Lemma default_steps P w :
  exists steps, derived_steps P default_config w = Ok steps /\ 1 <= steps.
Proof.
  unfold derived_steps.
  destruct (default_duration P (S (S (ticks w)))) as [A1 B1].
  destruct (default_bezier_interval P (S (S (S (ticks w))))) as [A2 B2].
  apply (quotient_steps _ _ 1 6 (-6) (-1)); try assumption; lia.
Qed.

(** ** Runner: the shipped configuration never stops by itself *)

(** The sampling loop of a small movement does not raise when its window
    is a proper rectangle. *)
Lemma small_movement_loop_safe P cfg cx cy min_x min_y max_x max_y :
  undisturbed P ->
  min_x < max_x -> min_y < max_y ->
  (forall x y, min_x <= x <= max_x -> min_y <= y <= max_y ->
     0 <= (x - cx) ^ 2 + (y - cy) ^ 2 < 2 ^ 1023) ->
  forall n w, exists w',
    small_movement_loop P cfg n cx cy min_x min_y max_x max_y w = (Pending, w') \/
    exists x y,
      small_movement_loop P cfg n cx cy min_x min_y max_x max_y w = (Ok (x, y), w') /\
      min_x <= x <= max_x /\ min_y <= y <= max_y.
Proof.
  intros HP Hx Hy Hsq. induction n as [|n IH]; intros w.
  - exists w. left. reflexivity.
  - destruct (get_next_position_run P max_x max_y min_x min_y w Hx Hy (proj1 HP))
      as (x & y & E & Bx & By).
    assert (Eq : small_movement_loop P cfg (S n) cx cy min_x min_y max_x max_y w =
                 (if Py.float_ge_int (F64.sqrt (F64.of_Z ((x - cx) ^ 2 + (y - cy) ^ 2)))
                                     (fst (SMALL_MOVEMENT_RANGE cfg))
                  then ret (x, y)
                  else small_movement_loop P cfg n cx cy min_x min_y max_x max_y)
                   {| ticks := 2 + ticks w; log := log w |}).
    { cbn [small_movement_loop].
      unfold bind at 1. rewrite E. cbv beta iota.
      unfold bind at 1, lift at 1.
      rewrite math_sqrt_run by (apply Hsq; assumption).
      cbv beta iota. reflexivity. }
    rewrite Eq.
    destruct (Py.float_ge_int _ (fst (SMALL_MOVEMENT_RANGE cfg))).
    + eexists. right. exists x, y. split; [reflexivity|]. split; assumption.
    + apply IH.
Qed.

Lemma get_small_movement_position_safe P cfg n cx cy w :
  undisturbed P ->
  0 < fst (screen P) <= 2 ^ 24 -> 0 < snd (screen P) <= 2 ^ 24 ->
  0 < snd (SMALL_MOVEMENT_RANGE cfg) <= 2 ^ 24 ->
  - snd (SMALL_MOVEMENT_RANGE cfg) < cx < fst (screen P) + snd (SMALL_MOVEMENT_RANGE cfg) ->
  - snd (SMALL_MOVEMENT_RANGE cfg) < cy < snd (screen P) + snd (SMALL_MOVEMENT_RANGE cfg) ->
  exists w',
    get_small_movement_position P cfg n cx cy w = (Pending, w') \/
    exists x y,
      get_small_movement_position P cfg n cx cy w = (Ok (x, y), w') /\
      0 <= x <= fst (screen P) /\ 0 <= y <= snd (screen P).
Proof.
  intros HP Hsw Hsh HR Hcx Hcy.
  rewrite (get_small_movement_position_unfold P cfg n cx cy w HP).
  set (R := snd (SMALL_MOVEMENT_RANGE cfg)) in *.
  destruct (small_movement_loop_safe P cfg cx cy
              (Z.max 0 (cx - R)) (Z.max 0 (cy - R))
              (Z.min (fst (screen P)) (cx + R)) (Z.min (snd (screen P)) (cy + R))
              HP ltac:(lia) ltac:(lia)) with (n := n)
              (w := {| ticks := 2 + ticks w; log := log w |})
    as (w' & [E | (x & y & E & Bx & By)]).
  - intros x y Bx By.
    assert (Hdx : Z.abs (x - cx) <= 2 ^ 25) by lia.
    assert (Hdy : Z.abs (y - cy) <= 2 ^ 25) by lia.
    pose proof (square_le_square _ _ Hdx) as Sx.
    pose proof (square_le_square _ _ Hdy) as Sy.
    change (2 ^ 25 * 2 ^ 25) with (2 ^ 50) in *.
    assert (2 ^ 52 < 2 ^ 1023) by (apply Z.pow_lt_mono_r; lia).
    change (2 ^ 52) with (4 * 2 ^ 50) in *.
    generalize dependent ((x - cx) ^ 2). generalize dependent ((y - cy) ^ 2).
    intros; lia.
  - exists w'. left. exact E.
  - exists w'. right. exists x, y. split; [exact E|]. lia.
Qed.

Lemma sleep_int_run P k w :
  undisturbed P -> 0 <= k <= 9223372036 ->
  sleep_int P k w =
    (Ok tt, {| ticks := S (ticks w); log := log w ++ [Sleep (F64.of_Z k)] |}).
Proof.
  intros HP Hk. unfold sleep_int.
  destruct (k <? - 9223372036) eqn:E1; [apply Z.ltb_lt in E1; lia|].
  destruct (9223372036 <? k) eqn:E2; [apply Z.ltb_lt in E2; lia|].
  cbn [orb].
  destruct (k <? 0) eqn:E; [apply Z.ltb_lt in E; lia|].
  unfold bind. rewrite (tick_run P HP). reflexivity.
Qed.

Lemma choose_default_run P cc w :
  undisturbed P ->
  exists t,
    choose_movement_type P default_config cc w =
      (Ok t, {| ticks := S (ticks w); log := log w |}).
Proof.
  intros HP. unfold choose_movement_type, enabled_types.
  change (USE_LINEAR_MOVEMENT default_config) with true.
  change (USE_BEZIER_MOVEMENT default_config) with true.
  change (RANDOMIZE_MOVEMENT_TYPES default_config) with true.
  cbn [app negb]. unfold choice. rewrite (tick_run P HP). eauto.
Qed.

Section DefaultRun.

Variable P : platform.
Variable n : nat.
Variables sw sh : Z.
Hypothesis HP : undisturbed P.
Hypothesis Hpw : pow_sane (libm_pow P).
Hypothesis Hscreen : screen P = (sw, sh).
Hypothesis Hsw : 100 < sw <= 2 ^ 23.
Hypothesis Hsh : 100 < sh <= 2 ^ 23.
Hypothesis Hcur : forall t,
  -200 < fst (cursor P t) < sw + 200 /\ -200 < snd (cursor P t) < sh + 200.

Lemma linear_default_ok tx ty w :
  Z.abs tx <= 2 ^ 23 -> Z.abs ty <= 2 ^ 23 ->
  exists w', linear_mouse_move P default_config tx ty w = (Ok tt, w').
Proof.
  intros Htx Hty.
  destruct (cursor P (S (ticks w))) as [sx sy] eqn:Hc.
  pose proof (Hcur (S (ticks w))) as Hb. rewrite Hc in Hb. cbn [fst snd] in Hb.
  assert (Hr : fst (LINEAR_STEPS_RANGE default_config) = 30 /\
               snd (LINEAR_STEPS_RANGE default_config) = 80) by (split; reflexivity).
  rewrite (linear_mouse_move_unfold P default_config tx ty w sx sy HP Hc)
    by (destruct Hr as [-> ->]; lia).
  cbv zeta.
  pose proof (linear_steps_at_range P default_config w
                ltac:(destruct Hr as [-> ->]; lia)) as HN.
  destruct Hr as [R1 R2]. rewrite R1, R2 in HN.
  destruct (linear_loop_run P default_config tx ty sx sy
              (linear_steps_at P default_config w)
              (linear_interval_at P default_config w)
              {| ticks := 4 + ticks w; log := log w |}
              HP ltac:(vm_compute; discriminate)
              ltac:(lia) ltac:(lia) ltac:(lia) ltac:(lia) ltac:(lia)
              (default_linear_interval P w))
    as (w' & evss & E & _).
  exists w'. exact E.
Qed.

Lemma bezier_default_ok tx ty w :
  Z.abs tx <= 2 ^ 23 -> Z.abs ty <= 2 ^ 23 ->
  exists w', human_like_mouse_move P default_config tx ty w = (Ok tt, w').
Proof.
  intros Htx Hty.
  destruct (cursor P (S (ticks w))) as [sx sy] eqn:Hc.
  pose proof (Hcur (S (ticks w))) as Hb. rewrite Hc in Hb. cbn [fst snd] in Hb.
  destruct (default_steps P w) as (steps & Es & H1).
  destruct (human_like_mouse_move_loop P default_config tx ty w sx sy steps
              HP Hc ltac:(lia) ltac:(lia) ltac:(lia) ltac:(lia)
              (default_curvature P w) Es)
    as (c1x & c1y & c2x & c2y & (B1 & B2 & B3 & B4) & E).
  rewrite E.
  destruct (bezier_loop_returns P default_config HP Hpw
              ltac:(vm_compute; split; discriminate)
              sx sy tx ty steps c1x c1y c2x c2y
              ltac:(lia) ltac:(lia) ltac:(lia) ltac:(lia) B1 B2 B3 B4 H1
              (uniform_at P (BEZIER_STEP_INTERVAL_RANGE default_config)
                          (S (S (S (ticks w)))))
              {| ticks := 9 + ticks w; log := log w |}
              (below_mono (-1) 30 _
                 (proj2 (default_bezier_interval P (S (S (S (ticks w))))))
                 ltac:(lia)))
    as (w' & pts & E' & _).
  exists w'. exact E'.
Qed.

Lemma target_default_ok (small : bool) cx cy w :
  -200 < cx < sw + 200 -> -200 < cy < sh + 200 ->
  exists w',
    (if small
     then get_small_movement_position P default_config n cx cy
     else get_next_position P (sw - 50) (sh - 50) 50 50) w = (Pending, w') \/
    exists tx ty,
      (if small
       then get_small_movement_position P default_config n cx cy
       else get_next_position P (sw - 50) (sh - 50) 50 50) w = (Ok (tx, ty), w') /\
      Z.abs tx <= 2 ^ 23 /\ Z.abs ty <= 2 ^ 23.
Proof.
  intros Hcx Hcy. destruct small.
  - destruct (get_small_movement_position_safe P default_config n cx cy w HP)
      as (w' & [E | (x & y & E & Bx & By)]);
      try (rewrite Hscreen; cbn [fst snd]; lia);
      try (change (snd (SMALL_MOVEMENT_RANGE default_config)) with 200; lia).
    + change (snd (SMALL_MOVEMENT_RANGE default_config)) with 200.
      rewrite Hscreen; cbn [fst snd]; lia.
    + change (snd (SMALL_MOVEMENT_RANGE default_config)) with 200.
      rewrite Hscreen; cbn [fst snd]; lia.
    + exists w'. left. exact E.
    + exists w'. right. exists x, y. split; [exact E|].
      rewrite Hscreen in Bx, By. cbn [fst snd] in Bx, By. lia.
  - destruct (get_next_position_run P (sw - 50) (sh - 50) 50 50 w
                ltac:(lia) ltac:(lia) (proj1 HP)) as (x & y & E & Bx & By).
    eexists. right. exists x, y. split; [exact E|]. lia.
Qed.

(** An iteration of the loop completes, or is still sampling a small
    movement. *)
Lemma iteration_default_safe st w :
  exists r w',
    iteration P default_config n (50, 50, sw - 50, sh - 50) st w = (r, w') /\
    (r = Pending \/ exists st', r = Ok st').
Proof.
  unfold iteration, get_cursor_pos.
  unfold bind at 1. rewrite (platform_call_run P HP). cbv beta iota.
  pose proof (Hcur (ticks w)) as Hb.
  destruct (cursor P (ticks w)) as [cx cy]. cbn [fst snd] in Hb.
  change (ENABLE_SMALL_MOVEMENTS default_config) with true. cbv iota.
  unfold bind at 1. unfold bind at 1, random at 1. rewrite (tick_run P HP).
  cbv beta iota. unfold ret at 1. cbv beta iota.
  match goal with
  | |- context [if ?b then get_small_movement_position _ _ _ _ _ else _] =>
    destruct (target_default_ok b cx cy
                {| ticks := S (ticks {| ticks := S (ticks w); log := log w |});
                   log := log {| ticks := S (ticks w); log := log w |} |}
                ltac:(lia) ltac:(lia))
      as (w3 & [E3 | (tx & ty & E3 & Btx & Bty)])
  end.
  - unfold bind at 1. rewrite E3. exists Pending, w3. split; [reflexivity|]. left. reflexivity.
  - unfold bind at 1. rewrite E3. cbv beta iota.
    destruct (choose_default_run P (consecutive_count st) w3 HP) as (chosen & E4).
    unfold bind at 1. rewrite E4. cbv beta iota.
    destruct (update_consecutive_count default_config chosen (consecutive_count st)
                (last_movement_type st)) as [executed cc'].
    unfold bind at 1, emit at 1. cbv beta iota.
    match goal with
    | |- context [bind (match executed with
                        | linear => _
                        | bezier => _
                        end) _ ?w5] =>
      assert (E6 : exists w6,
                (match executed with
                 | linear => linear_mouse_move P default_config tx ty
                 | bezier => human_like_mouse_move P default_config tx ty
                 end) w5 = (Ok tt, w6))
        by (destruct executed; [apply linear_default_ok|apply bezier_default_ok];
            assumption)
    end.
    destruct E6 as (w6 & E6).
    unfold bind at 1. rewrite E6. cbv beta iota.
    unfold bind at 1.
    rewrite (randint_run P _ _ w6 (proj1 HP)) by (vm_compute; discriminate).
    cbv beta iota.
    unfold bind at 1.
    rewrite (sleep_int_run P) by
      (try exact HP;
       pose proof (Z.mod_pos_bound (entropy P (ticks w6))
                     (snd (WAIT_TIME_RANGE default_config) -
                      fst (WAIT_TIME_RANGE default_config) + 1)
                     ltac:(vm_compute; reflexivity));
       change (fst (WAIT_TIME_RANGE default_config)) with 10 in *;
       change (snd (WAIT_TIME_RANGE default_config)) with 60 in *; lia).
    cbv beta iota. unfold ret.
    eexists. eexists. split; [reflexivity|]. right. eexists. reflexivity.
Qed.

Lemma run_loop_default_pending : forall fuel st w,
  exists w', run_loop P default_config n fuel (50, 50, sw - 50, sh - 50) st w = (Pending, w').
Proof.
  induction fuel as [|fuel IH]; intros st w; cbn [run_loop].
  - exists w. reflexivity.
  - destruct (iteration_default_safe st w) as (r & w1 & E & [-> | (st' & ->)]).
    + unfold bind. rewrite E. exists w1. reflexivity.
    + unfold bind. rewrite E. apply IH.
Qed.

Lemma main_default_running :
  deps_ok P = true -> fst (main P default_config n) = Running.
Proof.
  intros Hd. unfold main. rewrite Hd. cbn [negb].
  unfold main_try, get_screen_bounds, get_screen_dimensions, MouseController,
    controller_get_screen_dimensions.
  unfold bind at 1. unfold bind at 1. rewrite (platform_call_run P HP). cbv beta iota.
  unfold bind at 1. rewrite (platform_call_run P HP). cbv beta iota.
  rewrite Hscreen. unfold lift at 1.
  assert (Eb : screen_bounds default_config sw sh = Ok (50, 50, sw - 50, sh - 50)).
  { unfold screen_bounds.
    change (ENABLE_SCREEN_SAFE_ZONE default_config) with true.
    change (SCREEN_MARGIN default_config) with [50].
    cbn [negb parse_margin rbind].
    destruct (sw - 50 <=? 50) eqn:E1; [apply Z.leb_le in E1; lia|].
    destruct (sh - 50 <=? 50) eqn:E2; [apply Z.leb_le in E2; lia|].
    reflexivity. }
  rewrite Eb. cbv beta iota.
  unfold bind at 1. unfold bind at 1. rewrite (platform_call_run P HP). cbv beta iota.
  rewrite (platform_call_run P HP). cbv beta iota.
  unfold bind at 1. rewrite (platform_call_run P HP). cbv beta iota.
  match goal with
  | |- context [run_loop P default_config n n ?b ?st ?w] =>
    destruct (run_loop_default_pending n st w) as (w' & E)
  end.
  rewrite E. reflexivity.
Qed.

End DefaultRun.

(** With the configuration of [config.py], on a platform whose calls do not
    fail, with no Ctrl-C, a screen wider and higher than the two margins and
    a pointer that stays within 200 pixels of the screen, [main] never stops:
    whatever the random numbers and however long it runs, no movement, no
    conversion and no sleep raises an exception. *)
Theorem main_keeps_running P n :
  deps_ok P = true ->
  undisturbed P ->
  pow_sane (libm_pow P) ->
  100 < fst (screen P) <= 2 ^ 23 ->
  100 < snd (screen P) <= 2 ^ 23 ->
  (forall t, -200 < fst (cursor P t) < fst (screen P) + 200 /\
             -200 < snd (cursor P t) < snd (screen P) + 200) ->
  fst (main P default_config n) = Running.
Proof.
  intros Hd HP Hpw Hsw Hsh Hcur.
  destruct (screen P) as [sw sh] eqn:Hs. cbn [fst snd] in *.
  exact (main_default_running P n sw sh HP Hpw Hs Hsw Hsh Hcur Hd).
Qed.

Lemma main_keeps_running_witness :
  (undisturbed (quiet_platform (400, 300) (fun t => Z.of_nat t * 7919)) /\
   pow_sane (libm_pow (quiet_platform (400, 300) (fun t => Z.of_nat t * 7919)))) /\
  fst (main (quiet_platform (400, 300) (fun t => Z.of_nat t * 7919)) default_config 3)
    = Running.
Proof.
  assert (HP : undisturbed (quiet_platform (400, 300) (fun t => Z.of_nat t * 7919)))
    by (split; [reflexivity|intros t; reflexivity]).
  split; [split; [exact HP|exact pow_by_mul_sane]|].
  apply main_keeps_running;
    [reflexivity|exact HP|exact pow_by_mul_sane|cbn; lia|cbn; lia|intros t; cbn; lia].
Defined.

Lemma human_like_mouse_move_returns_witness :
  derived_steps (quiet_platform (400, 300) (fun t => Z.of_nat t * 7919))
                default_config boot = Ok 99 /\
  below 30 (derived_interval (quiet_platform (400, 300) (fun t => Z.of_nat t * 7919))
                             default_config boot) /\
  exists w' pts,
    human_like_mouse_move (quiet_platform (400, 300) (fun t => Z.of_nat t * 7919))
                          default_config 50 60 boot = (Ok tt, w') /\
    cursor_writes (log w') = cursor_writes (log boot) ++ pts /\
    List.length pts = Z.to_nat (99 + 1).
Proof.
  split; [vm_compute; reflexivity|].
  split; [vm_compute; discriminate|].
  apply (human_like_mouse_move_returns
           (quiet_platform (400, 300) (fun t => Z.of_nat t * 7919))
           default_config 50 60 boot 400 300 99).
  - split; [reflexivity|intros t; reflexivity].
  - exact pow_by_mul_sane.
  - reflexivity.
  - vm_compute; reflexivity.
  - vm_compute; reflexivity.
  - vm_compute; reflexivity.
  - vm_compute; reflexivity.
  - vm_compute; discriminate.
  - vm_compute; discriminate.
  - vm_compute; split; discriminate.
  - vm_compute; reflexivity.
  - lia.
Defined.
